(** * River: durable, resumable streams

    A shallow embedding of the streaming engine of the [river] packages
    ([river_core], [river_provider_redis], [river_adapter_fastapi]) and the
    properties of its specification that were checked against it.

    Layout:
    - [Py]      : the parts of the Python standard library the sources call
                  ([str]/[bytes], [base64], UTF-8, [json]);
    - [Token]   : [river_core/helpers.py] and the token decoding of
                  [river_core/callers.py];
    - [Engine]  : items, the two providers ([river_core/provider.py],
                  [river_provider_redis/provider.py]) as a small-step machine
                  over the asyncio scheduling points, and the resume reader;
    - [Facade]  : [StreamCaller.start] and the FastAPI [post_handler]. *)

From Stdlib Require Import List NArith ZArith Bool Lia Arith String Ascii.
Import ListNotations.
Set Warnings "-register-all".

(** Closed conjunctions of equations are settled by evaluation. *)
Ltac conj_compute :=
  lazymatch goal with
  | |- _ /\ _ => split; [vm_compute; reflexivity | conj_compute]
  | |- _ => vm_compute; reflexivity
  end.

(* ================================================================== *)
(** * Python standard library model *)
(* ================================================================== *)

Module Py.
Local Open Scope N_scope.

(** A Python [str] is a sequence of code points, a [bytes] object a sequence
    of numbers below 256. *)
Definition pystr := list N.
Definition pybytes := list N.

(** String literals of the sources. *)
Definition lit (s : string) : pystr := map N_of_ascii (list_ascii_of_string s).
Arguments lit s%_string.

(** The same with every apostrophe read as a double quote, to write JSON
    texts. *)
Definition litq (s : string) : pystr :=
  map (fun c => if N.eqb c 39 then 34%N else c) (lit s).
Arguments litq s%_string.

Fixpoint str_eqb (a b : pystr) : bool :=
  match a, b with
  | [], [] => true
  | x :: a', y :: b' => (x =? y) && str_eqb a' b'
  | _, _ => false
  end.

Definition is_ascii (c : N) : bool := c <? 128.

(** [s.encode('ascii')]: fails on any code point above 127. *)
Definition ascii_encode (s : pystr) : option pybytes :=
  if forallb is_ascii s then Some s else None.

(** ** UTF-8 *)

(** [str.encode('utf-8')]: surrogates cannot be encoded. *)
Definition utf8_encode_char (c : N) : option pybytes :=
  if c <? 128 then Some [c]
  else if c <? 2048 then Some [192 + c / 64; 128 + c mod 64]
  else if c <? 65536 then
    if (55296 <=? c) && (c <=? 57343) then None
    else Some [224 + c / 4096; 128 + (c / 64) mod 64; 128 + c mod 64]
  else if c <? 1114112 then
    Some [240 + c / 262144; 128 + (c / 4096) mod 64;
          128 + (c / 64) mod 64; 128 + c mod 64]
  else None.

Fixpoint utf8_encode (s : pystr) : option pybytes :=
  match s with
  | [] => Some []
  | c :: r =>
    match utf8_encode_char c, utf8_encode r with
    | Some bs, Some rest => Some (bs ++ rest)
    | _, _ => None
    end
  end.

Definition is_cont (b : N) : bool := (128 <=? b) && (b <=? 191).

(** [bytes.decode('utf-8')] (strict): overlong forms, surrogates and code
    points above U+10FFFF are rejected. *)
Fixpoint utf8_decode (bs : pybytes) : option pystr :=
  match bs with
  | [] => Some []
  | b0 :: r0 =>
    if b0 <? 128 then option_map (cons b0) (utf8_decode r0)
    else if (194 <=? b0) && (b0 <=? 223) then
      match r0 with
      | b1 :: r1 =>
        if is_cont b1
        then option_map (cons ((b0 - 192) * 64 + (b1 - 128))) (utf8_decode r1)
        else None
      | _ => None
      end
    else if (224 <=? b0) && (b0 <=? 239) then
      match r0 with
      | b1 :: b2 :: r2 =>
        if is_cont b1 && is_cont b2
           && (negb (b0 =? 224) || (160 <=? b1))
           && (negb (b0 =? 237) || (b1 <=? 159))
        then option_map
               (cons ((b0 - 224) * 4096 + (b1 - 128) * 64 + (b2 - 128)))
               (utf8_decode r2)
        else None
      | _ => None
      end
    else if (240 <=? b0) && (b0 <=? 244) then
      match r0 with
      | b1 :: b2 :: b3 :: r3 =>
        if is_cont b1 && is_cont b2 && is_cont b3
           && (negb (b0 =? 240) || (144 <=? b1))
           && (negb (b0 =? 244) || (b1 <=? 143))
        then option_map
               (cons ((b0 - 240) * 262144 + (b1 - 128) * 4096
                      + (b2 - 128) * 64 + (b3 - 128)))
               (utf8_decode r3)
        else None
      | _ => None
      end
    else None
  end.

(** ** base64 *)

(** The standard alphabet of [base64.b64encode]:
    [A-Z], [a-z], [0-9], [+], [/]. *)
Definition b64char (i : N) : N :=
  if i <? 26 then 65 + i
  else if i <? 52 then 97 + (i - 26)
  else if i <? 62 then 48 + (i - 52)
  else if i =? 62 then 43
  else 47.

Definition BASE64_PAD : N := 61.

(** [base64.b64encode] ([binascii.b2a_base64] without the newline). *)
Fixpoint b64encode (bs : pybytes) : pybytes :=
  match bs with
  | [] => []
  | [a] => [b64char (a / 4); b64char ((a mod 4) * 16); BASE64_PAD; BASE64_PAD]
  | [a; b] =>
    [b64char (a / 4); b64char ((a mod 4) * 16 + b / 16);
     b64char ((b mod 16) * 4); BASE64_PAD]
  | a :: b :: c :: rest =>
    b64char (a / 4) :: b64char ((a mod 4) * 16 + b / 16)
    :: b64char ((b mod 16) * 4 + c / 64) :: b64char (c mod 64)
    :: b64encode rest
  end.

(** [table_a2b_base64]: the value of an alphabet character. *)
Definition b64val (c : N) : option N :=
  if (65 <=? c) && (c <=? 90) then Some (c - 65)
  else if (97 <=? c) && (c <=? 122) then Some (c - 97 + 26)
  else if (48 <=? c) && (c <=? 57) then Some (c - 48 + 52)
  else if c =? 43 then Some 62
  else if c =? 47 then Some 63
  else None.

(** [binascii.a2b_base64] in its default, non-strict mode, the loop of the C
    implementation: characters outside the alphabet are skipped, a pad
    sequence that completes a quad ends the input, and leftover characters
    at the end are an error ([None]). *)
Fixpoint a2b_base64 (s : pybytes) (quad_pos leftchar pads : N)
  : option pybytes :=
  match s with
  | [] => if quad_pos =? 0 then Some [] else None
  | this_ch :: rest =>
    if this_ch =? BASE64_PAD then
      if 2 <=? quad_pos then
        if 4 <=? quad_pos + (pads + 1) then Some []
        else a2b_base64 rest quad_pos leftchar (pads + 1)
      else a2b_base64 rest quad_pos leftchar pads
    else
      match b64val this_ch with
      | None => a2b_base64 rest quad_pos leftchar pads
      | Some v =>
        if quad_pos =? 0 then a2b_base64 rest 1 v 0
        else if quad_pos =? 1 then
          option_map (cons (leftchar * 4 + v / 16))
                     (a2b_base64 rest 2 (v mod 16) 0)
        else if quad_pos =? 2 then
          option_map (cons (leftchar * 16 + v / 4))
                     (a2b_base64 rest 3 (v mod 4) 0)
        else
          option_map (cons (leftchar * 64 + v)) (a2b_base64 rest 0 0 0)
      end
  end.

(** [base64.b64decode(s)] for a [str] argument: the string is first encoded
    as ASCII, then handed to [a2b_base64]. *)
Definition b64decode (s : pystr) : option pybytes :=
  match ascii_encode s with
  | None => None
  | Some bs => a2b_base64 bs 0 0 0
  end.

(** ** json *)

(** Decoded JSON values.  A number keeps the text of its literal; an object
    is a Python [dict], kept in insertion order. *)
Inductive json :=
| JNull
| JBool (b : bool)
| JNumber (text : pystr)
| JString (s : pystr)
| JArray (xs : list json)
| JObject (kvs : list (pystr * json)).

Definition pydict := list (pystr * json).

(** [d[k] = v] *)
Fixpoint dict_set (d : pydict) (k : pystr) (v : json) : pydict :=
  match d with
  | [] => [(k, v)]
  | (k', v') :: r =>
    if str_eqb k k' then (k', v) :: r else (k', v') :: dict_set r k v
  end.

(** [d.get(k)] *)
Fixpoint dict_get (d : pydict) (k : pystr) : option json :=
  match d with
  | [] => None
  | (k', v') :: r => if str_eqb k k' then Some v' else dict_get r k
  end.

(** [dict(pairs)] *)
Definition dict_of_pairs (pairs : list (pystr * json)) : pydict :=
  fold_left (fun d kv => dict_set d (fst kv) (snd kv)) pairs [].

(** *** json.dumps (default arguments: [ensure_ascii=True], separators
    [", "] and [": "]) *)

Definition hexdigit (d : N) : N := if d <? 10 then 48 + d else 87 + d.

(** ['\\u{0:04x}'.format(n)] *)
Definition u_escape (n : N) : pystr :=
  [92; 117; hexdigit ((n / 4096) mod 16); hexdigit ((n / 256) mod 16);
   hexdigit ((n / 16) mod 16); hexdigit (n mod 16)].

(** The replacement of one character by [py_encode_basestring_ascii]. *)
Definition escape_char (c : N) : pystr :=
  if c =? 34 then [92; 34]
  else if c =? 92 then [92; 92]
  else if c =? 10 then [92; 110]
  else if c =? 13 then [92; 114]
  else if c =? 9 then [92; 116]
  else if c =? 8 then [92; 98]
  else if c =? 12 then [92; 102]
  else if (32 <=? c) && (c <=? 126) then [c]
  else if c <? 65536 then u_escape c
  else u_escape (55296 + ((c - 65536) / 1024) mod 1024)
       ++ u_escape (56320 + (c - 65536) mod 1024).

Definition escape_body (s : pystr) : pystr := flat_map escape_char s.

Definition encode_basestring_ascii (s : pystr) : pystr :=
  34 :: escape_body s ++ [34].

Fixpoint join (sep : pystr) (parts : list pystr) : pystr :=
  match parts with
  | [] => []
  | [p] => p
  | p :: rest => p ++ sep ++ join sep rest
  end.

Fixpoint json_dumps (v : json) : pystr :=
  match v with
  | JNull => lit "null"
  | JBool true => lit "true"
  | JBool false => lit "false"
  | JNumber text => text
  | JString s => encode_basestring_ascii s
  | JArray xs => 91 :: join (lit ", ") (map json_dumps xs) ++ [93]
  | JObject kvs =>
    123 :: join (lit ", ")
             (map (fun kv => encode_basestring_ascii (fst kv) ++ lit ": "
                             ++ json_dumps (snd kv)) kvs)
        ++ [125]
  end.

(** *** json.loads *)

Definition is_ws (c : N) : bool :=
  (c =? 32) || (c =? 9) || (c =? 10) || (c =? 13).

Fixpoint skip_ws (s : pystr) : pystr :=
  match s with
  | c :: r => if is_ws c then skip_ws r else s
  | [] => []
  end.

Definition hexval (c : N) : option N :=
  if (48 <=? c) && (c <=? 57) then Some (c - 48)
  else if (97 <=? c) && (c <=? 102) then Some (c - 87)
  else if (65 <=? c) && (c <=? 70) then Some (c - 55)
  else None.

(** [_decode_uXXXX] on four characters. *)
Definition hex4 (a b c d : N) : option N :=
  match hexval a, hexval b, hexval c, hexval d with
  | Some x, Some y, Some z, Some w => Some (((x * 16 + y) * 16 + z) * 16 + w)
  | _, _, _, _ => None
  end.

(** The [BACKSLASH] table of [json.decoder]. *)
Definition backslash (esc : N) : option N :=
  if esc =? 34 then Some 34
  else if esc =? 92 then Some 92
  else if esc =? 47 then Some 47
  else if esc =? 98 then Some 8
  else if esc =? 102 then Some 12
  else if esc =? 110 then Some 10
  else if esc =? 114 then Some 13
  else if esc =? 116 then Some 9
  else None.

Definition prepend (c : N) (r : option (pystr * pystr)) : option (pystr * pystr) :=
  match r with
  | Some (content, rest) => Some (c :: content, rest)
  | None => None
  end.

(** [scanstring] ([strict=True]), entered after the opening quote; returns
    the decoded content and the text after the closing quote. *)
Fixpoint scanstring (s : pystr) : option (pystr * pystr) :=
  match s with
  | [] => None
  | c :: r =>
    if c =? 34 then Some ([], r)
    else if c =? 92 then
      match r with
      | [] => None
      | esc :: r1 =>
        if esc =? 117 then
          match r1 with
          | a :: b :: c2 :: d :: r2 =>
            match hex4 a b c2 d with
            | None => None
            | Some uni =>
              if (55296 <=? uni) && (uni <=? 56319) then
                match r2 with
                | 92 :: 117 :: r3 =>
                  match r3 with
                  | a' :: b' :: c' :: d' :: r4 =>
                    match hex4 a' b' c' d' with
                    | None => None
                    | Some uni2 =>
                      if (56320 <=? uni2) && (uni2 <=? 57343)
                      then prepend (65536 + (uni - 55296) * 1024
                                    + (uni2 - 56320))
                                   (scanstring r4)
                      else prepend uni (scanstring r2)
                    end
                  | _ => None
                  end
                | _ => prepend uni (scanstring r2)
                end
              else prepend uni (scanstring r2)
            end
          | _ => None
          end
        else
          match backslash esc with
          | Some ch => prepend ch (scanstring r1)
          | None => None
          end
      end
    else if c <? 32 then None
    else prepend c (scanstring r)
  end.

Definition is_digit (c : N) : bool := (48 <=? c) && (c <=? 57).

Fixpoint span_digits (s : pystr) : pystr * pystr :=
  match s with
  | c :: r =>
    if is_digit c then let (ds, rest) := span_digits r in (c :: ds, rest)
    else ([], s)
  | [] => ([], [])
  end.

(** [NUMBER_RE]: an optional minus sign, then [0] or a digit sequence
    without leading zero; an optional fraction (a dot and at least one
    digit); an optional exponent ([e] or [E], an optional sign, at least one
    digit). *)
Definition match_integer (s : pystr) : option (pystr * pystr) :=
  let (sign, s1) := match s with
                    | 45 :: r => ([45], r)
                    | _ => ([], s)
                    end in
  match s1 with
  | 48 :: r => Some (sign ++ [48], r)
  | c :: r =>
    if is_digit c then
      let (ds, rest) := span_digits r in Some (sign ++ c :: ds, rest)
    else None
  | [] => None
  end.

Definition match_frac (s : pystr) : pystr * pystr :=
  match s with
  | 46 :: r =>
    match span_digits r with
    | ([], _) => ([], s)
    | (ds, rest) => (46 :: ds, rest)
    end
  | _ => ([], s)
  end.

Definition match_exp (s : pystr) : pystr * pystr :=
  match s with
  | e :: r =>
    if (e =? 101) || (e =? 69) then
      let (sign, r1) := match r with
                        | 43 :: r' => ([43], r')
                        | 45 :: r' => ([45], r')
                        | _ => ([], r)
                        end in
      match span_digits r1 with
      | ([], _) => ([], s)
      | (ds, rest) => (e :: sign ++ ds, rest)
      end
    else ([], s)
  | [] => ([], s)
  end.

Definition match_number (s : pystr) : option (pystr * pystr) :=
  match match_integer s with
  | None => None
  | Some (i, r) =>
    let (f, r1) := match_frac r in
    let (e, r2) := match_exp r1 in
    Some (i ++ f ++ e, r2)
  end.

(** [s[idx:idx+len(w)] == w], returning the text after the word. *)
Fixpoint strip_prefix (w s : pystr) : option pystr :=
  match w, s with
  | [], _ => Some s
  | x :: w', y :: s' => if x =? y then strip_prefix w' s' else None
  | _ :: _, [] => None
  end.

Definition scan_constant (s : pystr) : option (json * pystr) :=
  match strip_prefix (lit "null") s with
  | Some r => Some (JNull, r)
  | None =>
  match strip_prefix (lit "true") s with
  | Some r => Some (JBool true, r)
  | None =>
  match strip_prefix (lit "false") s with
  | Some r => Some (JBool false, r)
  | None =>
  match match_number s with
  | Some (text, r) => Some (JNumber text, r)
  | None =>
  match strip_prefix (lit "NaN") s with
  | Some r => Some (JNumber (lit "NaN"), r)
  | None =>
  match strip_prefix (lit "Infinity") s with
  | Some r => Some (JNumber (lit "Infinity"), r)
  | None =>
  match strip_prefix (lit "-Infinity") s with
  | Some r => Some (JNumber (lit "-Infinity"), r)
  | None => None
  end end end end end end end.

(** [scan_once], [JSONObject] and [JSONArray] of [json.decoder]/[json.scanner].
    The three functions call each other; [fuel] bounds the calls and is
    never exhausted when it starts above twice the length of the text. *)
Fixpoint scan_once (fuel : nat) (s : pystr) {struct fuel}
  : option (json * pystr) :=
  match fuel with
  | O => None
  | S fuel' =>
    match s with
    | [] => None
    | c :: r =>
      if c =? 34 then
        match scanstring r with
        | Some (content, rest) => Some (JString content, rest)
        | None => None
        end
      else if c =? 123 then
        match skip_ws r with
        | 125 :: rest => Some (JObject [], rest)
        | 34 :: rest => JSONObject_pairs fuel' [] rest
        | _ => None
        end
      else if c =? 91 then
        match skip_ws r with
        | 93 :: rest => Some (JArray [], rest)
        | r' => JSONArray_values fuel' [] r'
        end
      else scan_constant s
    end
  end

with JSONObject_pairs (fuel : nat) (pairs : list (pystr * json)) (s : pystr)
  {struct fuel} : option (json * pystr) :=
  match fuel with
  | O => None
  | S fuel' =>
    match scanstring s with
    | None => None
    | Some (key, s1) =>
      match skip_ws s1 with
      | 58 :: s2 =>
        match scan_once fuel' (skip_ws s2) with
        | None => None
        | Some (value, s3) =>
          let pairs' := pairs ++ [(key, value)] in
          match skip_ws s3 with
          | 125 :: rest => Some (JObject (dict_of_pairs pairs'), rest)
          | 44 :: s4 =>
            match skip_ws s4 with
            | 34 :: s5 => JSONObject_pairs fuel' pairs' s5
            | _ => None
            end
          | _ => None
          end
        end
      | _ => None
      end
    end
  end

with JSONArray_values (fuel : nat) (values : list json) (s : pystr)
  {struct fuel} : option (json * pystr) :=
  match fuel with
  | O => None
  | S fuel' =>
    match scan_once fuel' s with
    | None => None
    | Some (value, s1) =>
      let values' := values ++ [value] in
      match skip_ws s1 with
      | 93 :: rest => Some (JArray values', rest)
      | 44 :: s2 => JSONArray_values fuel' values' (skip_ws s2)
      | _ => None
      end
    end
  end.

(** [json.loads(s)] for a [str]: a leading BOM is refused, the value may be
    surrounded by whitespace, and nothing else may follow it. *)
Definition json_loads (s : pystr) : option json :=
  match s with
  | 65279 :: _ => None
  | _ =>
    match scan_once (2 * List.length s + 2) (skip_ws s) with
    | Some (v, rest) =>
      match skip_ws rest with
      | [] => Some v
      | _ => None
      end
    | None => None
    end
  end.

End Py.

(* ================================================================== *)
(** * Errors ([river_core/errors.py]) *)
(* ================================================================== *)

Inductive RiverErrorType :=
| UNKNOWN | VALIDATION | PROVIDER | STREAM_NOT_FOUND
| INVALID_RESUMPTION_TOKEN | RUNNER_ERROR | NETWORK.

(** The exceptions that leave the modelled functions. *)
Inductive exn :=
| ValueError
| KeyError
| RiverError (error_type : RiverErrorType).

Inductive result (A : Type) :=
| Ok (a : A)
| Raise (e : exn).
Arguments Ok {A} a.
Arguments Raise {A} e.

(* ================================================================== *)
(** * Resumption tokens ([river_core/helpers.py], [river_core/callers.py]) *)
(* ================================================================== *)

Module Token.
Import Py.
Local Open Scope N_scope.

(** [class ResumptionToken(TypedDict)]: four [str] fields.  At run time a
    [TypedDict] is a plain [dict] and its constructor checks nothing;
    [token_dict] is the dict that the keyword call of
    [RedisRiverProvider.start_stream] builds. *)
Record ResumptionToken := {
  provider_id : pystr;
  router_stream_key : pystr;
  stream_storage_id : pystr;
  stream_run_id : pystr
}.

Definition token_dict (t : ResumptionToken) : pydict :=
  [ (lit "provider_id", JString (provider_id t));
    (lit "router_stream_key", JString (router_stream_key t));
    (lit "stream_storage_id", JString (stream_storage_id t));
    (lit "stream_run_id", JString (stream_run_id t)) ].

(** [encode_resumption_token]:
    [base64.b64encode(json.dumps(token).encode("utf-8")).decode("utf-8")].
    [None] stands for an exception of one of the two codec calls. *)
Definition encode_resumption_token (token : pydict) : option pystr :=
  let json_str := json_dumps (JObject token) in
  match utf8_encode json_str with
  | None => None
  | Some raw => utf8_decode (b64encode raw)
  end.

(** The body of the [try] block shared by [decode_resumption_token] and
    [StreamCaller.resume]:
    [json.loads(base64.b64decode(encoded).decode("utf-8"))] followed by
    [ResumptionToken( **data )], which copies a dict and raises [TypeError] on
    anything that is not a mapping.  [None] stands for any exception. *)
Definition decode_body (encoded : pystr) : option pydict :=
  match b64decode encoded with
  | None => None
  | Some raw =>
    match utf8_decode raw with
    | None => None
    | Some json_str =>
      match json_loads json_str with
      | Some (JObject data) => Some data
      | _ => None
      end
    end
  end.

(** [helpers.decode_resumption_token]: every exception becomes [ValueError]. *)
Definition decode_resumption_token (encoded : pystr) : result pydict :=
  match decode_body encoded with
  | Some token => Ok token
  | None => Raise ValueError
  end.

(** The decoding step of [StreamCaller.resume]: every exception becomes a
    [RiverError] of type [INVALID_RESUMPTION_TOKEN]. *)
Definition resume_decode (resume_key : pystr) : result pydict :=
  match decode_body resume_key with
  | Some token => Ok token
  | None => Raise (RiverError INVALID_RESUMPTION_TOKEN)
  end.

(** The four keys a token must carry. *)
Definition required_fields : list pystr :=
  [lit "provider_id"; lit "router_stream_key";
   lit "stream_storage_id"; lit "stream_run_id"].

Definition has_field (d : pydict) (k : pystr) : bool :=
  match dict_get d k with Some _ => true | None => false end.

Definition complete_token (d : pydict) : bool :=
  forallb (has_field d) required_fields.

(** A Unicode scalar value: a code point that is not a surrogate. *)
Definition is_scalar (c : N) : bool :=
  (c <? 1114112) && negb ((55296 <=? c) && (c <=? 57343)).

Definition valid_str (s : pystr) : bool := forallb is_scalar s.

(** A valid token: its four fields are strings of Unicode scalar values. *)
Definition valid_token (t : ResumptionToken) : bool :=
  valid_str (provider_id t) && valid_str (router_stream_key t)
  && valid_str (stream_storage_id t) && valid_str (stream_run_id t).

(** The characters of the standard and of the URL-safe base-64 alphabets. *)
Definition is_alnum (c : N) : bool :=
  ((65 <=? c) && (c <=? 90)) || ((97 <=? c) && (c <=? 122))
  || ((48 <=? c) && (c <=? 57)).

Definition std_b64_char (c : N) : bool :=
  is_alnum c || (c =? 43) || (c =? 47) || (c =? 61).

Definition urlsafe_b64_char (c : N) : bool :=
  is_alnum c || (c =? 45) || (c =? 95) || (c =? 61).

End Token.

(* ================================================================== *)
(** * The streaming engine
      ([river_core/types.py], [river_core/provider.py],
       [river_provider_redis/provider.py]) *)
(* ================================================================== *)

Module Engine.
Import Py Token.
Local Open Scope nat_scope.

(** ** Items ([types.py]) *)

(** [RiverError.to_dict()] *)
Record ErrorDict := {
  message : pystr;
  error_type : RiverErrorType;
  details : pydict
}.

(** A chunk payload is whatever the runner passes to [append_chunk]; the
    Redis helper and the adapter serialize it with [json.dumps], so it is
    taken to be a JSON value.  [total_time_ms] is a float in the source and
    is kept here as a number of milliseconds read from the environment. *)
Inductive RiverSpecialChunk :=
| StreamStart (stream_run_id : pystr) (encoded_resumption_token : option pystr)
| StreamEnd (total_chunks : nat) (total_time_ms : N)
| StreamError (error : ErrorDict)
| StreamFatalError (error : ErrorDict).

Inductive CallerStreamItem :=
| Chunk (chunk : json)
| Special (special : RiverSpecialChunk)
| Aborted.

Definition is_chunk (item : CallerStreamItem) : bool :=
  match item with Chunk _ => true | _ => false end.

Definition is_aborted (item : CallerStreamItem) : bool :=
  match item with Aborted => true | _ => false end.

Definition is_stream_start (item : CallerStreamItem) : bool :=
  match item with Special (StreamStart _ _) => true | _ => false end.

(** [special.get("type") in ["stream_fatal_error", "stream_end"]] *)
Definition is_terminal (item : CallerStreamItem) : bool :=
  match item with
  | Special (StreamFatalError _) | Special (StreamEnd _ _) => true
  | _ => false
  end.

(** ** The runner

    A runner is user code; the engine sees the calls it makes on the helper,
    the points where it suspends for a reason of its own, and whether it
    ends by raising. *)
Inductive RunnerOp :=
| AppendChunk (chunk : json)
| AppendError (error : ErrorDict)
| SendFatalErrorAndClose (error : ErrorDict)
| Close
| Sleep
| RaiseException (msg : pystr).

Inductive Provider := DefaultRiverProvider | RedisRiverProvider.

Definition provider_id (p : Provider) : pystr :=
  match p with
  | DefaultRiverProvider => lit "default"
  | RedisRiverProvider => lit "redis"
  end.

Definition is_resumable (p : Provider) : bool :=
  match p with
  | DefaultRiverProvider => false
  | RedisRiverProvider => true
  end.

(** ** The Redis stream of one run *)

(** An entry of the stream: [{"data": json.dumps({"item": item})}] or the
    end marker [{"end": "true"}]. *)
Inductive Entry :=
| EData (item : CallerStreamItem)
| EEnd.

(** ** The coroutine [run_stream]

    The task that [start_stream] creates runs the runner and then the
    epilogue of [run_stream].  Between two suspension points asyncio runs it
    without interruption, so it is cut into instructions:
    - [IWrite item]: [await helper._write_to_redis(item)], an [xadd] whose
      failure is caught and only printed;
    - [IEndMarker]: [await redis.xadd(stream_key, {"end": "true"})], whose
      failure raises; [in_except] tells that the call is the one of the
      [except] branch of [run_stream];
    - [IPut x]: [await queue.put(x)] on the unbounded queue, which never
      suspends; [None] is the completion signal;
    - [ISleep]: a suspension inside the runner;
    - [IReturn]: the runner returned; [run_stream] reads [chunk_count] and
      builds [stream_end]. *)
Inductive Instr :=
| IWrite (item : CallerStreamItem)
| IEndMarker (in_except : bool)
| IPut (x : option CallerStreamItem)
| ISleep
| IReturn.

Definition suspends (i : Instr) : bool :=
  match i with
  | IWrite _ | IEndMarker _ | ISleep => true
  | IPut _ | IReturn => false
  end.

Definition runner_error (msg : pystr) : ErrorDict :=
  {| message := msg; error_type := RUNNER_ERROR; details := [] |}.

(** The [except Exception as e] branch of [run_stream] followed by its
    [finally] clause. *)
Definition except_branch (p : Provider) (msg : pystr) : list Instr :=
  let item := Special (StreamFatalError (runner_error msg)) in
  match p with
  | DefaultRiverProvider => [IPut (Some item); IPut None]
  | RedisRiverProvider =>
    [IWrite item; IPut (Some item); IEndMarker true; IPut None]
  end.

(** The rest of the [try] block after the runner returned, followed by the
    [finally] clause; [chunk_count] is the value the closure reads at that
    moment. *)
Definition after_return (p : Provider) (chunk_count : nat) (total_time_ms : N)
  : list Instr :=
  let item := Special (StreamEnd chunk_count total_time_ms) in
  match p with
  | DefaultRiverProvider => [IPut (Some item); IPut None]
  | RedisRiverProvider =>
    [IWrite item; IPut (Some item); IEndMarker false; IPut None]
  end.

(** [DefaultStreamHelper]: every method puts on the queue. *)
Definition DefaultStreamHelper (op : RunnerOp) : list Instr :=
  match op with
  | AppendChunk chunk => [IPut (Some (Chunk chunk))]
  | AppendError error => [IPut (Some (Special (StreamError error)))]
  | SendFatalErrorAndClose error =>
    [IPut (Some (Special (StreamFatalError error))); IPut None]
  | Close => []
  | Sleep => [ISleep]
  | RaiseException _ => []
  end.

(** [RedisStreamHelper]: every method writes to Redis, then puts on the
    queue. *)
Definition RedisStreamHelper (op : RunnerOp) : list Instr :=
  match op with
  | AppendChunk chunk =>
    let item := Chunk chunk in [IWrite item; IPut (Some item)]
  | AppendError error =>
    let item := Special (StreamError error) in [IWrite item; IPut (Some item)]
  | SendFatalErrorAndClose error =>
    let item := Special (StreamFatalError error) in
    [IWrite item; IPut (Some item); IEndMarker false; IPut None]
  | Close => []
  | Sleep => [ISleep]
  | RaiseException _ => []
  end.

Definition helper (p : Provider) : RunnerOp -> list Instr :=
  match p with
  | DefaultRiverProvider => DefaultStreamHelper
  | RedisRiverProvider => RedisStreamHelper
  end.

(** The instructions of [run_stream] for a runner. *)
Fixpoint run_stream (p : Provider) (ops : list RunnerOp) : list Instr :=
  match ops with
  | [] => [IReturn]
  | RaiseException msg :: _ => except_branch p msg
  | op :: rest => helper p op ++ run_stream p rest
  end.

(** ** The state of one run *)

(** The outcome of the Redis call the task was suspended on. *)
Inductive IoResult :=
| IoOk
| IoError (msg : pystr).

Record State := {
  provider : Provider;
  total_time_ms_read : N;                  (* what the clock gives at return *)
  task : list Instr;                       (* the rest of [run_stream] *)
  redis_stream : list Entry;               (* the stream at [stream_key] *)
  queue : list (option CallerStreamItem);  (* the [asyncio.Queue] *)
  chunk_count : nat;
  draining : bool;                         (* the [while True] loop runs *)
  live : list CallerStreamItem;            (* yielded by [start_stream] *)
  (* history, for the statements only *)
  offered : list (CallerStreamItem * bool);(* passed to [_write_to_redis],
                                              with the success of the write *)
  published : list (option CallerStreamItem) (* put on the queue *)
}.

Definition set_task (st : State) (t : list Instr) : State :=
  {| provider := provider st; total_time_ms_read := total_time_ms_read st;
     task := t; redis_stream := redis_stream st; queue := queue st;
     chunk_count := chunk_count st; draining := draining st; live := live st;
     offered := offered st; published := published st |}.

Definition io_ok (io : IoResult) : bool :=
  match io with IoOk => true | IoError _ => false end.

(** One instruction of the task.  [io] is only looked at by the two Redis
    calls. *)
Definition task_step (io : IoResult) (st : State) : State :=
  match task st with
  | [] => st
  | IWrite item :: k =>
    {| provider := provider st; total_time_ms_read := total_time_ms_read st;
       task := k;
       redis_stream := if io_ok io then redis_stream st ++ [EData item]
                       else redis_stream st;
       queue := queue st; chunk_count := chunk_count st;
       draining := draining st; live := live st;
       offered := offered st ++ [(item, io_ok io)];
       published := published st |}
  | IEndMarker in_except :: k =>
    match io with
    | IoOk =>
      {| provider := provider st; total_time_ms_read := total_time_ms_read st;
         task := k; redis_stream := redis_stream st ++ [EEnd];
         queue := queue st; chunk_count := chunk_count st;
         draining := draining st; live := live st;
         offered := offered st; published := published st |}
    | IoError msg =>
      (* the exception leaves the [try] block for the [except] branch (a
         runner that called [send_fatal_error_and_close] is taken not to
         catch it), or leaves the [except] branch for the [finally]
         clause *)
      set_task st (if in_except then [IPut None]
                   else except_branch (provider st) msg)
    end
  | IPut x :: k =>
    {| provider := provider st; total_time_ms_read := total_time_ms_read st;
       task := k; redis_stream := redis_stream st;
       queue := queue st ++ [x]; chunk_count := chunk_count st;
       draining := draining st; live := live st;
       offered := offered st; published := published st ++ [x] |}
  | ISleep :: k => set_task st k
  | IReturn :: _ =>
    set_task st (after_return (provider st) (chunk_count st)
                              (total_time_ms_read st))
  end.

(** One turn of the loop [while True: item = await queue.get() ...] of
    [start_stream], when the queue has an item.  On [None] the loop ends; the
    default provider then cancels a runner task that is not done, which
    leaves it its [finally] clause. *)
Definition drain_step (st : State) : State :=
  if draining st then
    match queue st with
    | [] => st
    | None :: q =>
      {| provider := provider st; total_time_ms_read := total_time_ms_read st;
         task := match provider st, task st with
                 | DefaultRiverProvider, _ :: _ => [IPut None]
                 | _, t => t
                 end;
         redis_stream := redis_stream st; queue := q;
         chunk_count := chunk_count st; draining := false; live := live st;
         offered := offered st; published := published st |}
    | Some item :: q =>
      {| provider := provider st; total_time_ms_read := total_time_ms_read st;
         task := task st; redis_stream := redis_stream st; queue := q;
         chunk_count := if is_chunk item then S (chunk_count st)
                        else chunk_count st;
         draining := true; live := live st ++ [item];
         offered := offered st; published := published st |}
    end
  else st.

(** A schedule: which of the two tasks the event loop runs next. *)
Inductive Choice :=
| RunTask (io : IoResult)
| Drain.

Definition step (c : Choice) (st : State) : State :=
  match c with
  | RunTask io => task_step io st
  | Drain => drain_step st
  end.

Definition exec (sched : list Choice) (st : State) : State :=
  fold_left (fun s c => step c s) sched st.

(** asyncio switches tasks only at suspension points: the consumer can run
    only while the runner task waits (its next instruction suspends) or is
    done. *)
Definition may_drain (st : State) : bool :=
  match task st with
  | [] => true
  | i :: _ => suspends i
  end.

Fixpoint asyncio_schedule (sched : list Choice) (st : State) : bool :=
  match sched with
  | [] => true
  | c :: rest =>
    match c with
    | Drain => may_drain st
    | RunTask _ => true
    end && asyncio_schedule rest (step c st)
  end.

Definition choice_ok (c : Choice) : bool :=
  match c with
  | RunTask io => io_ok io
  | Drain => true
  end.

(** Every Redis call of the schedule succeeds. *)
Definition all_io_ok (sched : list Choice) : bool := forallb choice_ok sched.

(** ** [start_stream] *)

(** [_make_stream_key] *)
Definition _make_stream_key (key_prefix stream_storage_id stream_run_id : pystr)
  : pystr :=
  key_prefix ++ stream_storage_id ++ lit ":" ++ stream_run_id.

(** The token [RedisRiverProvider.start_stream] builds;
    [router_stream_key] is the empty string. *)
Definition start_token (stream_storage_id stream_run_id : pystr)
  : ResumptionToken :=
  {| Token.provider_id := provider_id RedisRiverProvider;
     router_stream_key := [];
     stream_storage_id := stream_storage_id;
     stream_run_id := stream_run_id |}.

(** The first item: yielded to the caller directly, before the task is
    created; it goes neither through the queue nor to Redis. *)
Definition start_chunk (p : Provider) (stream_storage_id stream_run_id : pystr)
  : CallerStreamItem :=
  match p with
  | DefaultRiverProvider => Special (StreamStart stream_run_id None)
  | RedisRiverProvider =>
    Special (StreamStart stream_run_id
               (encode_resumption_token
                  (token_dict (start_token stream_storage_id stream_run_id))))
  end.

(** What the environment supplies to a run: the uuid, the clock. *)
Record RunEnv := {
  uuid4 : pystr;
  elapsed_ms : N
}.

(** The state when [start_stream] has yielded [stream_start] and created the
    task. *)
Definition start_stream (p : Provider) (env : RunEnv)
           (stream_storage_id : pystr) (ops : list RunnerOp) : State :=
  {| provider := p; total_time_ms_read := elapsed_ms env;
     task := run_stream p ops;
     redis_stream := []; queue := []; chunk_count := 0; draining := true;
     live := [start_chunk p stream_storage_id (uuid4 env)];
     offered := []; published := [] |}.

(** The run is over: the task is done and the loop has seen [None]. *)
Definition finished (st : State) : bool :=
  match task st with [] => negb (draining st) | _ => false end.

(** ** [resume_stream] *)

(** How a generator ends. *)
Inductive Ending :=
| Returned
| Raised (e : exn).

Record Resumed := {
  yielded : list CallerStreamItem;
  ending : Ending;
  attempts : nat          (* iterations of the read loop *)
}.

(** The two nested [for] loops over the messages of one [xread] result:
    the items yielded, and whether the generator returned.  An entry stands
    for the item that was written into it, and the loop is taken to yield
    that item: the code yields [json.loads] of the text that [json.dumps]
    wrote, which is the item written when [json] reads the payload back
    unchanged ([Wire.read_back], [Wire.wf_op]).  What a resumer is given is
    stated for such payloads only; a string that holds a surrogate pair as
    two code points, for one, comes back as one character. *)
Fixpoint process_messages (messages : list Entry)
  : list CallerStreamItem * bool :=
  match messages with
  | [] => ([], false)
  | EEnd :: _ => ([], true)
  | EData item :: rest =>
    if is_terminal item then ([item], true)
    else let (ys, fin) := process_messages rest in (item :: ys, fin)
  end.

(** [redis.xread({stream_key: last_id}, block=10, count=10)]: at most
    [count] entries after [last_id]; identifiers are positions. *)
Definition xread (stream : list Entry) (last_id count : nat) : list Entry :=
  firstn count (skipn last_id stream).

Definition max_attempts : nat := 1000.

(** The loop [while attempts < max_attempts].  [stream_at n] is the content
    of the Redis stream when the [n]-th read is served; [remaining] is
    [max_attempts - attempts]. *)
Fixpoint resume_loop (remaining : nat) (stream_at : nat -> list Entry)
         (attempts last_id : nat) : Resumed :=
  match remaining with
  | O => {| yielded := []; ending := Raised (RiverError PROVIDER);
            attempts := attempts |}
  | S remaining' =>
    let attempts := S attempts in
    match xread (stream_at attempts) last_id 10 with
    | [] => resume_loop remaining' stream_at attempts last_id
    | messages =>
      let (ys, fin) := process_messages messages in
      if fin then {| yielded := ys; ending := Returned; attempts := attempts |}
      else
        let r := resume_loop remaining' stream_at attempts
                             (last_id + List.length messages) in
        {| yielded := ys ++ yielded r; ending := ending r;
           attempts := Engine.attempts r |}
    end
  end.

(** [RedisRiverProvider.resume_stream] on the stream of its key;
    [stream_at 0] is what [redis.exists] sees. *)
Definition resume_stream (stream_at : nat -> list Entry) : Resumed :=
  match stream_at 0 with
  | [] => {| yielded := []; ending := Raised (RiverError STREAM_NOT_FOUND);
             attempts := 0 |}
  | _ => resume_loop max_attempts stream_at 0 0
  end.

(** A Redis server whose only key is [key]. *)
Definition redis_with (key : pystr) (stream : list Entry)
  : pystr -> list Entry :=
  fun k => if str_eqb k key then stream else [].

(** A field of a token inside the f-string of [_make_stream_key]: a string
    is taken as it is; of any other value the f-string takes [str(v)],
    which [format_value] stands for. *)
Definition format_field (format_value : json -> pystr) (v : json) : pystr :=
  match v with
  | JString s => s
  | _ => format_value v
  end.

(** The key [resume_stream] computes from a decoded token; [None] when a
    field is missing ([KeyError]). *)
Definition token_stream_key (format_value : json -> pystr)
           (key_prefix : pystr) (token : pydict) : option pystr :=
  match dict_get token (lit "stream_storage_id"),
        dict_get token (lit "stream_run_id") with
  | Some a, Some b =>
    Some (_make_stream_key key_prefix (format_field format_value a)
                           (format_field format_value b))
  | _, _ => None
  end.

(** [StreamCaller.resume(resume_key)] on a Redis provider: decode, then
    replay. *)
Definition StreamCaller_resume (format_value : json -> pystr)
           (redis_at : nat -> pystr -> list Entry)
           (key_prefix resume_key : pystr) : Resumed :=
  match resume_decode resume_key with
  | Raise e => {| yielded := []; ending := Raised e; attempts := 0 |}
  | Ok token =>
    match token_stream_key format_value key_prefix token with
    | None => {| yielded := []; ending := Raised KeyError; attempts := 0 |}
    | Some key => resume_stream (fun n => redis_at n key)
    end
  end.

End Engine.

(* ================================================================== *)
(** * The caller facade and the FastAPI adapter
      ([river_core/callers.py], [river_adapter_fastapi/server.py]) *)
(* ================================================================== *)

Module Facade.
Import Py Token Engine.
Local Open Scope nat_scope.

(** [RiverStream]: [input_model] is the pydantic model (the validated input,
    or [None] for [ValidationError]); the runner reads the validated input
    from its context. *)
Record RiverStream := {
  input_model : pydict -> option pydict;
  stream_provider : Provider;
  runner : pydict -> list RunnerOp;
  stream_storage_id : pystr
}.

Definition RiverRouter := list (pystr * RiverStream).

(** [ServerSideCaller.get_stream]; [None] is the [RiverError] of type
    [STREAM_NOT_FOUND]. *)
Fixpoint get_stream (router : RiverRouter) (key : pystr) : option RiverStream :=
  match router with
  | [] => None
  | (k, s) :: rest => if str_eqb key k then Some s else get_stream rest key
  end.

(** What the environment decides during one [start] call: the uuid and the
    clock, the interleaving of the two tasks, and whether
    [abort_signal.aborted] is set when the [n]-th item of the provider
    reaches the caller. *)
Record CallEnv := {
  run_env : RunEnv;
  schedule : list Choice;
  aborted_at : nat -> bool
}.

(** The loop of [StreamCaller.start] over the items of the provider:
    [if abort_signal.aborted: yield {"type": "aborted"}; break]. *)
Fixpoint caller_loop (aborted : nat -> bool) (n : nat)
         (items : list CallerStreamItem) : list CallerStreamItem :=
  match items with
  | [] => []
  | item :: rest =>
    if aborted n then [Aborted]
    else item :: caller_loop aborted (S n) rest
  end.

(** What iterating an async generator produced: its items, how it ended,
    and the run of the provider when one was started. *)
Record Generated := {
  items : list CallerStreamItem;
  gen_ending : Ending;
  run : option State
}.

(** The body of the async generator [StreamCaller.start]. *)
Definition StreamCaller_start (stream : RiverStream) (env : CallEnv)
           (input_data : pydict) : Generated :=
  match input_model stream input_data with
  | None =>
    {| items := []; gen_ending := Raised (RiverError VALIDATION);
       run := None |}
  | Some validated_input =>
    let st := exec (schedule env)
                   (start_stream (stream_provider stream) (run_env env)
                                 (stream_storage_id stream)
                                 (runner stream validated_input)) in
    {| items := caller_loop (aborted_at env) 0 (live st);
       gen_ending := Returned; run := Some st |}
  end.

(** [StreamCaller.start] is an async generator function: calling it builds
    the generator object and runs none of its body, so the call itself never
    raises.  The body runs when the generator is iterated. *)
Definition call_start (stream : RiverStream) (env : CallEnv)
           (input_data : pydict) : result Generated :=
  Ok (StreamCaller_start stream env input_data).

(** The answer of a handler: an [HTTPException], or an
    [EventSourceResponse] (status 200) whose body is the iteration of the
    generator it was given. *)
Inductive Response :=
| HTTPException (status_code : nat)
| EventSourceResponse (body : Generated).

Definition status (r : Response) : nat :=
  match r with
  | HTTPException code => code
  | EventSourceResponse _ => 200
  end.

(** [StartStreamRequest( **body )]: a [str] field [router_stream_key] and a
    [dict] field [input]. *)
Definition StartStreamRequest (body : pydict) : option (pystr * pydict) :=
  match dict_get body (lit "router_stream_key"), dict_get body (lit "input") with
  | Some (JString key), Some (JObject input) => Some (key, input)
  | _, _ => None
  end.

(** [post_handler].  [body] is the result of [request.json()], [None] when
    the body is not JSON.  The [HTTPException] raised for an unknown stream
    is raised inside the outer [try], where [except Exception] turns it into
    a 500. *)
Definition post_handler (router : RiverRouter) (env : CallEnv)
           (body : option json) : Response :=
  match body with
  | None => HTTPException 500
  | Some (JObject b) =>
    match StartStreamRequest b with
    | None => HTTPException 400                  (* except ValidationError *)
    | Some (router_stream_key, input) =>
      match get_stream router router_stream_key with
      | None => HTTPException 500
      | Some stream =>
        match call_start stream env input with
        | Ok items_iter => EventSourceResponse items_iter
        | Raise (RiverError _) => HTTPException 400  (* except RiverError *)
        | Raise _ => HTTPException 500               (* except Exception *)
        end
      end
    end
  | Some _ => HTTPException 500
  end.

(** ** Example streams *)

Definition is_int_text (text : pystr) : bool :=
  match text with
  | [] => false
  | 45 :: ds => negb (Nat.eqb (List.length ds) 0) && forallb is_digit ds
  | ds => forallb is_digit ds
  end%N.

(** An input model with one integer field [value]. *)
Definition int_value_model (input_data : pydict) : option pydict :=
  match dict_get input_data (lit "value") with
  | Some (JNumber text) => if is_int_text text then Some input_data else None
  | _ => None
  end.

End Facade.

(* ================================================================== *)
(** * Auxiliary definitions for the proofs *)
(* ================================================================== *)

Module Aux.
Import Py Token.
Local Open Scope N_scope.

Definition is_byte (b : N) : bool := b <? 256.

(** A flat object of strings, as a list of key/value pairs. *)
Definition flat (pairs : list (pystr * pystr)) : list (pystr * json) :=
  map (fun kv => (fst kv, JString (snd kv))) pairs.

(** The text of the members after the first one, up to the closing brace. *)
Fixpoint members_tail (pairs : list (pystr * pystr)) : pystr :=
  match pairs with
  | [] => [125]
  | (k, v) :: ps =>
    44 :: 32 :: 34 :: escape_body k
       ++ 34 :: 58 :: 32 :: 34 :: escape_body v ++ 34 :: members_tail ps
  end.

Definition valid_pair (kv : pystr * pystr) : bool :=
  valid_str (fst kv) && valid_str (snd kv).

Definition token_pairs_tail (t : ResumptionToken) : list (pystr * pystr) :=
  [ (lit "router_stream_key", router_stream_key t);
    (lit "stream_storage_id", stream_storage_id t);
    (lit "stream_run_id", stream_run_id t) ].

End Aux.

Module EngineAux.
Import Py Token Engine.
Local Open Scope nat_scope.

(** The items of the data entries of a stream. *)
Fixpoint data_items (stream : list Entry) : list CallerStreamItem :=
  match stream with
  | [] => []
  | EData item :: rest => item :: data_items rest
  | EEnd :: rest => data_items rest
  end.

Definition is_terminal_entry (e : Entry) : bool :=
  match e with
  | EEnd => true
  | EData item => is_terminal item
  end.

(** The position of the first entry that ends a replay: the end marker or a
    [stream_end] / [stream_fatal_error] item. *)
Fixpoint first_terminal (stream : list Entry) : option nat :=
  match stream with
  | [] => None
  | e :: rest =>
    if is_terminal_entry e then Some 0
    else option_map S (first_terminal rest)
  end.

(** What a reader of the whole stream yields: every item up to and
    including the first terminal item, or up to the end marker. *)
Fixpoint replay (stream : list Entry) : list CallerStreamItem :=
  match stream with
  | [] => []
  | EEnd :: _ => []
  | EData item :: rest =>
    if is_terminal item then [item] else item :: replay rest
  end.

Definition holds_stream_start (e : Entry) : bool :=
  match e with
  | EData item => is_stream_start item
  | EEnd => false
  end.

(** The items put on a queue before its first [None]. *)
Fixpoint until_none (xs : list (option CallerStreamItem))
  : list CallerStreamItem :=
  match xs with
  | Some item :: rest => item :: until_none rest
  | _ => []
  end.

(** The items among what was put on a queue. *)
Fixpoint some_items (xs : list (option CallerStreamItem))
  : list CallerStreamItem :=
  match xs with
  | [] => []
  | Some item :: rest => item :: some_items rest
  | None :: rest => some_items rest
  end.

(** The writes that reached Redis. *)
Definition written (offered : list (CallerStreamItem * bool))
  : list CallerStreamItem :=
  map fst (filter snd offered).

(** The instructions the task still runs when every Redis call succeeds and
    [chunk_count] is [c] at the moment the runner returns. *)
Fixpoint expand (p : Provider) (c : nat) (t : N) (instrs : list Instr)
  : list Instr :=
  match instrs with
  | [] => []
  | IReturn :: _ => after_return p c t
  | i :: k => i :: expand p c t k
  end.

Definition write_of (i : Instr) : list Entry :=
  match i with
  | IWrite item => [EData item]
  | IEndMarker _ => [EEnd]
  | _ => []
  end.

Definition put_of (i : Instr) : list (option CallerStreamItem) :=
  match i with
  | IPut x => [x]
  | _ => []
  end.

(** The stream and the queue history at the end of the task, seen from a
    state in which [c] will be the count read at return. *)
Definition final_stream (c : nat) (st : State) : list Entry :=
  redis_stream st
  ++ flat_map write_of
       (expand (provider st) c (total_time_ms_read st) (task st)).

Definition final_published (c : nat) (st : State)
  : list (option CallerStreamItem) :=
  published st
  ++ flat_map put_of
       (expand (provider st) c (total_time_ms_read st) (task st)).

(** The count the task reads if its next instruction is the return. *)
Definition count_at_return (st : State) (c : nat) : nat :=
  match task st with
  | IReturn :: _ => chunk_count st
  | _ => c
  end.

(** In the rest of a task every write is followed by the put of the same
    item, and items are put only after their write. *)
Inductive paired : list Instr -> Prop :=
| paired_nil : paired []
| paired_write item k :
    paired k -> paired (IWrite item :: IPut (Some item) :: k)
| paired_end b k : paired k -> paired (IEndMarker b :: k)
| paired_put_none k : paired k -> paired (IPut None :: k)
| paired_sleep k : paired k -> paired (ISleep :: k)
| paired_return k : paired (IReturn :: k).

(** What the consumer has seen is a prefix of what was put on the queue. *)
Definition queue_inv (first : CallerStreamItem) (st : State) : Prop :=
  exists seen,
    live st = first :: seen
    /\ published st
       = map Some seen ++ (if draining st then [] else [None]) ++ queue st.

(** On the Redis provider an item is written before it is put; the stream
    holds the items whose write succeeded. *)
Definition write_inv (st : State) : Prop :=
  provider st = RedisRiverProvider
  /\ data_items (redis_stream st) = written (offered st)
  /\ ((paired (task st)
       /\ map fst (offered st) = some_items (published st))
      \/ (exists item k,
             task st = IPut (Some item) :: k /\ paired k
             /\ map fst (offered st) = some_items (published st) ++ [item])).

(** The stream and the queue history a runner produces on the Redis
    provider. *)
Definition stream_of (c : nat) (t : N) (ops : list RunnerOp) : list Entry :=
  flat_map write_of
    (expand RedisRiverProvider c t (run_stream RedisRiverProvider ops)).

Definition puts_of (c : nat) (t : N) (ops : list RunnerOp)
  : list (option CallerStreamItem) :=
  flat_map put_of
    (expand RedisRiverProvider c t (run_stream RedisRiverProvider ops)).

Definition not_return (i : Instr) : bool :=
  match i with
  | IReturn => false
  | _ => true
  end.

(** No [aborted] item comes from the provider: none is put by the task,
    none is in the queue, none was yielded. *)
Definition not_aborted (item : CallerStreamItem) : bool :=
  negb (is_aborted item).

Definition put_ok (x : option CallerStreamItem) : bool :=
  match x with
  | Some item => not_aborted item
  | None => true
  end.

Definition instr_ok (i : Instr) : bool :=
  match i with
  | IPut x => put_ok x
  | _ => true
  end.

Definition abort_free (st : State) : Prop :=
  forallb not_aborted (live st) = true
  /\ forallb put_ok (queue st) = true
  /\ forallb instr_ok (task st) = true.

End EngineAux.

(* ================================================================== *)
(** * Scenarios of the specification *)
(* ================================================================== *)

Module Scenarios.
Import Py Token Engine Facade.
Local Open Scope nat_scope.

(** The token of a run of the stream stored under [ab?]. *)
Definition example_token : ResumptionToken :=
  {| Token.provider_id := lit "redis";
     Token.router_stream_key := [];
     Token.stream_storage_id := lit "ab?";
     Token.stream_run_id := lit "123e4567-e89b-42d3-a456-426614174000" |}.

Definition example_env : RunEnv :=
  {| uuid4 := lit "123e4567-e89b-42d3-a456-426614174000"; elapsed_ms := 12%N |}.

Definition example_storage_id : pystr := lit "orders".

Definition example_key_prefix : pystr := lit "river:stream:".

(** [str(v)] for the field of a token that is no string; the tokens of the
    scenarios hold strings only, and nothing is formatted with it. *)
Definition example_format : json -> pystr := fun _ => lit "None".

Definition ok : Choice := RunTask IoOk.

(** S1: the runner emits [chunk(10)] and closes. *)
Definition S1_runner : list RunnerOp :=
  [AppendChunk (JNumber (lit "10")); Close].

(** The schedule of S1 on the default provider: the runner never suspends,
    so the task runs to its end before the consumer reads the queue. *)
Definition S1_default_schedule : list Choice :=
  [ok; ok; ok; ok; Drain; Drain; Drain].

(** A schedule of S1 on the Redis provider: the consumer reads the chunk
    while the task waits for the write of [stream_end]. *)
Definition S1_redis_schedule : list Choice :=
  [ok; ok; ok; Drain; ok; ok; ok; ok; Drain; Drain].

(** S3, shortened: two chunks, each followed by a sleep, then close. *)
Definition S3_runner : list RunnerOp :=
  [AppendChunk (JString (lit "chunk-0")); Sleep;
   AppendChunk (JString (lit "chunk-1")); Sleep; Close].

Definition S3_schedule : list Choice :=
  [ok; ok; Drain; ok; ok; ok; Drain; ok; ok; ok; ok; ok; ok; Drain; Drain].

Definition S3_final : State :=
  exec S3_schedule
       (start_stream RedisRiverProvider example_env example_storage_id
                     S3_runner).



(** S5: a chunk, a fatal error, and a chunk after it. *)
Definition fatal_error : ErrorDict :=
  {| message := lit "Fatal error"; error_type := RUNNER_ERROR; details := [] |}.

Definition before_fatal : CallerStreamItem := Chunk (JString (lit "before-fatal")).
Definition after_fatal : CallerStreamItem := Chunk (JString (lit "after-fatal")).
Definition the_fatal : CallerStreamItem := Special (StreamFatalError fatal_error).

Definition S5_runner : list RunnerOp :=
  [AppendChunk (JString (lit "before-fatal"));
   SendFatalErrorAndClose fatal_error;
   AppendChunk (JString (lit "after-fatal"))].

Definition S5_schedule : list Choice :=
  [ok; ok; Drain; ok; ok; ok; ok; Drain; Drain; ok; ok; ok; ok; ok; ok; ok].

Definition S5_final : State :=
  exec S5_schedule
       (start_stream RedisRiverProvider example_env example_storage_id
                     S5_runner).

(** A completed stream of 10000 chunks. *)
Definition long_stream : list Entry :=
  repeat (EData (Chunk JNull)) (10 * max_attempts)
  ++ [EData (Special (StreamEnd (10 * max_attempts) 12%N)); EEnd].

(** S2: a stream with an integer input, and a request whose input is not
    one. *)
Definition int_stream : RiverStream :=
  {| input_model := int_value_model;
     stream_provider := DefaultRiverProvider;
     runner := fun _ => [Close];
     stream_storage_id := example_storage_id |}.

Definition S2_router : RiverRouter := [(lit "test", int_stream)].

Definition S2_body : json :=
  JObject [ (lit "router_stream_key", JString (lit "test"));
            (lit "input", JObject [(lit "value", JString (lit "not_an_int"))]) ].

Definition S2_env : CallEnv :=
  {| run_env := example_env; schedule := [ok; ok; ok; Drain; Drain];
     aborted_at := fun _ => false |}.

(** A stream without input that runs the runner of S1, and a call during
    which the abort signal is set when the chunk arrives. *)
Definition echo_stream : RiverStream :=
  {| input_model := fun input_data => Some input_data;
     stream_provider := DefaultRiverProvider;
     runner := fun _ => S1_runner;
     stream_storage_id := example_storage_id |}.

Definition S1_abort_env : CallEnv :=
  {| run_env := example_env; schedule := S1_default_schedule;
     aborted_at := fun n => Nat.leb 1 n |}.

End Scenarios.

(* ================================================================== *)
(** * The protocol of a run, as a subscriber sees it *)
(* ================================================================== *)

Module Protocol.
Import Py Token Engine EngineAux.
Local Open Scope nat_scope.

Definition is_stream_error (item : CallerStreamItem) : bool :=
  match item with Special (StreamError _) => true | _ => false end.

Definition is_stream_end (item : CallerStreamItem) : bool :=
  match item with Special (StreamEnd _ _) => true | _ => false end.

(** The number of [chunk] items of a sequence. *)
Definition chunks (items : list CallerStreamItem) : nat :=
  List.length (filter is_chunk items).

(** The items a runner sends through its helper, in program order, closed
    by the item [run_stream] adds: what follows [stream_start] when nothing
    interleaves.  [c] is the value of [total_chunks].  [close()] sends
    nothing and ends nothing; the calls after
    [send_fatal_error_and_close] come after the completion signal. *)
Fixpoint expected (c : nat) (t : N) (ops : list RunnerOp)
  : list CallerStreamItem :=
  match ops with
  | [] => [Special (StreamEnd c t)]
  | AppendChunk chunk :: rest => Chunk chunk :: expected c t rest
  | AppendError error :: rest => Special (StreamError error) :: expected c t rest
  | SendFatalErrorAndClose error :: _ => [Special (StreamFatalError error)]
  | Close :: rest => expected c t rest
  | Sleep :: rest => expected c t rest
  | RaiseException msg :: _ => [Special (StreamFatalError (runner_error msg))]
  end.

(** The chunks a runner appends before it returns, raises or sends a fatal
    error. *)
Fixpoint appended (ops : list RunnerOp) : nat :=
  match ops with
  | [] => 0
  | AppendChunk _ :: rest => S (appended rest)
  | AppendError _ :: rest => appended rest
  | SendFatalErrorAndClose _ :: _ => 0
  | Close :: rest => appended rest
  | Sleep :: rest => appended rest
  | RaiseException _ :: _ => 0
  end.

(** A sequence of items that are chunks or recoverable errors, closed by
    exactly one [stream_end] or [stream_fatal_error]. *)
Fixpoint well_ended (items : list CallerStreamItem) : bool :=
  match items with
  | [] => false
  | [last] => is_terminal last
  | item :: rest => (is_chunk item || is_stream_error item) && well_ended rest
  end.

(** The puts of a task when [c] is the count read at return. *)
Definition future_puts (p : Provider) (c : nat) (t : N) (instrs : list Instr)
  : list (option CallerStreamItem) :=
  flat_map put_of (expand p c t instrs).

(** The calls [redis.xadd(stream_key, {"end": "true"})] of a schedule
    succeed; the calls of [_write_to_redis] may fail. *)
Definition marker_step_ok (c : Choice) (st : State) : bool :=
  match c, task st with
  | RunTask io, IEndMarker _ :: _ => io_ok io
  | _, _ => true
  end.

Fixpoint end_markers_ok (sched : list Choice) (st : State) : bool :=
  match sched with
  | [] => true
  | c :: rest => marker_step_ok c st && end_markers_ok rest (step c st)
  end.

(** [total_chunks] of a [stream_end] item is at most [n]. *)
Definition end_count_le (n : nat) (item : CallerStreamItem) : bool :=
  match item with
  | Special (StreamEnd c _) => c <=? n
  | _ => true
  end.

Definition put_count_le (n : nat) (x : option CallerStreamItem) : bool :=
  match x with
  | Some item => end_count_le n item
  | None => true
  end.

Definition instr_count_le (n : nat) (i : Instr) : bool :=
  match i with
  | IPut x => put_count_le n x
  | IWrite item => end_count_le n item
  | _ => true
  end.





(** What the consumer has seen, what waits in the queue and what the task
    will still put make up the puts of the whole run. *)
Definition live_inv (p : Provider) (t : N) (first : CallerStreamItem)
           (ops : list RunnerOp) (st : State) : Prop :=
  provider st = p /\ total_time_ms_read st = t
  /\ exists seen,
      live st = first :: seen
      /\ forall c, exists c',
          if draining st then
            future_puts p c' t (run_stream p ops)
            = map Some seen ++ queue st ++ future_puts p c t (task st)
          else
            exists q,
              future_puts p c' t (run_stream p ops) = map Some seen ++ None :: q.

(** [chunk_count] is the number of chunks yielded, and no [stream_end]
    that exists anywhere carries more. *)
Definition count_inv (st : State) : Prop :=
  chunk_count st = chunks (live st)
  /\ forallb (end_count_le (chunk_count st)) (live st) = true
  /\ forallb (put_count_le (chunk_count st)) (queue st) = true
  /\ forallb (instr_count_le (chunk_count st)) (task st) = true.

End Protocol.

(* ================================================================== *)
(** * Further runs *)
(* ================================================================== *)

Module Runs.
Import Py Token Engine Facade Scenarios.
Local Open Scope nat_scope.






(** S3 up to the return of the runner: the consumer has taken both chunks. *)
Definition S3_until_return : list Choice :=
  [ok; ok; Drain; ok; ok; ok; Drain; ok].

Definition S3_after_return : list Choice :=
  [ok; ok; ok; ok; Drain; Drain].

(** The moments at which a resumer reads during S3: before the first
    write, after the first chunk, after everything. *)
Definition S3_read_at (n : nat) : nat :=
  match n with
  | 0 => 1
  | 1 => 3
  | _ => 15
  end.

End Runs.

(* ================================================================== *)
(** * Resuming through the adapter
      ([river_core/callers.py], [river_core/provider.py],
       [river_adapter_fastapi/server.py]) *)
(* ================================================================== *)

Module Adapter.
Import Py Token Engine Facade.
Local Open Scope nat_scope.

(** The exceptions a resumed generator can end with: those of the engine,
    the [TypeError] of an [async for] over an object that is no
    asynchronous iterator or of a subscript on a value that has none, and
    the [AttributeError] of a method call on a value without the method. *)
Inductive PyException :=
| Exn (e : exn)
| TypeError
| AttributeError.

Inductive BodyEnding :=
| BodyReturned
| BodyRaised (e : PyException).

(** What iterating the generator [StreamCaller.resume(resume_key)]
    produces. *)
Record ResumeBody := {
  body_items : list CallerStreamItem;
  body_ending : BodyEnding
}.

Definition of_resumed (r : Resumed) : ResumeBody :=
  {| body_items := yielded r;
     body_ending := match ending r with
                    | Returned => BodyReturned
                    | Raised e => BodyRaised (Exn e)
                    end |}.

(** The body of [StreamCaller.resume].  After the token is decoded the
    generator runs [async for item in provider.resume_stream(token)].
    [DefaultRiverProvider.resume_stream] is an [async def] without [yield]:
    calling it builds a coroutine, its body (the [raise RiverError]) does
    not run, and [async for] refuses the coroutine with [TypeError].
    [RedisRiverProvider.resume_stream] is an asynchronous generator. *)
Definition resume_on (format_value : json -> pystr) (stream : RiverStream)
           (redis_at : nat -> pystr -> list Entry)
           (key_prefix resume_key : pystr) : ResumeBody :=
  match resume_decode resume_key with
  | Raise e => {| body_items := []; body_ending := BodyRaised (Exn e) |}
  | Ok _ =>
    match stream_provider stream with
    | DefaultRiverProvider =>
      {| body_items := []; body_ending := BodyRaised TypeError |}
    | RedisRiverProvider =>
      of_resumed (StreamCaller_resume format_value redis_at key_prefix
                                      resume_key)
    end
  end.

(** The answer of [get_handler]: an [HTTPException], or an
    [EventSourceResponse] (status 200) over the resumed generator, which is
    iterated after the handler has returned. *)
Inductive GetResponse :=
| GetHTTPException (status_code : nat)
| GetEventSource (body : ResumeBody).

Definition get_status (r : GetResponse) : nat :=
  match r with
  | GetHTTPException code => code
  | GetEventSource _ => 200
  end.

(** [get_handler].  [resumeKey] is [request.query_params.get("resumeKey")].
    A missing or empty key is answered 400, as is a key that
    [decode_resumption_token] refuses ([ValueError]).  The [KeyError] of
    [token["router_stream_key"]] and the [TypeError] of a list or dict used
    as a key of [self._callers] reach [except Exception] (500); any other
    value that is not a registered name makes [get_stream] raise its
    [RiverError], which becomes the 404 that [except HTTPException: raise]
    lets through.  [format_value] is [str] on the values that are no
    strings, for the f-string of [_make_stream_key]. *)
Definition get_handler (format_value : json -> pystr) (router : RiverRouter)
           (redis_at : nat -> pystr -> list Entry) (key_prefix : pystr)
           (resumeKey : option pystr) : GetResponse :=
  match resumeKey with
  | None => GetHTTPException 400
  | Some [] => GetHTTPException 400
  | Some resume_key =>
    match decode_resumption_token resume_key with
    | Raise _ => GetHTTPException 400
    | Ok token =>
      match dict_get token (lit "router_stream_key") with
      | None => GetHTTPException 500
      | Some (JArray _) => GetHTTPException 500
      | Some (JObject _) => GetHTTPException 500
      | Some (JString router_stream_key) =>
        match get_stream router router_stream_key with
        | None => GetHTTPException 404
        | Some stream =>
          GetEventSource
            (resume_on format_value stream redis_at key_prefix resume_key)
        end
      | Some _ => GetHTTPException 404
      end
    end
  end.

(** The token of a run after a client has filled in the name of the
    stream. *)
Definition named_token (router_stream_key stream_storage_id stream_run_id
                        : pystr) : ResumptionToken :=
  {| Token.provider_id := provider_id RedisRiverProvider;
     Token.router_stream_key := router_stream_key;
     Token.stream_storage_id := stream_storage_id;
     Token.stream_run_id := stream_run_id |}.

(** A character of the base-64 alphabet, or the padding. *)
Definition b64_significant (c : N) : bool :=
  match b64val c with
  | Some _ => true
  | None => N.eqb c BASE64_PAD
  end.

End Adapter.

Module AdapterRuns.
Import Py Token Engine Facade Scenarios Adapter.
Local Open Scope nat_scope.

(** A router with the stream [orders] on the Redis provider and the stream
    [echo] on the default provider. *)
Definition orders_stream : RiverStream :=
  {| input_model := fun input_data => Some input_data;
     stream_provider := RedisRiverProvider;
     runner := fun _ => S3_runner;
     stream_storage_id := example_storage_id |}.

Definition example_router : RiverRouter :=
  [(lit "orders", orders_stream); (lit "echo", echo_stream)].

(** The Redis server after the run S3. *)
Definition S3_redis : nat -> pystr -> list Entry :=
  fun _ => redis_with (_make_stream_key example_key_prefix example_storage_id
                                        (uuid4 example_env))
                      (redis_stream S3_final).

Definition no_redis : nat -> pystr -> list Entry := fun _ _ => [].

End AdapterRuns.

(* ================================================================== *)
(** * Errors and the abort signal
      ([river_core/errors.py], [river_core/types.py]) *)
(* ================================================================== *)

Module Errors.
Import Py Engine.
Local Open Scope nat_scope.

(** [RiverErrorType.<member>.value] *)
Definition value (ty : RiverErrorType) : pystr :=
  match ty with
  | UNKNOWN => lit "UNKNOWN"
  | VALIDATION => lit "VALIDATION"
  | PROVIDER => lit "PROVIDER"
  | STREAM_NOT_FOUND => lit "STREAM_NOT_FOUND"
  | INVALID_RESUMPTION_TOKEN => lit "INVALID_RESUMPTION_TOKEN"
  | RUNNER_ERROR => lit "RUNNER_ERROR"
  | NETWORK => lit "NETWORK"
  end.

Definition members : list RiverErrorType :=
  [UNKNOWN; VALIDATION; PROVIDER; STREAM_NOT_FOUND;
   INVALID_RESUMPTION_TOKEN; RUNNER_ERROR; NETWORK].

(** [RiverErrorType(v)]: the member whose value is [v]; [None] is the
    [ValueError] of the enumeration. *)
Definition RiverErrorType_call (v : json) : option RiverErrorType :=
  match v with
  | JString s => find (fun ty => str_eqb s (value ty)) members
  | _ => None
  end.

(** [RiverError.to_dict()] as the Python dict it is. *)
Definition to_dict (e : ErrorDict) : pydict :=
  [ (lit "message", JString (message e));
    (lit "error_type", JString (value (error_type e)));
    (lit "details", JObject (details e)) ].

(** A [RiverError] built from decoded JSON: nothing checks that the message
    is a string or the details a dict. *)
Record RiverError_object := {
  obj_message : json;
  obj_error_type : RiverErrorType;
  obj_details : json
}.

Definition is_empty (A : Type) (l : list A) : bool :=
  match l with [] => true | _ => false end.
Arguments is_empty {A} l.

Section FromDict.

(** Whether the number that a literal denotes is zero: the arithmetic of
    Python's [int] and [float]. *)
Variable number_is_zero : pystr -> bool.

(** [bool(v)] *)
Definition truthy (v : json) : bool :=
  match v with
  | JNull => false
  | JBool b => b
  | JNumber text => negb (number_is_zero text)
  | JString s => negb (is_empty s)
  | JArray xs => negb (is_empty xs)
  | JObject kvs => negb (is_empty kvs)
  end.

(** [RiverError.__init__]: [self.details = details or {}] *)
Definition RiverError_init (message : json) (error_type : RiverErrorType)
           (details : json) : RiverError_object :=
  {| obj_message := message; obj_error_type := error_type;
     obj_details := if truthy details then details else JObject [] |}.

(** [RiverError.from_dict(data)]; the arguments of the call are evaluated
    from left to right. *)
Definition from_dict (data : pydict) : result RiverError_object :=
  match dict_get data (lit "message") with
  | None => Raise KeyError
  | Some message =>
    match dict_get data (lit "error_type") with
    | None => Raise KeyError
    | Some v =>
      match RiverErrorType_call v with
      | None => Raise ValueError
      | Some error_type =>
        Ok (RiverError_init message error_type
              (match dict_get data (lit "details") with
               | Some details => details
               | None => JObject []
               end))
      end
    end
  end.

End FromDict.

End Errors.

Module Signal.
Local Open Scope nat_scope.

(** [AbortSignal].  A callback is known by a number; calling it is recorded
    and does nothing else (it neither raises nor touches the signal). *)
Record AbortSignal := {
  _aborted : bool;
  _callbacks : list nat
}.

(** [AbortSignal()] *)
Definition new : AbortSignal := {| _aborted := false; _callbacks := [] |}.

(** The property [aborted]. *)
Definition aborted (s : AbortSignal) : bool := _aborted s.

(** [abort()]: the signal afterwards, and the callbacks called, in order. *)
Definition abort (s : AbortSignal) : AbortSignal * list nat :=
  ({| _aborted := true; _callbacks := _callbacks s |}, _callbacks s).

(** [on_abort(callback)] *)
Definition on_abort (s : AbortSignal) (callback : nat) : AbortSignal :=
  {| _aborted := _aborted s; _callbacks := _callbacks s ++ [callback] |}.

Inductive SignalOp :=
| Abort
| OnAbort (callback : nat).

Definition is_abort (op : SignalOp) : bool :=
  match op with Abort => true | OnAbort _ => false end.

(** A sequence of calls on a signal: the signal at the end and every call
    of a callback, in order. *)
Fixpoint run (ops : list SignalOp) (s : AbortSignal) (called : list nat)
  : AbortSignal * list nat :=
  match ops with
  | [] => (s, called)
  | Abort :: rest =>
    let (s', now) := abort s in run rest s' (called ++ now)
  | OnAbort callback :: rest => run rest (on_abort s callback) called
  end.

(** The callbacks registered by a sequence of calls. *)
Fixpoint registered (ops : list SignalOp) : list nat :=
  match ops with
  | [] => []
  | Abort :: rest => registered rest
  | OnAbort callback :: rest => callback :: registered rest
  end.

End Signal.

(* ================================================================== *)
(** * Items on the wire
      ([river_provider_redis/provider.py], [river_adapter_fastapi/server.py],
       [river_adapter_fastapi/client.py]) *)
(* ================================================================== *)

(** ** Values that [json.dumps] writes and [json.loads] reads back *)

Module JsonShape.
Import Py Token.
Local Open Scope N_scope.

(** The literal of a number as [json.dumps] writes one: the [repr] of an
    [int] or a finite [float], or one of [NaN], [Infinity], [-Infinity].
    [NUMBER_RE] matches the literal whole. *)
Definition number_literal (text : pystr) : bool :=
  match match_number text with
  | Some (t, []) => str_eqb t text
  | Some (_, _ :: _) => false
  | None =>
    str_eqb text (lit "NaN") || str_eqb text (lit "Infinity")
    || str_eqb text (lit "-Infinity")
  end.

Definition has_key (k : pystr) (kvs : list (pystr * json)) : bool :=
  existsb (fun kv => str_eqb k (fst kv)) kvs.

(** The keys of a dict are pairwise different. *)
Fixpoint distinct_keys (kvs : list (pystr * json)) : bool :=
  match kvs with
  | [] => true
  | (k, _) :: rest => negb (has_key k rest) && distinct_keys rest
  end.

(** A Python value made of [None], booleans, numbers, strings of Unicode
    scalar values, lists and dicts with string keys. *)
Fixpoint wf_json (v : json) : bool :=
  match v with
  | JNull => true
  | JBool _ => true
  | JNumber text => number_literal text
  | JString s => valid_str s
  | JArray xs => forallb wf_json xs
  | JObject kvs =>
    forallb (fun kv => valid_str (fst kv) && wf_json (snd kv)) kvs
    && distinct_keys kvs
  end.

(** The number of values in a value. *)
Fixpoint json_size (v : json) : nat :=
  match v with
  | JArray xs =>
    S ((fix sizes (l : list json) : nat :=
          match l with
          | [] => O
          | x :: r => S (json_size x + sizes r)
          end) xs)
  | JObject kvs =>
    S ((fix sizes (l : list (pystr * json)) : nat :=
          match l with
          | [] => O
          | kv :: r => S (json_size (snd kv) + sizes r)
          end) kvs)
  | _ => 1%nat
  end.

Fixpoint sizes (l : list json) : nat :=
  match l with
  | [] => O
  | x :: r => S (json_size x + sizes r)
  end.

Fixpoint pair_sizes (l : list (pystr * json)) : nat :=
  match l with
  | [] => O
  | kv :: r => S (json_size (snd kv) + pair_sizes r)
  end.

(** What may follow a value in a text: nothing, a comma, or a closing
    bracket. *)
Definition delimited (rest : pystr) : bool :=
  match rest with
  | [] => true
  | c :: _ => (c =? 44) || (c =? 125) || (c =? 93)
  end.

(** What may follow a number for [NUMBER_RE] to stop where the literal
    ends. *)
Definition number_end (rest : pystr) : bool :=
  match rest with
  | [] => true
  | c :: _ =>
    negb (is_digit c || (c =? 46) || (c =? 101) || (c =? 69)
          || (c =? 43) || (c =? 45))
  end.

(** The sign of an exponent, as [match_exp] reads it. *)
Definition exp_sign (r : pystr) : pystr * pystr :=
  match r with
  | 43 :: r' => ([43], r')
  | 45 :: r' => ([45], r')
  | _ => ([], r)
  end.

(** The text of the elements of a list and of the members of a dict,
    without the brackets (and without the opening quote of the first
    key). *)
Fixpoint elements (x : json) (xs : list json) : pystr :=
  json_dumps x
  ++ match xs with
     | [] => []
     | y :: r => 44 :: 32 :: elements y r
     end.

Fixpoint members (k : pystr) (v : json) (kvs : list (pystr * json)) : pystr :=
  escape_body k ++ 34 :: 58 :: 32 :: json_dumps v
  ++ match kvs with
     | [] => []
     | (k', v') :: r => 44 :: 32 :: 34 :: members k' v' r
     end.

(** A character that [json.dumps] writes: printable ASCII. *)
Definition printable (c : N) : bool := (32 <=? c) && (c <=? 126).

(** The first character of the text of a value. *)
Definition value_start (c : N) : bool :=
  negb (is_ws c) && negb (c =? 93) && (c <? 128).

End JsonShape.

(** ** Items as the Python dicts they are, and their Redis entries *)

Module Wire.
Import Py Token Engine Errors Adapter JsonShape.
Local Open Scope nat_scope.

(** [repr] of an [int] that is not negative: its decimal digits. *)
Fixpoint decimal (fuel : nat) (n : N) : pystr :=
  match fuel with
  | O => []
  | S fuel' =>
    if (n <? 10)%N then [(48 + n)%N]
    else decimal fuel' (n / 10) ++ [(48 + n mod 10)%N]
  end.

Definition int_repr (n : nat) : pystr := decimal (S n) (N.of_nat n).

Section Items.

(** The text [json.dumps] writes for the float [total_time_ms]: the [repr]
    of the float, which the model of the engine keeps as a number of
    milliseconds. *)
Variable float_repr : N -> pystr.

Definition special_json (special : RiverSpecialChunk) : json :=
  match special with
  | StreamStart stream_run_id token =>
    JObject
      ((lit "type", JString (lit "stream_start"))
       :: (lit "stream_run_id", JString stream_run_id)
       :: match token with
          | Some encoded => [(lit "encoded_resumption_token", JString encoded)]
          | None => []
          end)
  | StreamEnd total_chunks total_time_ms =>
    JObject [ (lit "type", JString (lit "stream_end"));
              (lit "total_chunks", JNumber (int_repr total_chunks));
              (lit "total_time_ms", JNumber (float_repr total_time_ms)) ]
  | StreamError error =>
    JObject [ (lit "type", JString (lit "stream_error"));
              (lit "error", JObject (to_dict error)) ]
  | StreamFatalError error =>
    JObject [ (lit "type", JString (lit "stream_fatal_error"));
              (lit "error", JObject (to_dict error)) ]
  end.

(** A [CallerStreamItem] as the dict the helpers build. *)
Definition item_json (item : CallerStreamItem) : json :=
  match item with
  | Chunk chunk =>
    JObject [(lit "type", JString (lit "chunk")); (lit "chunk", chunk)]
  | Special special =>
    JObject [ (lit "type", JString (lit "special"));
              (lit "special", special_json special) ]
  | Aborted => JObject [(lit "type", JString (lit "aborted"))]
  end.

(** An item whose strings hold Unicode scalar values, whose chunk and error
    details are JSON values, and whose time is written as a number. *)
Definition wf_error (error : ErrorDict) : bool :=
  valid_str (message error) && wf_json (JObject (details error)).

Definition wf_item (item : CallerStreamItem) : bool :=
  match item with
  | Chunk chunk => wf_json chunk
  | Special (StreamStart stream_run_id token) =>
    valid_str stream_run_id
    && match token with Some encoded => valid_str encoded | None => true end
  | Special (StreamEnd _ total_time_ms) =>
    number_literal (float_repr total_time_ms)
  | Special (StreamError error) => wf_error error
  | Special (StreamFatalError error) => wf_error error
  | Aborted => true
  end.

(** The fields of an entry of a Redis stream, names and values as the
    bytes that [xread] returns. *)
Definition Fields := list (pybytes * pybytes).

Fixpoint field (fields : Fields) (name : pybytes) : option pybytes :=
  match fields with
  | [] => None
  | (k, v) :: rest => if str_eqb name k then Some v else field rest name
  end.

(** [RedisStreamHelper._write_to_redis(item)]: the entry that
    [xadd(stream_key, {"data": json.dumps({"item": item})})] appends; the
    client library sends the string as UTF-8. *)
Definition _write_to_redis (item : CallerStreamItem) : option Fields :=
  match utf8_encode (json_dumps (JObject [(lit "item", item_json item)])) with
  | Some data => Some [(lit "data", data)]
  | None => None
  end.

(** [xadd(stream_key, {"end": "true"})] *)
Definition end_marker : Fields := [(lit "end", lit "true")].

End Items.

(** What the body of the loop [for msg_id, fields in messages] of
    [resume_stream] does with one entry. *)
Inductive Step :=
| SReturn
| SNext
| SYield (item : json) (returns : bool)
| SYieldRaise (item : json) (e : PyException)
| SRaise (e : PyException).

(** [v == s] for a value out of a decoded dict and a string. *)
Definition is_str (v : option json) (s : pystr) : bool :=
  match v with
  | Some (JString x) => str_eqb x s
  | _ => false
  end.

(** The test after [yield item]: [item.get("type") == "special"] and
    [special.get("type") in ["stream_fatal_error", "stream_end"]], where
    [special = item.get("special", {})]; [None] stands for the
    [AttributeError] of [get] on a value that is no dict. *)
Definition ends_replay (item : json) : option bool :=
  match item with
  | JObject d =>
    if is_str (dict_get d (lit "type")) (lit "special") then
      match dict_get d (lit "special") with
      | None => Some false
      | Some (JObject special) =>
        Some (is_str (dict_get special (lit "type")) (lit "stream_fatal_error")
              || is_str (dict_get special (lit "type")) (lit "stream_end"))
      | Some _ => None
      end
    else Some false
  | _ => None
  end.

Definition process_message (fields : Fields) : Step :=
  match field fields (lit "end") with
  | Some _ => SReturn
  | None =>
    match field fields (lit "data") with
    | None => SNext
    | Some [] => SNext
    | Some data_field =>
      match utf8_decode data_field with
      | None => SRaise (Exn ValueError)
      | Some data_str =>
        match json_loads data_str with
        | None => SRaise (Exn ValueError)
        | Some (JObject data) =>
          match dict_get data (lit "item") with
          | None => SRaise (Exn KeyError)
          | Some item =>
            match ends_replay item with
            | Some returns => SYield item returns
            | None => SYieldRaise item AttributeError
            end
          end
        | Some _ => SRaise TypeError
        end
      end
    end
  end.

(** [repr] of a float that holds a whole number of milliseconds. *)
Definition example_float_repr : N -> pystr :=
  fun t => int_repr (N.to_nat t) ++ lit ".0".

(** A call of the runner whose payload [json] writes and reads back
    unchanged: a JSON value, strings of Unicode scalar values. *)
Definition wf_op (op : RunnerOp) : bool :=
  match op with
  | AppendChunk chunk => wf_json chunk
  | AppendError error => wf_error error
  | SendFatalErrorAndClose error => wf_error error
  | RaiseException msg => valid_str msg
  | Close => true
  | Sleep => true
  end.

(** An entry of the Redis stream that the loop of [resume_stream] reads as
    the item [_write_to_redis] was given: the entry of an item holds its
    JSON text, which is decoded to the dict of the item, and after which
    the loop returns exactly when the item ends the run; on the end marker
    the loop returns. *)
Definition read_back (float_repr : N -> pystr) (e : Entry) : Prop :=
  match e with
  | EData item =>
    exists data,
      _write_to_redis float_repr item = Some [(lit "data", data)]
      /\ process_message [(lit "data", data)]
         = SYield (item_json float_repr item) (is_terminal item)
  | EEnd => process_message end_marker = SReturn
  end.

(** The items of a stream and the items still to be written are written
    as JSON. *)
Definition entry_ok (float_repr : N -> pystr) (e : Entry) : bool :=
  match e with
  | EData item => wf_item float_repr item
  | EEnd => true
  end.

Definition write_ok (float_repr : N -> pystr) (i : Instr) : bool :=
  match i with
  | IWrite item => wf_item float_repr item
  | _ => true
  end.

Definition stored_inv (float_repr : N -> pystr) (st : State) : Prop :=
  forallb (entry_ok float_repr) (redis_stream st) = true
  /\ forallb (write_ok float_repr) (task st) = true
  /\ number_literal (float_repr (total_time_ms_read st)) = true.

End Wire.

(** ** The client of the adapter *)

Module Client.
Import Py Token Engine JsonShape Wire.
Local Open Scope N_scope.

(** The calls the client makes on the callbacks it was given; the
    callbacks are all given, and none raises. *)
Inductive ErrorKind := Network | Unknown.

Inductive Callback :=
| OnChunk (chunk : json)
| OnSpecial (special : json)
| OnError (kind : ErrorKind)
| OnComplete.

(** [buffer.split("\n\n", 1)] when ["\n\n" in buffer]: the text before the
    first pair of line feeds and the text after it. *)
Fixpoint split_message (buffer : pystr) : option (pystr * pystr) :=
  match buffer with
  | [] => None
  | c :: r =>
    match r with
    | [] => None
    | d :: r' =>
      if (c =? 10) && (d =? 10) then Some ([], r')
      else
        match split_message r with
        | Some (message, rest) => Some (c :: message, rest)
        | None => None
        end
    end
  end.

(** What the body of the [while] loop does with one message. *)
Inductive Handled :=
| HCall (callback : Callback)
| HNothing
| HBreak
| HFail.

(** A message that starts with ["data: "] is decoded; a text that is no
    JSON is passed over ([except json.JSONDecodeError: pass]); the
    [TypeError] of [item["type"]] on a value that is no dict and the
    [KeyError] of a missing key leave the loops ([HFail]). *)
Definition handle_message (message : pystr) : Handled :=
  match strip_prefix (lit "data: ") message with
  | None => HNothing
  | Some data_str =>
    match json_loads data_str with
    | None => HNothing
    | Some (JObject item) =>
      match dict_get item (lit "type") with
      | None => HFail
      | Some type =>
        if is_str (Some type) (lit "chunk") then
          match dict_get item (lit "chunk") with
          | Some chunk => HCall (OnChunk chunk)
          | None => HFail
          end
        else if is_str (Some type) (lit "special") then
          match dict_get item (lit "special") with
          | Some special => HCall (OnSpecial special)
          | None => HFail
          end
        else if is_str (Some type) (lit "aborted") then HBreak
        else HNothing
      end
    | Some _ => HFail
    end
  end.

(** How the [while] loop over the buffer ends: the buffer holds no more
    message, the loop was left by [break], or an exception was raised. *)
Inductive Status := Exhausted | Broke | Failed.

(** The loop [while "\n\n" in buffer]: the callbacks called, the buffer at
    the end, and how the loop ended.  Every turn shortens the buffer, so
    the loop makes at most [length buffer] turns. *)
Fixpoint drain (fuel : nat) (buffer : pystr)
  : list Callback * pystr * Status :=
  match fuel with
  | O => ([], buffer, Exhausted)
  | S fuel' =>
    match split_message buffer with
    | None => ([], buffer, Exhausted)
    | Some (message, rest) =>
      match handle_message message with
      | HFail => ([], rest, Failed)
      | HBreak => ([], rest, Broke)
      | HNothing => drain fuel' rest
      | HCall callback =>
        let '(calls, b, status) := drain fuel' rest in
        (callback :: calls, b, status)
      end
    end
  end.

Definition drain_all (buffer : pystr) : list Callback * pystr * Status :=
  drain (List.length buffer) buffer.

Definition broke (r : list Callback * pystr * Status) : bool :=
  match r with
  | (_, _, Broke) => true
  | _ => false
  end.

(** The processing of a response that was received well: the loop
    [async for chunk in response.aiter_text()], then [on_complete], or
    [on_error] with type [unknown] when an exception left the loops.
    [aborted n] tells whether [abort()] was called before the [n]-th text
    arrived. *)
Fixpoint receive (chunks : list pystr) (n : nat) (aborted : nat -> bool)
         (buffer : pystr) : list Callback :=
  match chunks with
  | [] => [OnComplete]
  | chunk :: rest =>
    if aborted n then [OnComplete]
    else
      let '(calls, b, status) := drain_all (buffer ++ chunk) in
      match status with
      | Failed => calls ++ [OnError Unknown]
      | _ => calls ++ receive rest (S n) aborted b
      end
  end.

(** [StreamClient.start] and [StreamClient.resume] on a response that was
    received well. *)
Definition process_response (chunks : list pystr) (aborted : nat -> bool)
  : list Callback :=
  receive chunks O aborted [].

(** An event as the client reads one: ["data: "], the text, two line
    feeds. *)
Definition event (data : pystr) : pystr := lit "data: " ++ data ++ [10; 10].

(** The calls the client makes for an item that is not [aborted]. *)
Definition dispatched (float_repr : N -> pystr) (item : CallerStreamItem)
  : list Callback :=
  match item with
  | Chunk chunk => [OnChunk chunk]
  | Special special => [OnSpecial (special_json float_repr special)]
  | Aborted => []
  end.

(** An item the client hands to a callback: one that is written as JSON
    and is not [aborted]. *)
Definition payload (float_repr : N -> pystr) (item : CallerStreamItem)
  : bool :=
  wf_item float_repr item && negb (is_aborted item).

(** The events of a sequence of items, each framed as the client reads
    it: [_sse_generator] gives [json.dumps(item)] as the data. *)
Definition sse_text (float_repr : N -> pystr) (items : list CallerStreamItem)
  : pystr :=
  flat_map (fun item => event (json_dumps (item_json float_repr item))) items.

(** A text without two line feeds in a row. *)
Fixpoint no_blank_line (text : pystr) : bool :=
  match text with
  | [] => true
  | c :: r =>
    match r with
    | [] => true
    | d :: _ => negb ((c =? 10) && (d =? 10)) && no_blank_line r
    end
  end.

End Client.

(* ================================================================== *)
(** * Properties of the codec model *)
(* ================================================================== *)

Module PyFacts.
Import Py Token Aux.
Local Open Scope N_scope.

Ltac Zify.zify_post_hook ::= Z.to_euclidean_division_equations.

(** Boolean tests on [N] as propositions. *)
Ltac nbool :=
  repeat match goal with
  | H : (_ && _) = true |- _ => apply andb_true_iff in H; destruct H
  | H : (_ || _) = false |- _ => apply orb_false_iff in H; destruct H
  | H : negb _ = true |- _ => apply negb_true_iff in H
  | H : negb _ = false |- _ => apply negb_false_iff in H
  | H : (_ =? _) = true |- _ => apply N.eqb_eq in H
  | H : (_ =? _) = false |- _ => apply N.eqb_neq in H
  | H : (_ <? _) = true |- _ => apply N.ltb_lt in H
  | H : (_ <? _) = false |- _ => apply N.ltb_ge in H
  | H : (_ <=? _) = true |- _ => apply N.leb_le in H
  | H : (_ <=? _) = false |- _ => apply N.leb_gt in H
  end.

Lemma eqb_false (a b : N) : a <> b -> (a =? b) = false.
Proof. apply N.eqb_neq. Qed.

Lemma ltb_true (a b : N) : a < b -> (a <? b) = true.
Proof. apply N.ltb_lt. Qed.

Lemma ltb_false (a b : N) : b <= a -> (a <? b) = false.
Proof. apply N.ltb_ge. Qed.

Lemma leb_true (a b : N) : a <= b -> (a <=? b) = true.
Proof. apply N.leb_le. Qed.

Lemma leb_false (a b : N) : b < a -> (a <=? b) = false.
Proof. apply N.leb_gt. Qed.

(** Induction on lists three elements at a time, the way base-64 reads
    its input. *)
Lemma list_ind3 (A : Type) (P : list A -> Prop) :
  P [] -> (forall a, P [a]) -> (forall a b, P [a; b]) ->
  (forall a b c l, P l -> P (a :: b :: c :: l)) ->
  forall l, P l.
Proof.
  intros H0 H1 H2 H3 l.
  assert (K : P l /\ (forall a, P (a :: l)) /\ (forall a b, P (a :: b :: l))).
  { induction l as [|x l IH].
    - repeat split; auto.
    - destruct IH as (Ia & Ib & Ic). repeat split; auto. }
  apply K.
Qed.

(** ** ASCII texts pass through the UTF-8 codec unchanged *)

Lemma utf8_encode_ascii s :
  forallb is_ascii s = true -> utf8_encode s = Some s.
Proof.
  induction s as [|c s IH]; simpl; intros H; [reflexivity|].
  apply andb_true_iff in H. destruct H as [Hc Hs].
  unfold utf8_encode_char. unfold is_ascii in Hc. rewrite Hc, (IH Hs).
  reflexivity.
Qed.

Lemma utf8_decode_ascii s :
  forallb is_ascii s = true -> utf8_decode s = Some s.
Proof.
  induction s as [|c s IH]; simpl; intros H; [reflexivity|].
  apply andb_true_iff in H. destruct H as [Hc Hs].
  unfold is_ascii in Hc. rewrite Hc, (IH Hs). reflexivity.
Qed.

Lemma ascii_encode_ascii s :
  forallb is_ascii s = true -> ascii_encode s = Some s.
Proof. intros H. unfold ascii_encode. now rewrite H. Qed.

(** ** base64 *)

Lemma b64char_ascii i : is_ascii (b64char i) = true.
Proof.
  unfold is_ascii, b64char.
  destruct (i <? 26) eqn:E1; [nbool; apply ltb_true; lia|].
  destruct (i <? 52) eqn:E2; [nbool; apply ltb_true; lia|].
  destruct (i <? 62) eqn:E3; [nbool; apply ltb_true; lia|].
  destruct (i =? 62); reflexivity.
Qed.

Lemma b64char_not_pad i : (b64char i =? BASE64_PAD) = false.
Proof.
  unfold b64char, BASE64_PAD.
  destruct (i <? 26) eqn:E1; [nbool; apply eqb_false; lia|].
  destruct (i <? 52) eqn:E2; [nbool; apply eqb_false; lia|].
  destruct (i <? 62) eqn:E3; [nbool; apply eqb_false; lia|].
  destruct (i =? 62); reflexivity.
Qed.

Lemma b64val_char i : i < 64 -> b64val (b64char i) = Some i.
Proof.
  intros Hi. unfold b64char.
  destruct (i <? 26) eqn:E1.
  { nbool. unfold b64val.
    rewrite (leb_true 65 (65 + i)), (leb_true (65 + i) 90) by lia.
    cbn [andb]. f_equal. lia. }
  destruct (i <? 52) eqn:E2.
  { nbool. unfold b64val.
    rewrite (leb_false (97 + (i - 26)) 90) by lia.
    rewrite andb_false_r.
    rewrite (leb_true 97 (97 + (i - 26))), (leb_true (97 + (i - 26)) 122) by lia.
    cbn [andb]. f_equal. lia. }
  destruct (i <? 62) eqn:E3.
  { nbool. unfold b64val.
    rewrite (leb_false 65 (48 + (i - 52))) by lia.
    rewrite (leb_false 97 (48 + (i - 52))) by lia.
    rewrite (leb_true 48 (48 + (i - 52))), (leb_true (48 + (i - 52)) 57) by lia.
    cbn [andb]. f_equal. lia. }
  destruct (i =? 62) eqn:E4.
  { nbool. subst i. reflexivity. }
  nbool. assert (i = 63) by lia. subst i. reflexivity.
Qed.

(** One turn of the decoding loop on an alphabet character. *)
Lemma a2b_base64_char v rest quad_pos leftchar pads :
  v < 64 ->
  a2b_base64 (b64char v :: rest) quad_pos leftchar pads =
  if quad_pos =? 0 then a2b_base64 rest 1 v 0
  else if quad_pos =? 1 then
    option_map (cons (leftchar * 4 + v / 16)) (a2b_base64 rest 2 (v mod 16) 0)
  else if quad_pos =? 2 then
    option_map (cons (leftchar * 16 + v / 4)) (a2b_base64 rest 3 (v mod 4) 0)
  else option_map (cons (leftchar * 64 + v)) (a2b_base64 rest 0 0 0).
Proof.
  intros Hv. simpl. rewrite b64char_not_pad, (b64val_char v Hv). reflexivity.
Qed.

Lemma a2b_base64_b64encode bs :
  forallb is_byte bs = true -> a2b_base64 (b64encode bs) 0 0 0 = Some bs.
Proof.
  induction bs as [ | a | a b | a b c l IH] using list_ind3; intros H.
  - reflexivity.
  - simpl in H. unfold is_byte in H. nbool.
    cbn [b64encode].
    rewrite !a2b_base64_char by lia. simpl. f_equal. f_equal. lia.
  - simpl in H. unfold is_byte in H. nbool.
    cbn [b64encode].
    rewrite !a2b_base64_char by lia. simpl. f_equal. f_equal; [lia|].
    f_equal. lia.
  - cbn [forallb] in H. unfold is_byte in H at 1 2 3. nbool.
    cbn [b64encode].
    rewrite !a2b_base64_char by lia. simpl. rewrite (IH H2). simpl.
    f_equal. f_equal; [lia|]. f_equal; [lia|]. f_equal. lia.
Qed.

Lemma b64encode_ascii bs : forallb is_ascii (b64encode bs) = true.
Proof.
  induction bs as [ | a | a b | a b c l IH] using list_ind3;
    cbn [b64encode forallb]; rewrite ?b64char_ascii, ?IH; reflexivity.
Qed.

Lemma ascii_is_byte s : forallb is_ascii s = true -> forallb is_byte s = true.
Proof.
  induction s as [|c s IH]; simpl; intros H; [reflexivity|].
  apply andb_true_iff in H. destruct H as [Hc Hs].
  unfold is_ascii in Hc. unfold is_byte. nbool.
  rewrite (ltb_true c 256) by lia. simpl. auto.
Qed.

(** Decoding undoes encoding on every ASCII text. *)
Lemma b64decode_b64encode s :
  forallb is_ascii s = true -> b64decode (b64encode s) = Some s.
Proof.
  intros H. unfold b64decode.
  rewrite (ascii_encode_ascii _ (b64encode_ascii s)).
  apply a2b_base64_b64encode, ascii_is_byte, H.
Qed.

(** ** json: [scanstring] reads back what [encode_basestring_ascii] wrote *)

Lemma hexdigit_ascii d : d < 16 -> is_ascii (hexdigit d) = true.
Proof.
  intros H. unfold is_ascii, hexdigit.
  destruct (d <? 10); apply ltb_true; lia.
Qed.

Lemma hexval_hexdigit d : d < 16 -> hexval (hexdigit d) = Some d.
Proof.
  intros H. unfold hexdigit. destruct (d <? 10) eqn:E; nbool; unfold hexval.
  - rewrite (leb_true 48 (48 + d)), (leb_true (48 + d) 57) by lia.
    cbn [andb]. f_equal. lia.
  - rewrite (leb_false (87 + d) 57) by lia. rewrite andb_false_r.
    rewrite (leb_true 97 (87 + d)), (leb_true (87 + d) 102) by lia.
    cbn [andb]. f_equal. lia.
Qed.

Lemma hex4_digits n :
  n < 65536 ->
  hex4 (hexdigit ((n / 4096) mod 16)) (hexdigit ((n / 256) mod 16))
       (hexdigit ((n / 16) mod 16)) (hexdigit (n mod 16)) = Some n.
Proof.
  intros H. unfold hex4.
  rewrite !hexval_hexdigit by (apply N.mod_lt; discriminate).
  f_equal. lia.
Qed.

Lemma scanstring_plain c r :
  (c =? 34) = false -> (c =? 92) = false -> (c <? 32) = false ->
  scanstring (c :: r) = prepend c (scanstring r).
Proof. intros H1 H2 H3. simpl. now rewrite H1, H2, H3. Qed.

Lemma scanstring_backslash esc r :
  (esc =? 117) = false ->
  scanstring (92 :: esc :: r) =
  match backslash esc with
  | Some ch => prepend ch (scanstring r)
  | None => None
  end.
Proof. intros H. simpl. now rewrite H. Qed.

Lemma scanstring_u_escape n r :
  n < 65536 -> ((55296 <=? n) && (n <=? 56319)) = false ->
  scanstring (u_escape n ++ r) = prepend n (scanstring r).
Proof.
  intros Hn Hs. unfold u_escape. cbn [app].
  change (scanstring (92 :: 117 :: ?a :: ?b :: ?c :: ?d :: r))
    with (match hex4 a b c d with
          | None => None
          | Some uni =>
            if (55296 <=? uni) && (uni <=? 56319) then
              match r with
              | 92 :: 117 :: a' :: b' :: c' :: d' :: r4 =>
                match hex4 a' b' c' d' with
                | None => None
                | Some uni2 =>
                  if (56320 <=? uni2) && (uni2 <=? 57343)
                  then prepend (65536 + (uni - 55296) * 1024 + (uni2 - 56320))
                               (scanstring r4)
                  else prepend uni (scanstring r)
                end
              | 92 :: 117 :: _ => None
              | _ => prepend uni (scanstring r)
              end
            else prepend uni (scanstring r)
          end).
  rewrite (hex4_digits n Hn), Hs. reflexivity.
Qed.

Lemma scanstring_u_pair n1 n2 r :
  55296 <= n1 <= 56319 -> 56320 <= n2 <= 57343 ->
  scanstring (u_escape n1 ++ u_escape n2 ++ r) =
  prepend (65536 + (n1 - 55296) * 1024 + (n2 - 56320)) (scanstring r).
Proof.
  intros H1 H2. unfold u_escape. cbn [app].
  match goal with
  | |- scanstring (92 :: 117 :: ?a :: ?b :: ?c :: ?d
                      :: 92 :: 117 :: ?a' :: ?b' :: ?c' :: ?d' :: r) = _ =>
    change (scanstring (92 :: 117 :: a :: b :: c :: d
                           :: 92 :: 117 :: a' :: b' :: c' :: d' :: r))
      with (match hex4 a b c d with
            | None => None
            | Some uni =>
              if (55296 <=? uni) && (uni <=? 56319) then
                match hex4 a' b' c' d' with
                | None => None
                | Some uni2 =>
                  if (56320 <=? uni2) && (uni2 <=? 57343)
                  then prepend (65536 + (uni - 55296) * 1024 + (uni2 - 56320))
                               (scanstring r)
                  else prepend uni
                         (scanstring (92 :: 117 :: a' :: b' :: c' :: d' :: r))
                end
              else prepend uni
                     (scanstring (92 :: 117 :: a' :: b' :: c' :: d' :: r))
            end)
  end.
  rewrite (hex4_digits n1), (hex4_digits n2) by lia.
  rewrite (leb_true 55296 n1), (leb_true n1 56319) by lia.
  rewrite (leb_true 56320 n2), (leb_true n2 57343) by lia.
  reflexivity.
Qed.

Lemma scanstring_escape_char c tail :
  is_scalar c = true ->
  scanstring (escape_char c ++ tail) = prepend c (scanstring tail).
Proof.
  intros Hc. unfold is_scalar in Hc. apply andb_true_iff in Hc.
  destruct Hc as [Hmax Hsur]. apply N.ltb_lt in Hmax.
  unfold escape_char.
  destruct (c =? 34) eqn:E1; [nbool; subst c; reflexivity|].
  destruct (c =? 92) eqn:E2; [nbool; subst c; reflexivity|].
  destruct (c =? 10) eqn:E3; [nbool; subst c; reflexivity|].
  destruct (c =? 13) eqn:E4; [nbool; subst c; reflexivity|].
  destruct (c =? 9) eqn:E5; [nbool; subst c; reflexivity|].
  destruct (c =? 8) eqn:E6; [nbool; subst c; reflexivity|].
  destruct (c =? 12) eqn:E7; [nbool; subst c; reflexivity|].
  destruct ((32 <=? c) && (c <=? 126)) eqn:E8.
  { cbn [app]. apply scanstring_plain; auto. nbool. apply ltb_false. lia. }
  destruct (c <? 65536) eqn:E9.
  { nbool. apply scanstring_u_escape; [lia|].
    destruct (55296 <=? c) eqn:Ea; [|reflexivity].
    destruct (c <=? 56319) eqn:Eb; [|reflexivity].
    exfalso. nbool.
    destruct (c <=? 57343) eqn:Ec; [discriminate|]. nbool. lia. }
  nbool. rewrite <- app_assoc. rewrite scanstring_u_pair by lia.
  f_equal. lia.
Qed.

Lemma scanstring_escape_body s rest :
  valid_str s = true ->
  scanstring (escape_body s ++ 34 :: rest) = Some (s, rest).
Proof.
  induction s as [|c s IH]; intros H.
  - reflexivity.
  - cbn [valid_str forallb] in H. apply andb_true_iff in H.
    destruct H as [Hc Hs].
    unfold escape_body. cbn [flat_map]. rewrite <- app_assoc.
    rewrite (scanstring_escape_char _ _ Hc).
    fold (escape_body s). rewrite (IH Hs). reflexivity.
Qed.

Lemma u_escape_ascii n : forallb is_ascii (u_escape n) = true.
Proof.
  unfold u_escape. cbn [forallb].
  rewrite !hexdigit_ascii by (apply N.mod_lt; discriminate). reflexivity.
Qed.

Lemma escape_char_ascii c : forallb is_ascii (escape_char c) = true.
Proof.
  unfold escape_char.
  repeat match goal with
         | |- context [if ?c =? ?k then _ else _] =>
           destruct (c =? k); [reflexivity|]
         end.
  destruct ((32 <=? c) && (c <=? 126)) eqn:E.
  { nbool. cbn [forallb]. unfold is_ascii. rewrite (ltb_true c 128) by lia.
    reflexivity. }
  destruct (c <? 65536).
  - apply u_escape_ascii.
  - rewrite forallb_app, !u_escape_ascii. reflexivity.
Qed.

Lemma escape_body_ascii s : forallb is_ascii (escape_body s) = true.
Proof.
  induction s as [|c s IH]; [reflexivity|].
  unfold escape_body. cbn [flat_map].
  rewrite forallb_app, escape_char_ascii. exact IH.
Qed.

(** ** json: a flat object of strings is read back by [json.loads] *)

Lemma scan_once_string fuel v rest :
  valid_str v = true ->
  scan_once (S fuel) (34 :: escape_body v ++ 34 :: rest)
  = Some (JString v, rest).
Proof.
  intros Hv. cbn [scan_once]. change (34 =? 34) with true. cbv iota.
  rewrite (scanstring_escape_body _ _ Hv). reflexivity.
Qed.

Lemma JSONObject_pairs_S fuel pairs s :
  JSONObject_pairs (S fuel) pairs s =
  match scanstring s with
  | None => None
  | Some (key, s1) =>
    match skip_ws s1 with
    | 58 :: s2 =>
      match scan_once fuel (skip_ws s2) with
      | None => None
      | Some (value, s3) =>
        match skip_ws s3 with
        | 125 :: rest =>
          Some (JObject (dict_of_pairs (pairs ++ [(key, value)])), rest)
        | 44 :: s4 =>
          match skip_ws s4 with
          | 34 :: s5 => JSONObject_pairs fuel (pairs ++ [(key, value)]) s5
          | _ => None
          end
        | _ => None
        end
      end
    | _ => None
    end
  end.
Proof. reflexivity. Qed.

Lemma JSONObject_pairs_flat ps :
  forall fuel acc k v rest,
    valid_str k = true -> valid_str v = true ->
    forallb valid_pair ps = true ->
    (List.length ps + 2 <= fuel)%nat ->
    JSONObject_pairs fuel acc
      (escape_body k ++ 34 :: 58 :: 32 :: 34 :: escape_body v
                    ++ 34 :: members_tail ps ++ rest)
    = Some (JObject (dict_of_pairs (acc ++ (k, JString v) :: flat ps)), rest).
Proof.
  induction ps as [|[k' v'] ps IH]; intros fuel acc k v rest Hk Hv Hps Hfuel;
    (destruct fuel as [|[|fuel]]; [simpl in Hfuel; lia ..|]);
    rewrite JSONObject_pairs_S, (scanstring_escape_body _ _ Hk);
    change (skip_ws (58 :: 32 :: 34 :: ?x)) with (58 :: 32 :: 34 :: x);
    cbv beta match;
    change (skip_ws (32 :: 34 :: ?x)) with (34 :: x);
    rewrite (scan_once_string _ _ _ Hv).
  - reflexivity.
  - cbn [forallb] in Hps. apply andb_true_iff in Hps.
    destruct Hps as [Hkv Hps]. unfold valid_pair in Hkv.
    apply andb_true_iff in Hkv. destruct Hkv as [Hk' Hv'].
    cbn [fst snd] in Hk', Hv'.
    cbn [members_tail app].
    change (skip_ws (44 :: ?x)) with (44 :: x). cbv beta match.
    change (skip_ws (32 :: 34 :: ?x)) with (34 :: x). cbv beta match.
    rewrite <- !app_assoc. cbn [app]. rewrite <- !app_assoc. cbn [app].
    rewrite (IH (S fuel) (acc ++ [(k, JString v)]) k' v' rest Hk' Hv' Hps)
      by (simpl in Hfuel |- *; lia).
    rewrite <- app_assoc. reflexivity.
Qed.

(** ** The JSON text of a token *)

Lemma json_dumps_token t :
  json_dumps (JObject (token_dict t)) =
  123 :: 34 :: escape_body (lit "provider_id")
      ++ 34 :: 58 :: 32 :: 34 :: escape_body (provider_id t)
      ++ 34 :: members_tail (token_pairs_tail t) ++ [].
Proof.
  unfold token_dict, token_pairs_tail.
  cbn [json_dumps map join fst snd members_tail].
  unfold encode_basestring_ascii.
  change (lit ": ") with [58; 32]. change (lit ", ") with [44; 32].
  repeat (rewrite <- app_assoc || rewrite <- app_comm_cons || rewrite app_nil_r); cbn [app].
  repeat (rewrite <- app_assoc || rewrite <- app_comm_cons || rewrite app_nil_r); cbn [app].
  reflexivity.
Qed.

Lemma valid_str_lit_keys :
  valid_str (lit "provider_id") = true
  /\ valid_str (lit "router_stream_key") = true
  /\ valid_str (lit "stream_storage_id") = true
  /\ valid_str (lit "stream_run_id") = true.
Proof. conj_compute. Qed.

Lemma json_loads_token t :
  valid_token t = true ->
  json_loads (json_dumps (JObject (token_dict t))) = Some (JObject (token_dict t)).
Proof.
  intros Hv. unfold valid_token in Hv.
  apply andb_true_iff in Hv. destruct Hv as [Hv H4].
  apply andb_true_iff in Hv. destruct Hv as [Hv H3].
  apply andb_true_iff in Hv. destruct Hv as [H1 H2].
  destruct valid_str_lit_keys as (K1 & K2 & K3 & K4).
  unfold json_loads. rewrite json_dumps_token.
  cbv beta match.
  change (skip_ws (123 :: ?x)) with (123 :: x).
  match goal with
  | |- context [scan_once ?f (123 :: 34 :: ?x)] =>
    assert (Hf : exists f', f = S f' /\ (5 <= f')%nat)
  end.
  { cbn [List.length]. eexists. split; [|shelve].
    rewrite Nat.add_comm. cbn [Nat.add]. reflexivity. Unshelve. lia. }
  destruct Hf as (f' & -> & Hf').
  cbn [scan_once]. change (123 =? 34) with false. change (123 =? 123) with true.
  cbv beta match.
  change (skip_ws (34 :: ?x)) with (34 :: x). cbv beta match.
  rewrite (JSONObject_pairs_flat (token_pairs_tail t) f' []);
    [ reflexivity | assumption | assumption | | cbn; lia ].
  unfold token_pairs_tail, valid_pair. cbn [forallb fst snd].
  rewrite K2, K3, K4, H2, H3, H4. reflexivity.
Qed.

Lemma members_tail_ascii ps : forallb is_ascii (members_tail ps) = true.
Proof.
  induction ps as [|[k v] ps IH]; [reflexivity|].
  cbn [members_tail forallb].
  rewrite forallb_app, escape_body_ascii. cbn [forallb andb].
  rewrite forallb_app, escape_body_ascii. cbn [forallb andb].
  rewrite IH. reflexivity.
Qed.

Lemma json_dumps_token_ascii t :
  forallb is_ascii (json_dumps (JObject (token_dict t))) = true.
Proof.
  rewrite json_dumps_token. cbn [forallb].
  rewrite forallb_app, escape_body_ascii. cbn [forallb andb].
  rewrite forallb_app, escape_body_ascii. cbn [forallb andb].
  rewrite forallb_app, members_tail_ascii. reflexivity.
Qed.

(** [encode_resumption_token] never raises: the JSON text is ASCII, and so
    is its base-64 form. *)
Lemma encode_resumption_token_eq t :
  encode_resumption_token (token_dict t)
  = Some (b64encode (json_dumps (JObject (token_dict t)))).
Proof.
  unfold encode_resumption_token.
  rewrite (utf8_encode_ascii _ (json_dumps_token_ascii t)).
  apply utf8_decode_ascii, b64encode_ascii.
Qed.

Lemma decode_body_encoded t :
  valid_token t = true ->
  decode_body (b64encode (json_dumps (JObject (token_dict t))))
  = Some (token_dict t).
Proof.
  intros Hv. unfold decode_body.
  rewrite (b64decode_b64encode _ (json_dumps_token_ascii t)).
  rewrite (utf8_decode_ascii _ (json_dumps_token_ascii t)).
  rewrite (json_loads_token t Hv). reflexivity.
Qed.

End PyFacts.

(* ================================================================== *)
(** * Resumption tokens: the claims *)
(* ================================================================== *)

Module TokenClaims.
Import Py Token Aux PyFacts Scenarios.
Local Open Scope N_scope.

Lemma b64char_std i : std_b64_char (b64char i) = true.
Proof.
  unfold std_b64_char, is_alnum, b64char.
  destruct (i <? 26) eqn:E1.
  { nbool. rewrite (leb_true 65 (65 + i)), (leb_true (65 + i) 90) by lia.
    reflexivity. }
  destruct (i <? 52) eqn:E2.
  { nbool.
    rewrite (leb_true 97 (97 + (i - 26))), (leb_true (97 + (i - 26)) 122) by lia.
    cbn [andb]. rewrite orb_true_r. reflexivity. }
  destruct (i <? 62) eqn:E3.
  { nbool.
    rewrite (leb_true 48 (48 + (i - 52))), (leb_true (48 + (i - 52)) 57) by lia.
    cbn [andb]. rewrite !orb_true_r. reflexivity. }
  destruct (i =? 62); reflexivity.
Qed.

Lemma b64encode_std bs : forallb std_b64_char (b64encode bs) = true.
Proof.
  induction bs as [ | a | a b | a b c l IH] using list_ind3;
    cbn [b64encode forallb]; rewrite ?b64char_std, ?IH; reflexivity.
Qed.

(** What the decoder accepts: every base-64 text of a UTF-8 text of a JSON
    object, whatever its members. *)
Lemma decode_resumption_token_accepts encoded d :
  decode_resumption_token encoded = Ok d <->
  exists raw text,
    b64decode encoded = Some raw /\ utf8_decode raw = Some text
    /\ json_loads text = Some (JObject d).
Proof.
  unfold decode_resumption_token, decode_body. split.
  - destruct (b64decode encoded) as [raw|] eqn:E1; [|discriminate].
    destruct (utf8_decode raw) as [text|] eqn:E2; [|discriminate].
    destruct (json_loads text) as [[| | | | |kvs]|] eqn:E3; try discriminate.
    intros H. injection H as <-. exists raw, text.
    split; [reflexivity|]. split; assumption.
  - intros (raw & text & -> & -> & ->). reflexivity.
Qed.

(** C5, on the code: the encoding [e30=] of the empty JSON object, which has
    none of the four fields, is decoded without error by both decoders. *)
Theorem C5_token_without_fields_is_accepted :
  decode_resumption_token (lit "e30=") = Ok []
  /\ resume_decode (lit "e30=") = Ok []
  /\ complete_token [] = false
  /\ decode_resumption_token (lit "eyJwcm92aWRlcl9pZCI6ICJyZWRpcyJ9")
     = Ok [(lit "provider_id", JString (lit "redis"))]
  /\ complete_token [(lit "provider_id", JString (lit "redis"))] = false.
Proof. conj_compute. Qed.

(** C6, counterexample: the encoded token of [example_token] contains the
    character [/], which is not in the URL-safe alphabet. *)
Lemma C6_counterexample :
  exists e,
    encode_resumption_token (token_dict example_token) = Some e
    /\ In 47 e /\ forallb urlsafe_b64_char e = false.
Proof.
  eexists. split; [vm_compute; reflexivity|].
  split; [|vm_compute; reflexivity].
  match goal with
  | |- In 47 ?e => assert (H : existsb (N.eqb 47) e = true)
      by (vm_compute; reflexivity)
  end.
  apply existsb_exists in H. destruct H as (x & Hin & Hx).
  apply N.eqb_eq in Hx. subst x. exact Hin.
Qed.

(** C6, amended: for every token the encoder never fails and returns the
    standard base-64 encoding (alphabet [A-Z a-z 0-9 + /], padding [=]) of
    the JSON text of the four-field record, which is ASCII and therefore its
    own UTF-8 encoding; decoding that base-64 text gives the JSON text
    back. *)
Theorem C6_standard_base64 (t : ResumptionToken) :
  let json_str := json_dumps (JObject (token_dict t)) in
  encode_resumption_token (token_dict t) = Some (b64encode json_str)
  /\ utf8_encode json_str = Some json_str
  /\ forallb std_b64_char (b64encode json_str) = true
  /\ b64decode (b64encode json_str) = Some json_str.
Proof.
  cbv zeta. repeat split.
  - apply encode_resumption_token_eq.
  - apply utf8_encode_ascii, json_dumps_token_ascii.
  - apply b64encode_std.
  - apply b64decode_b64encode, json_dumps_token_ascii.
Qed.

(** C7: for every valid token, encoding succeeds and decoding the result
    gives the token back, with each of the four fields unchanged. *)
Theorem C7_decode_encode (t : ResumptionToken) :
  valid_token t = true ->
  exists e d,
    encode_resumption_token (token_dict t) = Some e
    /\ decode_resumption_token e = Ok d
    /\ resume_decode e = Ok d
    /\ d = token_dict t
    /\ dict_get d (lit "provider_id") = Some (JString (provider_id t))
    /\ dict_get d (lit "router_stream_key") = Some (JString (router_stream_key t))
    /\ dict_get d (lit "stream_storage_id") = Some (JString (stream_storage_id t))
    /\ dict_get d (lit "stream_run_id") = Some (JString (stream_run_id t)).
Proof.
  intros Hv. exists (b64encode (json_dumps (JObject (token_dict t)))).
  exists (token_dict t).
  split; [apply encode_resumption_token_eq|].
  unfold decode_resumption_token, resume_decode.
  rewrite (decode_body_encoded t Hv).
  repeat split; reflexivity.
Qed.

Lemma C7_decode_encode_witness :
  valid_token example_token = true
  /\ exists e d,
    encode_resumption_token (token_dict example_token) = Some e
    /\ decode_resumption_token e = Ok d
    /\ resume_decode e = Ok d
    /\ d = token_dict example_token
    /\ dict_get d (lit "provider_id") = Some (JString (provider_id example_token))
    /\ dict_get d (lit "router_stream_key")
       = Some (JString (router_stream_key example_token))
    /\ dict_get d (lit "stream_storage_id")
       = Some (JString (stream_storage_id example_token))
    /\ dict_get d (lit "stream_run_id")
       = Some (JString (stream_run_id example_token)).
Proof.
  split; [reflexivity|]. apply (C7_decode_encode example_token). reflexivity.
Defined.

(** The hypothesis of validity is needed: a string that holds a high and a
    low surrogate as two code points is written as two escapes, which
    [json.loads] reads back as one code point. *)
Lemma surrogate_pair_is_joined :
  json_loads (json_dumps (JString [55357; 56832])) = Some (JString [128512]).
Proof. vm_compute. reflexivity. Qed.

End TokenClaims.

(* ================================================================== *)
(** * The resume reader *)
(* ================================================================== *)

Module ResumeFacts.
Import Py Token Engine EngineAux.
Local Open Scope nat_scope.

Lemma skipn_length_firstn (A : Type) (k : nat) (l : list A) :
  skipn (List.length (firstn k l)) l = skipn k l.
Proof.
  revert l. induction k as [|k IH]; intros [|x l]; simpl; auto.
Qed.

(** A batch that contains the first terminal entry ends the replay. *)
Lemma process_messages_terminal l : forall k n,
  first_terminal l = Some n -> n < k ->
  process_messages (firstn k l) = (replay l, true).
Proof.
  induction l as [|e l IH]; intros k n Hn Hk; [discriminate|].
  destruct k as [|k]; [lia|].
  cbn [firstn]. destruct e as [item|]; cbn [first_terminal is_terminal_entry] in Hn.
  - cbn [process_messages replay]. destruct (is_terminal item); [reflexivity|].
    destruct (first_terminal l) as [m|] eqn:E; [|discriminate].
    cbn in Hn. injection Hn as <-.
    rewrite (IH k m eq_refl) by lia. reflexivity.
  - reflexivity.
Qed.

(** A batch without terminal entry is yielded whole and the loop goes on. *)
Lemma process_messages_none l :
  first_terminal l = None ->
  process_messages l = (data_items l, false).
Proof.
  induction l as [|e l IH]; intros Hn; [reflexivity|].
  destruct e as [item|]; cbn [first_terminal is_terminal_entry] in Hn;
    [|discriminate].
  cbn [process_messages data_items].
  destruct (is_terminal item); [discriminate|].
  destruct (first_terminal l); [discriminate|].
  rewrite (IH eq_refl). reflexivity.
Qed.

Lemma replay_none l : first_terminal l = None -> replay l = data_items l.
Proof.
  induction l as [|e l IH]; intros Hn; [reflexivity|].
  destruct e as [item|]; cbn [first_terminal is_terminal_entry] in Hn;
    [|discriminate].
  cbn [replay data_items].
  destruct (is_terminal item); [discriminate|].
  destruct (first_terminal l); [discriminate|].
  rewrite (IH eq_refl). reflexivity.
Qed.

(** The first terminal entry of a prefix. *)
Lemma first_terminal_firstn l : forall k,
  first_terminal (firstn k l) =
  match first_terminal l with
  | Some n => if n <? k then Some n else None
  | None => None
  end.
Proof.
  induction l as [|e l IH]; intros k.
  - rewrite firstn_nil. reflexivity.
  - destruct k as [|k]; cbn [firstn first_terminal].
    + destruct (is_terminal_entry e); [reflexivity|].
      destruct (first_terminal l); reflexivity.
    + destruct (is_terminal_entry e); [reflexivity|].
      rewrite IH. destruct (first_terminal l) as [n|]; [|reflexivity].
      cbn [option_map]. change (S n <? S k) with (n <? k).
      destruct (n <? k); reflexivity.
Qed.

Lemma first_terminal_skipn l : forall k,
  first_terminal (firstn k l) = None ->
  first_terminal (skipn k l) =
  match first_terminal l with
  | Some n => Some (n - k)
  | None => None
  end
  /\ replay l = data_items (firstn k l) ++ replay (skipn k l).
Proof.
  induction l as [|e l IH]; intros [|k] H; cbn [firstn skipn] in *.
  - split; reflexivity.
  - split; reflexivity.
  - split; [|reflexivity].
    destruct (first_terminal (e :: l)) as [n|]; [|reflexivity].
    now rewrite Nat.sub_0_r.
  - cbn [first_terminal] in H |- *.
    destruct e as [item|]; cbn [is_terminal_entry] in H |- *; [|discriminate].
    cbn [replay data_items].
    destruct (is_terminal item); [discriminate|].
    destruct (first_terminal (firstn k l)) eqn:E; [discriminate|].
    destruct (IH k E) as [H1 H2]. rewrite H1, H2.
    split; [|reflexivity].
    destruct (first_terminal l); reflexivity.
Qed.

Lemma data_items_app a b : data_items (a ++ b) = data_items a ++ data_items b.
Proof.
  induction a as [|[item|] a IH]; cbn; [reflexivity| |assumption].
  now rewrite IH.
Qed.

(** The read loop on a stream that no longer changes: it returns when the
    first terminal entry is among the [10 * remaining] entries it can read,
    and raises otherwise. *)
Lemma resume_loop_static stream : forall remaining att pos,
  let l := skipn pos stream in
  let r := resume_loop remaining (fun _ => stream) att pos in
  match first_terminal (firstn (10 * remaining) l) with
  | Some _ =>
    yielded r = replay l /\ ending r = Returned
    /\ attempts r <= att + remaining
  | None =>
    yielded r = data_items (firstn (10 * remaining) l)
    /\ ending r = Raised (RiverError PROVIDER)
    /\ attempts r = att + remaining
  end.
Proof.
  induction remaining as [|rem IH]; intros att pos l r.
  - subst r. cbn. repeat split; lia.
  - subst l r. cbn [resume_loop]. unfold xread.
    set (l := skipn pos stream).
    replace (10 * S rem) with (10 + 10 * rem) by lia.
    destruct (firstn 10 l) as [|m ms] eqn:Eb.
    + (* the stream is exhausted: the read times out *)
      assert (Hl : l = []) by (destruct l; [reflexivity|discriminate]).
      rewrite Hl. rewrite firstn_nil. cbn [first_terminal data_items].
      specialize (IH (S att) pos). cbv zeta in IH. fold l in IH.
      rewrite Hl, firstn_nil in IH. cbn [first_terminal data_items] in IH.
      destruct IH as (H1 & H2 & H3). repeat split; auto. lia.
    + rewrite <- Eb.
      rewrite first_terminal_firstn.
      destruct (first_terminal l) as [n|] eqn:En.
      * destruct (n <? 10) eqn:E10.
        { apply Nat.ltb_lt in E10.
          rewrite (proj2 (Nat.ltb_lt n (10 + 10 * rem))) by lia.
          rewrite (process_messages_terminal l 10 n En E10).
          cbn. repeat split; lia. }
        apply Nat.ltb_ge in E10.
        assert (Hb : first_terminal (firstn 10 l) = None).
        { rewrite first_terminal_firstn, En.
          now rewrite (proj2 (Nat.ltb_ge n 10)). }
        rewrite (process_messages_none _ Hb).
        destruct (first_terminal_skipn l 10 Hb) as [Hs Hr]. rewrite En in Hs.
        assert (Hpos : skipn (pos + List.length (firstn 10 l)) stream
                       = skipn 10 l).
        { unfold l. rewrite Nat.add_comm, <- skipn_skipn.
          apply skipn_length_firstn. }
        specialize (IH (S att) (pos + List.length (firstn 10 l))).
        cbv zeta in IH. rewrite Hpos in IH.
        rewrite first_terminal_firstn, Hs in IH.
        destruct (n <? 10 + 10 * rem) eqn:Ec.
        { apply Nat.ltb_lt in Ec.
          rewrite (proj2 (Nat.ltb_lt (n - 10) (10 * rem))) in IH by lia.
          destruct IH as (H1 & H2 & H3).
          cbn [yielded ending attempts]. rewrite H1, H2, Hr.
          repeat split; auto. lia. }
        apply Nat.ltb_ge in Ec.
        rewrite (proj2 (Nat.ltb_ge (n - 10) (10 * rem))) in IH by lia.
        destruct IH as (H1 & H2 & H3).
        cbn [yielded ending attempts]. rewrite H1, H2, H3.
        repeat split; [|lia].
        rewrite <- data_items_app. f_equal.
        rewrite <- (firstn_skipn 10 (firstn (10 + 10 * rem) l)).
        f_equal.
        { rewrite firstn_firstn. f_equal; lia. }
        { rewrite skipn_firstn_comm. f_equal; lia. }
      * assert (Hb : first_terminal (firstn 10 l) = None).
        { now rewrite first_terminal_firstn, En. }
        rewrite (process_messages_none _ Hb).
        destruct (first_terminal_skipn l 10 Hb) as [Hs Hr]. rewrite En in Hs.
        assert (Hpos : skipn (pos + List.length (firstn 10 l)) stream
                       = skipn 10 l).
        { unfold l. rewrite Nat.add_comm, <- skipn_skipn.
          apply skipn_length_firstn. }
        specialize (IH (S att) (pos + List.length (firstn 10 l))).
        cbv zeta in IH. rewrite Hpos in IH.
        rewrite first_terminal_firstn, Hs in IH.
        destruct IH as (H1 & H2 & H3).
        cbn [yielded ending attempts]. rewrite H1, H2, H3.
        repeat split; [|lia].
        rewrite <- data_items_app. f_equal.
        rewrite <- (firstn_skipn 10 (firstn (10 + 10 * rem) l)).
        f_equal.
        { rewrite firstn_firstn. f_equal; lia. }
        { rewrite skipn_firstn_comm. f_equal; lia. }
Qed.

(** On any stream, changing or not, the loop runs at most [remaining]
    times and ends by returning or by the safety limit. *)
Lemma resume_loop_bounded stream_at : forall remaining att pos,
  let r := resume_loop remaining stream_at att pos in
  att <= attempts r <= att + remaining
  /\ (ending r = Returned
      \/ (ending r = Raised (RiverError PROVIDER)
          /\ attempts r = att + remaining)).
Proof.
  induction remaining as [|rem IH]; intros att pos r; subst r.
  - cbn. split; [lia|]. right. split; [reflexivity|lia].
  - cbn [resume_loop].
    destruct (xread (stream_at (S att)) pos 10) as [|m ms] eqn:Eb.
    + destruct (IH (S att) pos) as [H1 H2]. split; [lia|].
      destruct H2 as [H2|[H2 H3]]; [now left|right; split; [assumption|lia]].
    + destruct (process_messages (m :: ms)) as [ys fin].
      destruct fin.
      * cbn. split; [lia|now left].
      * cbn [yielded ending attempts].
        destruct (IH (S att) (pos + List.length (m :: ms))) as [H1 H2].
        split; [lia|].
        destruct H2 as [H2|[H2 H3]]; [now left|right; split; [assumption|lia]].
Qed.

(** A reader of a stream that grows towards [final] yields a prefix of the
    replay of [final], whenever it reads and however it ends. *)
Section GrowingStream.

Variable final : list Entry.
Variable stream_at : nat -> list Entry.
Hypothesis snapshots : forall n, exists k, stream_at n = firstn k final.

Lemma resume_loop_prefix :
  forall remaining att pos,
  exists rest,
    replay (skipn pos final)
    = yielded (resume_loop remaining stream_at att pos) ++ rest.
Proof.
  induction remaining as [|rem IH]; intros att pos.
  - eexists. reflexivity.
  - cbn [resume_loop]. unfold xread.
    destruct (snapshots (S att)) as [k ->].
    rewrite skipn_firstn_comm, firstn_firstn.
    set (l := skipn pos final). set (j := Nat.min 10 (k - pos)).
    destruct (firstn j l) as [|m ms] eqn:Eb.
    + apply IH.
    + rewrite <- Eb.
      destruct (first_terminal (firstn j l)) as [n|] eqn:Et.
      * rewrite first_terminal_firstn in Et.
        destruct (first_terminal l) as [n'|] eqn:En; [|discriminate].
        destruct (n' <? j) eqn:Ej; [|discriminate].
        apply Nat.ltb_lt in Ej.
        rewrite (process_messages_terminal l j n' En Ej).
        exists []. cbn. now rewrite app_nil_r.
      * rewrite (process_messages_none _ Et).
        destruct (first_terminal_skipn l j Et) as [_ Hr].
        cbn [yielded].
        destruct (IH (S att) (pos + List.length (firstn j l))) as [rest Hrest].
        assert (Hpos : skipn (pos + List.length (firstn j l)) final
                       = skipn j l).
        { unfold l. rewrite Nat.add_comm, <- skipn_skipn.
          apply skipn_length_firstn. }
        rewrite Hpos in Hrest. exists rest.
        rewrite Hr, Hrest, app_assoc. reflexivity.
Qed.

Lemma resume_stream_prefix :
  exists rest, replay final = yielded (resume_stream stream_at) ++ rest.
Proof.
  unfold resume_stream.
  destruct (stream_at 0); [eexists; reflexivity|].
  apply (resume_loop_prefix max_attempts 0 0).
Qed.

End GrowingStream.

(** The reader on a stream that no longer changes. *)
Lemma resume_stream_static stream :
  stream <> [] ->
  let r := resume_stream (fun _ => stream) in
  match first_terminal (firstn (10 * max_attempts) stream) with
  | Some _ => yielded r = replay stream /\ ending r = Returned
  | None =>
    yielded r = data_items (firstn (10 * max_attempts) stream)
    /\ ending r = Raised (RiverError PROVIDER)
    /\ attempts r = max_attempts
  end.
Proof.
  intros Hne r. subst r. unfold resume_stream.
  destruct stream as [|e stream]; [contradiction|].
  pose proof (resume_loop_static (e :: stream) max_attempts 0 0) as H.
  cbv zeta in H. change (skipn 0 (e :: stream)) with (e :: stream) in H.
  destruct (first_terminal (firstn (10 * max_attempts) (e :: stream))).
  - destruct H as (H1 & H2 & _). split; assumption.
  - exact H.
Qed.

End ResumeFacts.

(* ================================================================== *)
(** * The run of a stream: invariants *)
(* ================================================================== *)

Module EngineFacts.
Import Py Token Engine EngineAux.
Local Open Scope nat_scope.

Lemma exec_cons c sched st : exec (c :: sched) st = exec sched (step c st).
Proof. reflexivity. Qed.

Lemma exec_app s1 s2 st : exec (s1 ++ s2) st = exec s2 (exec s1 st).
Proof. unfold exec. apply fold_left_app. Qed.

(** What a step never changes. *)
Lemma step_provider c st :
  provider (step c st) = provider st
  /\ total_time_ms_read (step c st) = total_time_ms_read st.
Proof.
  destruct c as [io|]; cbn [step].
  - unfold task_step. destruct (task st) as [|[item|b|x| |] k];
      try (split; reflexivity).
    destruct io; split; reflexivity.
  - unfold drain_step. destruct (draining st); [|split; reflexivity].
    destruct (queue st) as [|[item|] q]; split; reflexivity.
Qed.

Lemma exec_provider sched : forall st,
  provider (exec sched st) = provider st
  /\ total_time_ms_read (exec sched st) = total_time_ms_read st.
Proof.
  induction sched as [|c sched IH]; intros st; [split; reflexivity|].
  rewrite exec_cons. destruct (IH (step c st)) as [H1 H2].
  destruct (step_provider c st) as [H3 H4]. split; congruence.
Qed.

(** Induction over the states a schedule reaches. *)
Lemma exec_invariant (P : State -> Prop) :
  (forall c st, P st -> P (step c st)) ->
  forall sched st, P st -> P (exec sched st).
Proof.
  intros Hstep. induction sched as [|c sched IH]; intros st H; [exact H|].
  rewrite exec_cons. apply IH, Hstep, H.
Qed.

(** ** The queue: what the consumer has seen is a prefix of what was put *)

Lemma queue_inv_step first c st :
  queue_inv first st -> queue_inv first (step c st).
Proof.
  intros (seen & Hl & Hp). destruct c as [io|]; cbn [step].
  - unfold task_step. destruct (task st) as [|[item|b|x| |] k];
      try (exists seen; split; assumption).
    + destruct io; exists seen; split; assumption.
    + exists seen. split; [assumption|]. cbn.
      rewrite Hp, <- !app_assoc. reflexivity.
  - unfold drain_step. destruct (draining st) eqn:Ed;
      [|exists seen; rewrite Ed; split; assumption].
    destruct (queue st) as [|[item|] q] eqn:Eq.
    + exists seen. rewrite Ed, Eq. split; assumption.
    + exists (seen ++ [item]). cbn. split.
      * rewrite Hl. reflexivity.
      * rewrite Hp, map_app, <- app_assoc. reflexivity.
    + exists seen. cbn. split; [assumption|]. rewrite Hp. reflexivity.
Qed.

Lemma queue_inv_start p env sid ops :
  queue_inv (start_chunk p sid (uuid4 env)) (start_stream p env sid ops).
Proof. exists []. split; reflexivity. Qed.

Lemma queue_inv_exec p env sid ops sched :
  queue_inv (start_chunk p sid (uuid4 env))
            (exec sched (start_stream p env sid ops)).
Proof.
  apply exec_invariant; [intros c st; apply queue_inv_step|].
  apply queue_inv_start.
Qed.

Lemma some_items_app a b : some_items (a ++ b) = some_items a ++ some_items b.
Proof.
  induction a as [|[x|] a IH]; cbn; [reflexivity| |assumption].
  now rewrite IH.
Qed.

Lemma some_items_map_Some l : some_items (map Some l) = l.
Proof. induction l as [|x l IH]; cbn; [reflexivity|now rewrite IH]. Qed.

Lemma until_none_map_Some l q : until_none (map Some l ++ None :: q) = l.
Proof. induction l as [|x l IH]; cbn; [reflexivity|now rewrite IH]. Qed.

(** ** The Redis helper: written before put *)

Lemma data_items_app_one l item :
  data_items (l ++ [EData item]) = data_items l ++ [item].
Proof.
  induction l as [|[x|] l IH]; cbn; [reflexivity| |assumption].
  now rewrite IH.
Qed.

Lemma data_items_app_end l : data_items (l ++ [EEnd]) = data_items l.
Proof.
  induction l as [|[x|] l IH]; cbn; [reflexivity| |assumption].
  now rewrite IH.
Qed.

Lemma paired_except msg : paired (except_branch RedisRiverProvider msg).
Proof. repeat constructor. Qed.

Lemma paired_after_return c t : paired (after_return RedisRiverProvider c t).
Proof. repeat constructor. Qed.

Lemma paired_run_stream ops : paired (run_stream RedisRiverProvider ops).
Proof.
  induction ops as [|op ops IH]; [constructor|].
  destruct op; cbn; repeat constructor; assumption.
Qed.

Create HintDb river discriminated.
#[local] Hint Constructors paired : river.
#[local] Hint Resolve paired_except paired_after_return paired_run_stream
  : river.

Lemma written_app a b : written (a ++ b) = written a ++ written b.
Proof. unfold written. now rewrite filter_app, map_app. Qed.

Lemma write_inv_step c st : write_inv st -> write_inv (step c st).
Proof.
  intros (Hp & Hw & H). destruct c as [io|]; cbn [step].
  - unfold task_step, write_inv.
    destruct (task st) as [|i k] eqn:Et.
    { rewrite Et. repeat split; assumption. }
    destruct H as [[Hpair Ho] | (item & k' & Ht & Hpair & Ho)].
    + inversion Hpair as [ | item k0 Hk | b k0 Hk | k0 Hk | k0 Hk | k0 ];
        subst.
      * (* IWrite *)
        cbn [provider redis_stream offered task published].
        split; [assumption|]. split.
        { rewrite written_app. destruct io; cbn.
          - rewrite data_items_app_one. now rewrite Hw.
          - rewrite app_nil_r. assumption. }
        right. exists item, k0. repeat split; [assumption|].
        rewrite map_app, Ho. reflexivity.
      * (* IEndMarker *)
        destruct io as [|msg].
        { cbn [provider redis_stream offered task published].
          split; [assumption|]. split.
          - rewrite data_items_app_end. assumption.
          - left. split; assumption. }
        { cbn [set_task provider redis_stream offered task published].
          split; [assumption|]. split; [assumption|].
          left. split; [|assumption].
          rewrite Hp. destruct b; auto with river. }
      * (* IPut None *)
        cbn [provider redis_stream offered task published].
        split; [assumption|]. split; [assumption|].
        left. split; [assumption|].
        rewrite some_items_app. cbn. now rewrite app_nil_r.
      * (* ISleep *)
        cbn [set_task provider redis_stream offered task published].
        split; [assumption|]. split; [assumption|]. left. split; assumption.
      * (* IReturn *)
        cbn [set_task provider redis_stream offered task published].
        split; [assumption|]. split; [assumption|]. left.
        split; [|assumption]. rewrite Hp. auto with river.
    + injection Ht as -> ->.
      cbn [provider redis_stream offered task published].
      split; [assumption|]. split; [assumption|].
      left. split; [assumption|].
      rewrite some_items_app. cbn. assumption.
  - unfold drain_step, write_inv. destruct (draining st);
      [|repeat split; assumption].
    destruct (queue st) as [|[item|] q];
      cbn [provider redis_stream offered task published];
      repeat split; try assumption.
    rewrite Hp. assumption.
Qed.

Lemma write_inv_start env sid ops :
  write_inv (start_stream RedisRiverProvider env sid ops).
Proof.
  split; [reflexivity|]. split; [reflexivity|].
  left. split; [apply paired_run_stream|reflexivity].
Qed.

Lemma write_inv_exec env sid ops sched :
  write_inv (exec sched (start_stream RedisRiverProvider env sid ops)).
Proof.
  apply exec_invariant; [intros c st; apply write_inv_step|].
  apply write_inv_start.
Qed.

(** ** Runs in which every Redis call succeeds: the stream and the queue
       history at the end of the task are fixed by the runner and by the
       count read at return *)

Lemma expand_after_return p c c0 t :
  expand p c t (after_return p c0 t) = after_return p c0 t.
Proof. destruct p; reflexivity. Qed.

Lemma final_task_step io st c :
  io_ok io = true ->
  final_stream c (task_step io st) = final_stream (count_at_return st c) st
  /\ final_published c (task_step io st)
     = final_published (count_at_return st c) st.
Proof.
  intros Hio. unfold final_stream, final_published, count_at_return, task_step.
  destruct (task st) as [|[item|b|x| |] k] eqn:Et.
  - rewrite Et. split; reflexivity.
  - rewrite Hio. cbn. rewrite <- !app_assoc. split; reflexivity.
  - destruct io; [|discriminate]. cbn. rewrite <- !app_assoc.
    split; reflexivity.
  - cbn. rewrite <- !app_assoc. split; reflexivity.
  - cbn. split; reflexivity.
  - cbn [set_task provider total_time_ms_read task redis_stream published].
    rewrite expand_after_return. split; reflexivity.
Qed.

Lemma final_drain_step st c :
  provider st = RedisRiverProvider ->
  final_stream c (drain_step st) = final_stream c st
  /\ final_published c (drain_step st) = final_published c st.
Proof.
  intros Hp. unfold final_stream, final_published, drain_step.
  destruct (draining st); [|split; reflexivity].
  destruct (queue st) as [|[item|] q]; try (split; reflexivity).
  cbn [provider total_time_ms_read task redis_stream published].
  rewrite Hp. split; reflexivity.
Qed.

Lemma final_exec sched : forall st,
  all_io_ok sched = true -> provider st = RedisRiverProvider ->
  exists c0 : nat -> nat, forall c,
    final_stream c (exec sched st) = final_stream (c0 c) st
    /\ final_published c (exec sched st) = final_published (c0 c) st.
Proof.
  induction sched as [|ch sched IH]; intros st Hok Hp.
  - exists (fun c => c). intros c. split; reflexivity.
  - cbn [all_io_ok forallb] in Hok. apply andb_true_iff in Hok.
    destruct Hok as [Hch Hok]. rewrite exec_cons.
    destruct (IH (step ch st) Hok) as (c0 & Hc0).
    { rewrite (proj1 (step_provider ch st)). exact Hp. }
    destruct ch as [io|]; cbn [step choice_ok] in *.
    + exists (fun c => count_at_return st (c0 c)). intros c.
      destruct (Hc0 c) as [H1 H2].
      destruct (final_task_step io st (c0 c) Hch) as [H3 H4].
      split; congruence.
    + exists c0. intros c. destruct (Hc0 c) as [H1 H2].
      destruct (final_drain_step st (c0 c) Hp) as [H3 H4].
      split; congruence.
Qed.

Lemma finished_run env sid ops sched :
  let st := exec sched (start_stream RedisRiverProvider env sid ops) in
  all_io_ok sched = true -> finished st = true ->
  exists c seen q,
    redis_stream st = stream_of c (elapsed_ms env) ops
    /\ puts_of c (elapsed_ms env) ops = map Some seen ++ None :: q
    /\ live st = start_chunk RedisRiverProvider sid (uuid4 env) :: seen.
Proof.
  intros st Hok Hfin.
  destruct (final_exec sched (start_stream RedisRiverProvider env sid ops)
                       Hok eq_refl) as (c0 & Hc0).
  destruct (Hc0 0) as [Hs Hq]. fold st in Hs, Hq.
  destruct (queue_inv_exec RedisRiverProvider env sid ops sched)
    as (seen & Hl & Hpub). fold st in Hl, Hpub.
  unfold finished in Hfin.
  destruct (task st) as [|i k] eqn:Et; [|discriminate].
  apply negb_true_iff in Hfin. rewrite Hfin in Hpub.
  unfold final_stream, final_published in Hs, Hq. rewrite Et in Hs, Hq.
  destruct (exec_provider sched (start_stream RedisRiverProvider env sid ops))
    as [Hp Ht]. fold st in Hp, Ht.
  cbn in Hs, Hq. rewrite !app_nil_r in Hs, Hq.
  exists (c0 0), seen, (queue st). repeat split.
  - exact Hs.
  - unfold puts_of. rewrite <- Hq. exact Hpub.
  - exact Hl.
Qed.

Lemma replay_stream_of c t ops :
  replay (stream_of c t ops) = until_none (puts_of c t ops).
Proof.
  unfold stream_of, puts_of.
  induction ops as [|op ops IH]; [reflexivity|].
  destruct op; cbn; try rewrite IH; try reflexivity; exact IH.
Qed.



(** ** The provider never yields [aborted] *)

Lemma instr_ok_run_stream p ops : forallb instr_ok (run_stream p ops) = true.
Proof.
  induction ops as [|op ops IH]; [reflexivity|].
  destruct op, p; cbn; try exact IH; reflexivity.
Qed.

Lemma abort_free_step c st : abort_free st -> abort_free (step c st).
Proof.
  intros (Hl & Hq & Ht). destruct c as [io|]; cbn [step].
  - unfold task_step, abort_free.
    destruct (task st) as [|i k] eqn:Et; [rewrite Et; auto|].
    cbn [forallb] in Ht. apply andb_true_iff in Ht. destruct Ht as [Hi Hk].
    destruct i as [item|b|x| |]; cbn [set_task live queue task].
    + auto.
    + destruct io; cbn [set_task live queue task]; [auto|].
      repeat split; auto. destruct b; [reflexivity|].
      now destruct (provider st).
    + cbn in Hi. repeat split; auto. rewrite forallb_app, Hq. cbn.
      now rewrite Hi.
    + auto.
    + repeat split; auto. now destruct (provider st).
  - unfold drain_step, abort_free. destruct (draining st); [|auto].
    destruct (queue st) as [|[item|] q] eqn:Eq; cbn [live queue task].
    + rewrite Eq. auto.
    + cbn in Hq. apply andb_true_iff in Hq. destruct Hq as [Hi Hq].
      repeat split; auto. rewrite forallb_app, Hl. cbn. now rewrite Hi.
    + repeat split; auto.
      destruct (provider st); [|exact Ht].
      destruct (task st); reflexivity.
Qed.

Lemma live_never_aborted p env sid ops sched :
  existsb is_aborted (live (exec sched (start_stream p env sid ops))) = false.
Proof.
  assert (H : abort_free (exec sched (start_stream p env sid ops))).
  { apply exec_invariant; [intros c st; apply abort_free_step|].
    split; [now destruct p|]. split; [reflexivity|].
    apply instr_ok_run_stream. }
  destruct H as [H _].
  induction (live (exec sched (start_stream p env sid ops))) as [|x l IH];
    [reflexivity|].
  cbn in H |- *. apply andb_true_iff in H. destruct H as [Hx Hl].
  unfold not_aborted in Hx. apply negb_true_iff in Hx. rewrite Hx.
  now apply IH.
Qed.

(** ** What the consumer receives once the count has been read *)

Lemma task_step_live io st :
  live (task_step io st) = live st
  /\ draining (task_step io st) = draining st.
Proof.
  unfold task_step. destruct (task st) as [|[item|b|x| |] k];
    try (split; reflexivity).
  destruct io; split; reflexivity.
Qed.

Lemma live_after_loop_ended sched : forall st,
  draining st = false -> live (exec sched st) = live st.
Proof.
  induction sched as [|c sched IH]; intros st Hd; [reflexivity|].
  rewrite exec_cons. destruct c as [io|]; cbn [step].
  - destruct (task_step_live io st) as [Hl Hdr].
    rewrite IH by congruence. exact Hl.
  - unfold drain_step. rewrite Hd. now apply IH.
Qed.

Lemma until_none_app_none l q :
  until_none (map Some l ++ None :: q) = l.
Proof. apply until_none_map_Some. Qed.

(** When the task has passed its return and every Redis call succeeds, a
    finished run has delivered what is in the queue and what the task
    still puts, up to the first [None]. *)
Lemma exec_no_return sched : forall st,
  all_io_ok sched = true ->
  forallb not_return (task st) = true ->
  draining st = true ->
  finished (exec sched st) = true ->
  live (exec sched st)
  = live st ++ until_none (queue st ++ flat_map put_of (task st)).
Proof.
  induction sched as [|c sched IH]; intros st Hok Hnr Hd Hfin.
  - cbn in Hfin. unfold finished in Hfin. rewrite Hd in Hfin.
    destruct (task st); discriminate.
  - cbn [all_io_ok forallb] in Hok. apply andb_true_iff in Hok.
    destruct Hok as [Hc Hok]. rewrite exec_cons in Hfin |- *.
    destruct c as [io|]; cbn [step choice_ok] in *.
    + unfold task_step in *.
      destruct (task st) as [|i k] eqn:Et.
      { rewrite (IH st Hok) by (rewrite ?Et; auto). now rewrite Et. }
      cbn [forallb] in Hnr. apply andb_true_iff in Hnr.
      destruct Hnr as [Hi Hk].
      destruct i as [item|b|x| |]; [| | | |discriminate].
      * rewrite Hc in *. rewrite IH; auto.
      * destruct io; [|discriminate]. rewrite IH; auto.
      * rewrite IH; auto. cbn. now rewrite <- app_assoc.
      * rewrite IH; auto.
    + unfold drain_step in *. rewrite Hd in *.
      destruct (queue st) as [|[item|] q] eqn:Eq.
      * rewrite (IH st Hok Hnr Hd Hfin). now rewrite Eq.
      * rewrite IH; auto. cbn. now rewrite <- app_assoc.
      * rewrite live_after_loop_ended by reflexivity.
        cbn. now rewrite app_nil_r.
Qed.

End EngineFacts.

(* ================================================================== *)
(** * [json.loads] reads back what [json.dumps] wrote *)
(* ================================================================== *)

Module JsonFacts.
Import Py Token Aux PyFacts JsonShape.
Local Open Scope N_scope.

Ltac Zify.zify_post_hook ::= Z.to_euclidean_division_equations.

(** Case analysis on the bits of a character that a definition compares
    with a literal. *)
Ltac bits c :=
  destruct c as [|c];
  [ try solve [reflexivity | congruence | discriminate]
  | do 18 (first [ solve [reflexivity | congruence | discriminate]
                 | destruct c as [c|c|] ]) ].

Lemma str_eqb_eq a : forall b, str_eqb a b = true -> a = b.
Proof.
  induction a as [|x a IH]; intros [|y b] H; try discriminate H;
    [reflexivity|].
  cbn in H. apply andb_true_iff in H as [Hxy H].
  apply N.eqb_eq in Hxy. subst. now rewrite (IH b H).
Qed.

Lemma str_eqb_sym a : forall b, str_eqb a b = str_eqb b a.
Proof.
  induction a as [|x a IH]; intros [|y b]; try reflexivity.
  cbn. now rewrite N.eqb_sym, IH.
Qed.

Lemma str_eqb_refl' a : str_eqb a a = true.
Proof. induction a as [|x a IH]; [reflexivity|]. cbn. now rewrite N.eqb_refl. Qed.

(** ** Numbers *)

Lemma match_integer_minus r :
  match_integer (45 :: r)
  = match r with
    | [] => None
    | d :: r' =>
      if d =? 48 then Some ([45; 48], r')
      else if is_digit d then
        let (ds, rest) := span_digits r' in Some (45 :: d :: ds, rest)
      else None
    end.
Proof.
  unfold match_integer. destruct r as [|d r']; [reflexivity|].
  cbv beta iota. unfold is_digit. bits d.
Qed.

Lemma match_integer_other c r :
  c <> 45 ->
  match_integer (c :: r)
  = if c =? 48 then Some ([48], r)
    else if is_digit c then
      let (ds, rest) := span_digits r in Some (c :: ds, rest)
    else None.
Proof.
  intros H. unfold match_integer, is_digit. bits c.
Qed.

Lemma match_frac_cons c r :
  match_frac (c :: r)
  = if c =? 46 then
      match span_digits r with
      | ([], _) => ([], c :: r)
      | (ds, rest) => (46 :: ds, rest)
      end
    else ([], c :: r).
Proof. unfold match_frac. bits c. Qed.

Lemma exp_sign_cons c r :
  exp_sign (c :: r)
  = if c =? 43 then ([43], r) else if c =? 45 then ([45], r) else ([], c :: r).
Proof. unfold exp_sign. bits c. Qed.

Lemma match_exp_cons e r :
  match_exp (e :: r)
  = if (e =? 101) || (e =? 69) then
      let (sign, r1) := exp_sign r in
      match span_digits r1 with
      | ([], _) => ([], e :: r)
      | (ds, rest) => (e :: sign ++ ds, rest)
      end
    else ([], e :: r).
Proof. reflexivity. Qed.

Lemma number_end_cons c rest :
  number_end (c :: rest) = true ->
  is_digit c = false /\ (c =? 46) = false /\ (c =? 101) = false
  /\ (c =? 69) = false /\ (c =? 43) = false /\ (c =? 45) = false.
Proof.
  unfold number_end. intros H. apply negb_true_iff in H.
  repeat (apply orb_false_iff in H; destruct H as [H ?]).
  repeat split; assumption.
Qed.

Lemma span_digits_app s : forall ds r rest,
  span_digits s = (ds, r) -> number_end rest = true ->
  span_digits (s ++ rest) = (ds, r ++ rest).
Proof.
  induction s as [|c s IH]; intros ds r rest H Hend.
  - cbn in H. injection H as <- <-. cbn [app].
    destruct rest as [|c rest]; [reflexivity|].
    destruct (number_end_cons _ _ Hend) as (Hd & _).
    cbn [span_digits]. now rewrite Hd.
  - cbn [app span_digits] in *. destruct (is_digit c).
    + destruct (span_digits s) as [ds' r'] eqn:E. injection H as <- <-.
      now rewrite (IH _ _ _ eq_refl Hend).
    + injection H as <- <-. reflexivity.
Qed.

Lemma match_integer_app s i r rest :
  match_integer s = Some (i, r) -> number_end rest = true ->
  match_integer (s ++ rest) = Some (i, r ++ rest).
Proof.
  intros H Hend. destruct s as [|c s]; [discriminate H|]. cbn [app].
  destruct (N.eq_dec c 45) as [->|Hc].
  - rewrite match_integer_minus in H. rewrite match_integer_minus.
    destruct s as [|d s]; [discriminate H|]. cbn [app].
    destruct (d =? 48); [injection H as <- <-; reflexivity|].
    destruct (is_digit d); [|discriminate H].
    destruct (span_digits s) as [ds r'] eqn:E. injection H as <- <-.
    now rewrite (span_digits_app _ _ _ _ E Hend).
  - rewrite (match_integer_other _ _ Hc) in H.
    rewrite (match_integer_other _ _ Hc).
    destruct (c =? 48); [injection H as <- <-; reflexivity|].
    destruct (is_digit c); [|discriminate H].
    destruct (span_digits s) as [ds r'] eqn:E. injection H as <- <-.
    now rewrite (span_digits_app _ _ _ _ E Hend).
Qed.

Lemma match_frac_app s f r rest :
  match_frac s = (f, r) -> number_end rest = true ->
  match_frac (s ++ rest) = (f, r ++ rest).
Proof.
  intros H Hend. destruct s as [|c s].
  - cbn in H. injection H as <- <-. cbn [app].
    destruct rest as [|c rest]; [reflexivity|].
    destruct (number_end_cons _ _ Hend) as (_ & Hdot & _).
    now rewrite match_frac_cons, Hdot.
  - cbn [app]. rewrite match_frac_cons in H. rewrite match_frac_cons.
    destruct (c =? 46); [|injection H as <- <-; reflexivity].
    destruct (span_digits s) as [ds r'] eqn:E.
    rewrite (span_digits_app _ _ _ _ E Hend).
    destruct ds; injection H as <- <-; reflexivity.
Qed.

Lemma exp_sign_app r rest :
  number_end rest = true ->
  exp_sign (r ++ rest) = (fst (exp_sign r), snd (exp_sign r) ++ rest).
Proof.
  intros Hend. destruct r as [|c r].
  - cbn [app]. destruct rest as [|c rest]; [reflexivity|].
    destruct (number_end_cons _ _ Hend) as (_ & _ & _ & _ & Hp & Hm).
    now rewrite exp_sign_cons, Hp, Hm.
  - cbn [app]. rewrite !exp_sign_cons.
    destruct (c =? 43); [reflexivity|]. destruct (c =? 45); reflexivity.
Qed.

Lemma match_exp_app s e r rest :
  match_exp s = (e, r) -> number_end rest = true ->
  match_exp (s ++ rest) = (e, r ++ rest).
Proof.
  intros H Hend. destruct s as [|c s].
  - cbn in H. injection H as <- <-. cbn [app].
    destruct rest as [|c rest]; [reflexivity|].
    destruct (number_end_cons _ _ Hend) as (_ & _ & He & HE & _).
    now rewrite match_exp_cons, He, HE.
  - cbn [app]. rewrite match_exp_cons in H. rewrite match_exp_cons.
    destruct ((c =? 101) || (c =? 69)); [|injection H as <- <-; reflexivity].
    rewrite (exp_sign_app _ _ Hend).
    destruct (exp_sign s) as [sign r1]. cbn [fst snd].
    destruct (span_digits r1) as [ds r'] eqn:E.
    rewrite (span_digits_app _ _ _ _ E Hend).
    destruct ds; injection H as <- <-; reflexivity.
Qed.

Lemma match_number_app s t r rest :
  match_number s = Some (t, r) -> number_end rest = true ->
  match_number (s ++ rest) = Some (t, r ++ rest).
Proof.
  unfold match_number. intros H Hend.
  destruct (match_integer s) as [[i r0]|] eqn:Ei; [|discriminate H].
  rewrite (match_integer_app _ _ _ _ Ei Hend).
  destruct (match_frac r0) as [f r1] eqn:Ef.
  rewrite (match_frac_app _ _ _ _ Ef Hend).
  destruct (match_exp r1) as [e r2] eqn:Ee.
  rewrite (match_exp_app _ _ _ _ Ee Hend).
  injection H as <- <-. reflexivity.
Qed.

Lemma delimited_number_end rest : delimited rest = true -> number_end rest = true.
Proof.
  destruct rest as [|c rest]; [reflexivity|]. unfold delimited, number_end.
  intros H. apply orb_true_iff in H as [H|H];
    [apply orb_true_iff in H as [H|H]|];
    apply N.eqb_eq in H; subst; reflexivity.
Qed.

(** The first character of a number that [NUMBER_RE] matches. *)
Lemma match_number_head s t r :
  match_number s = Some (t, r) ->
  exists c s', s = c :: s' /\ (c = 45 \/ is_digit c = true).
Proof.
  unfold match_number. intros H.
  destruct (match_integer s) as [[i r0]|] eqn:Ei; [|discriminate H].
  destruct s as [|c s']; [discriminate Ei|]. exists c, s'.
  split; [reflexivity|].
  destruct (N.eq_dec c 45) as [->|Hc]; [now left|right].
  rewrite (match_integer_other _ _ Hc) in Ei.
  destruct (c =? 48) eqn:E0; [apply N.eqb_eq in E0; now subst|].
  destruct (is_digit c); [reflexivity|discriminate Ei].
Qed.

Lemma scan_constant_number s t r :
  match_number s = Some (t, r) -> scan_constant s = Some (JNumber t, r).
Proof.
  intros H. destruct (match_number_head _ _ _ H) as (c & s' & -> & Hc).
  unfold scan_constant.
  assert (Hn : (110 =? c) = false /\ (116 =? c) = false /\ (102 =? c) = false).
  { destruct Hc as [->|Hc]; [repeat split; reflexivity|].
    unfold is_digit in Hc. nbool. repeat split; apply N.eqb_neq; lia. }
  destruct Hn as (H1 & H2 & H3).
  change (strip_prefix (lit "null") (c :: s'))
    with (if 110 =? c then strip_prefix (lit "ull") s' else None).
  change (strip_prefix (lit "true") (c :: s'))
    with (if 116 =? c then strip_prefix (lit "rue") s' else None).
  change (strip_prefix (lit "false") (c :: s'))
    with (if 102 =? c then strip_prefix (lit "alse") s' else None).
  now rewrite H1, H2, H3, H.
Qed.

Lemma scan_once_constant fuel c s :
  (c =? 34) = false -> (c =? 123) = false -> (c =? 91) = false ->
  scan_once (S fuel) (c :: s) = scan_constant (c :: s).
Proof. intros H1 H2 H3. cbn [scan_once]. now rewrite H1, H2, H3. Qed.

(** A number literal is read back, whatever delimiter follows it. *)
Lemma scan_once_number fuel text rest :
  number_literal text = true -> delimited rest = true ->
  scan_once (S fuel) (text ++ rest) = Some (JNumber text, rest).
Proof.
  unfold number_literal. intros H Hd.
  destruct (match_number text) as [[t [|x r]]|] eqn:E; [|discriminate H|].
  - apply str_eqb_eq in H. subst t.
    pose proof (match_number_app _ _ _ _ E (delimited_number_end _ Hd)) as Happ.
    destruct (match_number_head _ _ _ E) as (c & s' & -> & Hc).
    cbn [app] in *. rewrite scan_once_constant.
    + now apply scan_constant_number.
    + destruct Hc as [->|Hc]; [reflexivity|].
      unfold is_digit in Hc. nbool. apply N.eqb_neq. lia.
    + destruct Hc as [->|Hc]; [reflexivity|].
      unfold is_digit in Hc. nbool. apply N.eqb_neq. lia.
    + destruct Hc as [->|Hc]; [reflexivity|].
      unfold is_digit in Hc. nbool. apply N.eqb_neq. lia.
  - apply orb_true_iff in H as [H|H]; [apply orb_true_iff in H as [H|H]|];
      apply str_eqb_eq in H; subst text; reflexivity.
Qed.

(** ** The first character of a value *)

Lemma skip_ws_start c s : is_ws c = false -> skip_ws (c :: s) = c :: s.
Proof. intros H. cbn [skip_ws]. now rewrite H. Qed.

Lemma value_start_digit c : c = 45 \/ is_digit c = true -> value_start c = true.
Proof.
  intros [->|H]; [reflexivity|]. unfold is_digit in H. nbool.
  unfold value_start, is_ws.
  rewrite !(eqb_false c) by lia. rewrite (ltb_true c 128) by lia. reflexivity.
Qed.

Lemma number_literal_head text :
  number_literal text = true ->
  exists c s, text = c :: s /\ value_start c = true.
Proof.
  unfold number_literal. intros H.
  destruct (match_number text) as [[t [|x r]]|] eqn:E; [|discriminate H|].
  - destruct (match_number_head _ _ _ E) as (c & s' & -> & Hc).
    exists c, s'. split; [reflexivity|]. now apply value_start_digit.
  - apply orb_true_iff in H as [H|H]; [apply orb_true_iff in H as [H|H]|];
      apply str_eqb_eq in H; subst text; eexists; eexists;
      (split; [reflexivity|reflexivity]).
Qed.

Lemma dumps_start v :
  wf_json v = true ->
  exists c s, json_dumps v = c :: s /\ value_start c = true.
Proof.
  destruct v as [|[|]|text|str|xs|kvs]; cbn [wf_json json_dumps]; intros H;
    try (eexists; eexists; split; reflexivity).
  now apply number_literal_head.
Qed.

Lemma skip_ws_dumps v rest :
  wf_json v = true -> skip_ws (json_dumps v ++ rest) = json_dumps v ++ rest.
Proof.
  intros H. destruct (dumps_start v H) as (c & s & -> & Hc).
  cbn [app]. apply skip_ws_start.
  unfold value_start in Hc. nbool. assumption.
Qed.

(** ** Induction over values *)

Lemma json_ind' (P : json -> Prop) :
  P JNull -> (forall b, P (JBool b)) -> (forall t, P (JNumber t)) ->
  (forall s, P (JString s)) ->
  (forall xs, Forall P xs -> P (JArray xs)) ->
  (forall kvs, Forall (fun kv => P (snd kv)) kvs -> P (JObject kvs)) ->
  forall v, P v.
Proof.
  intros Hn Hb Hnum Hs Ha Ho. fix IH 1. intros [|b|t|s|xs|kvs].
  - exact Hn.
  - apply Hb.
  - apply Hnum.
  - apply Hs.
  - apply Ha. revert xs. fix IHxs 1. intros [|x xs]; constructor;
      [apply IH|apply IHxs].
  - apply Ho. revert kvs. fix IHkvs 1. intros [|kv kvs]; constructor;
      [apply IH|apply IHkvs].
Qed.

(** ** The text of lists and dicts *)

Lemma join_elements x xs :
  join (lit ", ") (map json_dumps (x :: xs)) = elements x xs.
Proof.
  revert x. induction xs as [|y xs IH]; intros x.
  - cbn [map join elements]. now rewrite app_nil_r.
  - change (join (lit ", ") (map json_dumps (x :: y :: xs)))
      with (json_dumps x ++ lit ", " ++ join (lit ", ") (map json_dumps (y :: xs))).
    rewrite IH. reflexivity.
Qed.

Lemma dumps_array x xs :
  json_dumps (JArray (x :: xs)) = 91 :: elements x xs ++ [93].
Proof.
  change (json_dumps (JArray (x :: xs)))
    with (91 :: join (lit ", ") (map json_dumps (x :: xs)) ++ [93]).
  now rewrite join_elements.
Qed.

Lemma join_members k v kvs :
  join (lit ", ")
       (map (fun kv => encode_basestring_ascii (fst kv) ++ lit ": "
                       ++ json_dumps (snd kv)) ((k, v) :: kvs))
  = 34 :: members k v kvs.
Proof.
  revert k v. induction kvs as [|[k' v'] kvs IH]; intros k v.
  - cbn [map join members fst snd]. unfold encode_basestring_ascii.
    change (lit ": ") with [58; 32].
    cbn [app]. rewrite <- !app_assoc. cbn [app]. now rewrite app_nil_r.
  - match goal with
    | |- join ?sep (map ?f ((k, v) :: (k', v') :: kvs)) = _ =>
      change (join sep (map f ((k, v) :: (k', v') :: kvs)))
        with (f (k, v) ++ sep ++ join sep (map f ((k', v') :: kvs)))
    end.
    rewrite IH. cbn [fst snd members]. unfold encode_basestring_ascii.
    change (lit ": ") with [58; 32]. change (lit ", ") with [44; 32].
    cbn [app]. rewrite <- ?app_assoc. cbn [app]. rewrite <- ?app_assoc.
    reflexivity.
Qed.

Lemma dumps_object k v kvs :
  json_dumps (JObject ((k, v) :: kvs)) = 123 :: 34 :: members k v kvs ++ [125].
Proof.
  change (json_dumps (JObject ((k, v) :: kvs)))
    with (123 :: join (lit ", ")
                   (map (fun kv => encode_basestring_ascii (fst kv) ++ lit ": "
                                   ++ json_dumps (snd kv)) ((k, v) :: kvs))
              ++ [125]).
  now rewrite join_members.
Qed.

Lemma json_size_array xs : json_size (JArray xs) = S (sizes xs).
Proof. reflexivity. Qed.

Lemma json_size_object kvs : json_size (JObject kvs) = S (pair_sizes kvs).
Proof. reflexivity. Qed.

(** ** Lists and dicts are read back *)

Lemma JSONArray_values_S fuel values s :
  JSONArray_values (S fuel) values s =
  match scan_once fuel s with
  | None => None
  | Some (value, s1) =>
    match skip_ws s1 with
    | 93 :: rest => Some (JArray (values ++ [value]), rest)
    | 44 :: s2 => JSONArray_values fuel (values ++ [value]) (skip_ws s2)
    | _ => None
    end
  end.
Proof. reflexivity. Qed.

Lemma scan_once_array fuel c s :
  value_start c = true ->
  scan_once (S fuel) (91 :: c :: s) = JSONArray_values fuel [] (c :: s).
Proof.
  intros H. unfold value_start in H. nbool.
  change (scan_once (S fuel) (91 :: c :: s))
    with (match skip_ws (c :: s) with
          | 93 :: rest => Some (JArray [], rest)
          | r' => JSONArray_values fuel [] r'
          end).
  rewrite skip_ws_start by assumption.
  bits c.
Qed.

Lemma elements_start x xs rest :
  wf_json x = true ->
  exists c s, elements x xs ++ rest = c :: s /\ value_start c = true.
Proof.
  intros H. destruct (dumps_start x H) as (c & s & E & Hc).
  exists c. destruct xs; cbn [elements]; rewrite E; cbn [app];
    eexists; (split; [reflexivity|exact Hc]).
Qed.

Lemma scan_elements xs : forall x acc fuel rest,
  Forall (fun v => wf_json v = true ->
                   forall fuel rest,
                     (json_size v <= fuel)%nat -> delimited rest = true ->
                     scan_once fuel (json_dumps v ++ rest) = Some (v, rest))
         (x :: xs) ->
  forallb wf_json (x :: xs) = true ->
  (sizes (x :: xs) <= fuel)%nat ->
  JSONArray_values fuel acc (elements x xs ++ 93 :: rest)
  = Some (JArray (acc ++ x :: xs), rest).
Proof.
  induction xs as [|y xs IH]; intros x acc fuel rest HF Hwf Hsz;
    inversion HF as [|? ? Px HF']; subst;
    cbn [forallb] in Hwf; apply andb_true_iff in Hwf as [Hx Hwf];
    destruct fuel as [|fuel]; try (cbn [sizes] in Hsz; lia);
    rewrite JSONArray_values_S.
  - cbn [elements]. rewrite app_nil_r.
    rewrite (Px Hx fuel (93 :: rest)); [reflexivity| |reflexivity].
    cbn [sizes] in Hsz. lia.
  - cbn [elements]. rewrite <- app_assoc. cbn [app].
    rewrite (Px Hx fuel); [| |reflexivity].
    2:{ cbn [sizes] in Hsz. lia. }
    change (skip_ws (44 :: ?t)) with (44 :: t). cbv beta iota.
    change (skip_ws (32 :: ?t)) with (skip_ws t).
    assert (Hy : wf_json y = true).
    { cbn [forallb] in Hwf. now apply andb_true_iff in Hwf as [Hy _]. }
    destruct (elements_start y xs (93 :: rest) Hy) as (c & s & E & Hc).
    rewrite E, skip_ws_start, <- E.
    2:{ unfold value_start in Hc. nbool. assumption. }
    rewrite (IH y (acc ++ [x]) fuel rest HF' Hwf).
    + now rewrite <- app_assoc.
    + cbn [sizes] in Hsz |- *. lia.
Qed.

Lemma members_app k v kvs rest :
  members k v kvs ++ rest
  = escape_body k
    ++ 34 :: 58 :: 32
       :: json_dumps v
          ++ match kvs with
             | [] => rest
             | (k', v') :: r => 44 :: 32 :: 34 :: members k' v' r ++ rest
             end.
Proof.
  destruct kvs as [|[k' v'] r]; cbn [members];
    rewrite <- app_assoc; cbn [app]; rewrite <- app_assoc; reflexivity.
Qed.

Lemma scan_members kvs : forall k v acc fuel rest,
  Forall (fun kv => wf_json (snd kv) = true ->
                    forall fuel rest,
                      (json_size (snd kv) <= fuel)%nat ->
                      delimited rest = true ->
                      scan_once fuel (json_dumps (snd kv) ++ rest)
                      = Some (snd kv, rest))
         ((k, v) :: kvs) ->
  forallb (fun kv => valid_str (fst kv) && wf_json (snd kv)) ((k, v) :: kvs)
  = true ->
  (pair_sizes ((k, v) :: kvs) <= fuel)%nat ->
  JSONObject_pairs fuel acc (members k v kvs ++ 125 :: rest)
  = Some (JObject (dict_of_pairs (acc ++ (k, v) :: kvs)), rest).
Proof.
  induction kvs as [|[k' v'] kvs IH]; intros k v acc fuel rest HF Hwf Hsz;
    inversion HF as [|? ? Pv HF']; subst; cbn [snd] in Pv;
    cbn [forallb fst snd] in Hwf; apply andb_true_iff in Hwf as [Hkv Hwf];
    apply andb_true_iff in Hkv as [Hk Hv];
    destruct fuel as [|fuel]; try (cbn [pair_sizes] in Hsz; lia);
    cbn [pair_sizes snd] in Hsz;
    rewrite JSONObject_pairs_S, members_app,
            (scanstring_escape_body _ _ Hk);
    change (skip_ws (58 :: ?t)) with (58 :: t); cbv beta iota;
    change (skip_ws (32 :: ?t)) with (skip_ws t);
    rewrite (skip_ws_dumps _ _ Hv).
  - rewrite (Pv Hv fuel (125 :: rest)); [reflexivity|lia|reflexivity].
  - rewrite (Pv Hv fuel); [|lia|reflexivity].
    change (skip_ws (44 :: ?t)) with (44 :: t). cbv beta iota.
    change (skip_ws (32 :: 34 :: ?t)) with (34 :: t). cbv beta iota.
    rewrite (IH k' v' (acc ++ [(k, v)]) fuel rest HF').
    + now rewrite <- app_assoc.
    + exact Hwf.
    + cbn [pair_sizes snd]. lia.
Qed.

(** ** A dict with distinct keys is built as it is written *)

Lemma dict_set_fresh d k v :
  has_key k d = false -> dict_set d k v = d ++ [(k, v)].
Proof.
  induction d as [|[k' v'] d IH]; intros H; [reflexivity|].
  cbn [has_key existsb fst] in H. apply orb_false_iff in H as [Hk H].
  cbn [dict_set app]. rewrite Hk. f_equal. now apply IH.
Qed.

Lemma has_key_app k a b : has_key k (a ++ b) = has_key k a || has_key k b.
Proof. unfold has_key. apply existsb_app. Qed.

Lemma distinct_keys_snoc acc k v :
  distinct_keys acc = true -> has_key k acc = false ->
  distinct_keys (acc ++ [(k, v)]) = true.
Proof.
  induction acc as [|[k' v'] acc IH]; intros Hd Hk; [reflexivity|].
  cbn [distinct_keys app] in *. apply andb_true_iff in Hd as [Hn Hd].
  cbn [has_key existsb fst] in Hk. apply orb_false_iff in Hk as [Hkk Hk].
  rewrite (IH Hd Hk), andb_true_r. apply negb_true_iff in Hn.
  apply negb_true_iff. rewrite has_key_app, Hn. cbn.
  now rewrite str_eqb_sym, Hkk.
Qed.

Lemma fold_dict_set kvs : forall acc,
  distinct_keys acc = true -> distinct_keys kvs = true ->
  forallb (fun kv => negb (has_key (fst kv) acc)) kvs = true ->
  fold_left (fun d kv => dict_set d (fst kv) (snd kv)) kvs acc = acc ++ kvs.
Proof.
  induction kvs as [|[k v] kvs IH]; intros acc Ha Hd Hf;
    [now rewrite app_nil_r|].
  cbn [distinct_keys] in Hd. apply andb_true_iff in Hd as [Hk Hd].
  cbn [forallb fst] in Hf. apply andb_true_iff in Hf as [Hka Hf].
  apply negb_true_iff in Hk, Hka.
  cbn [fold_left fst snd]. rewrite (dict_set_fresh _ _ _ Hka).
  rewrite IH; [now rewrite <- app_assoc| |exact Hd|].
  - now apply distinct_keys_snoc.
  - clear IH Hd. induction kvs as [|[k' v'] kvs IHk]; [reflexivity|].
    cbn [forallb fst] in Hf |- *. apply andb_true_iff in Hf as [H1 Hf].
    cbn [has_key existsb fst] in Hk. apply orb_false_iff in Hk as [Hkk Hk].
    rewrite (IHk Hk Hf), andb_true_r.
    apply negb_true_iff in H1. apply negb_true_iff.
    rewrite has_key_app, H1. cbn. now rewrite str_eqb_sym, Hkk.
Qed.

Lemma dict_of_pairs_distinct kvs :
  distinct_keys kvs = true -> dict_of_pairs kvs = kvs.
Proof.
  intros H. unfold dict_of_pairs. rewrite fold_dict_set; try reflexivity;
    [exact H|].
  clear H. induction kvs as [|kv kvs IH]; [reflexivity|]. cbn. exact IH.
Qed.

(** ** Every value is read back *)

Lemma scan_once_dumps v :
  wf_json v = true ->
  forall fuel rest,
    (json_size v <= fuel)%nat -> delimited rest = true ->
    scan_once fuel (json_dumps v ++ rest) = Some (v, rest).
Proof.
  induction v as [|b|text|str|xs IH|kvs IH] using json_ind';
    intros Hwf fuel rest Hsz Hd;
    (destruct fuel as [|fuel]; [cbn in Hsz; lia|]).
  - reflexivity.
  - destruct b; reflexivity.
  - now apply scan_once_number.
  - cbn [json_dumps]. unfold encode_basestring_ascii.
    cbn [app]. rewrite <- app_assoc. cbn [app].
    now apply scan_once_string.
  - destruct xs as [|x xs]; [reflexivity|].
    rewrite dumps_array. cbn [app]. rewrite <- app_assoc. cbn [app].
    cbn [wf_json] in Hwf.
    assert (Hx : wf_json x = true).
    { cbn [forallb] in Hwf. now apply andb_true_iff in Hwf as [Hx _]. }
    destruct (elements_start x xs (93 :: rest) Hx) as (c & s & E & Hc).
    rewrite E, (scan_once_array _ _ _ Hc), <- E.
    rewrite json_size_array in Hsz.
    apply (scan_elements xs x [] fuel rest IH Hwf). lia.
  - destruct kvs as [|[k v] kvs]; [reflexivity|].
    rewrite dumps_object. cbn [app]. rewrite <- app_assoc. cbn [app].
    cbn [wf_json] in Hwf. apply andb_true_iff in Hwf as [Hwf Hdist].
    rewrite json_size_object in Hsz.
    change (scan_once (S fuel) (123 :: 34 :: ?t))
      with (JSONObject_pairs fuel [] t).
    rewrite (scan_members kvs k v [] fuel rest IH Hwf) by lia.
    cbn [app]. now rewrite (dict_of_pairs_distinct _ Hdist).
Qed.

(** ** [json.loads] has fuel enough *)

Lemma sizes_le_length xs : forall x,
  Forall (fun v => wf_json v = true ->
                   (json_size v <= List.length (json_dumps v))%nat) (x :: xs) ->
  forallb wf_json (x :: xs) = true ->
  (sizes (x :: xs) <= List.length (elements x xs) + 1)%nat.
Proof.
  induction xs as [|y xs IH]; intros x HF Hwf;
    inversion HF as [|? ? Px HF']; subst;
    cbn [forallb] in Hwf; apply andb_true_iff in Hwf as [Hx Hwf];
    specialize (Px Hx); cbn [sizes elements].
  - rewrite app_nil_r. lia.
  - specialize (IH y HF' Hwf). cbn [sizes] in IH.
    rewrite length_app. cbn [List.length]. lia.
Qed.

Lemma pair_sizes_le_length kvs : forall k v,
  Forall (fun kv => wf_json (snd kv) = true ->
                    (json_size (snd kv) <= List.length (json_dumps (snd kv)))%nat)
         ((k, v) :: kvs) ->
  forallb (fun kv => valid_str (fst kv) && wf_json (snd kv)) ((k, v) :: kvs)
  = true ->
  (pair_sizes ((k, v) :: kvs) <= List.length (members k v kvs))%nat.
Proof.
  induction kvs as [|[k' v'] kvs IH]; intros k v HF Hwf;
    inversion HF as [|? ? Pv HF']; subst; cbn [snd] in Pv;
    cbn [forallb fst snd] in Hwf; apply andb_true_iff in Hwf as [Hkv Hwf];
    apply andb_true_iff in Hkv as [Hk Hv];
    specialize (Pv Hv); cbn [pair_sizes members snd].
  - rewrite length_app. cbn [List.length]. rewrite length_app.
    cbn [List.length]. lia.
  - specialize (IH k' v' HF' Hwf). cbn [pair_sizes snd] in IH.
    rewrite length_app. cbn [List.length]. rewrite length_app.
    cbn [List.length]. lia.
Qed.

Lemma size_le_length v :
  wf_json v = true -> (json_size v <= List.length (json_dumps v))%nat.
Proof.
  induction v as [|b|text|str|xs IH|kvs IH] using json_ind'; intros Hwf.
  - cbn. lia.
  - destruct b; cbn; lia.
  - cbn [wf_json json_dumps json_size] in *.
    destruct (number_literal_head _ Hwf) as (c & s & -> & _). cbn. lia.
  - cbn. lia.
  - destruct xs as [|x xs]; [cbn; lia|].
    rewrite dumps_array, json_size_array. cbn [wf_json] in Hwf.
    pose proof (sizes_le_length xs x IH Hwf).
    cbn [List.length]. rewrite length_app. cbn [List.length]. lia.
  - destruct kvs as [|[k v] kvs]; [cbn; lia|].
    rewrite dumps_object, json_size_object. cbn [wf_json] in Hwf.
    apply andb_true_iff in Hwf as [Hwf _].
    pose proof (pair_sizes_le_length kvs k v IH Hwf).
    cbn [List.length]. rewrite length_app. cbn [List.length]. lia.
Qed.

Lemma json_loads_start c s :
  (c =? 65279) = false ->
  json_loads (c :: s)
  = match scan_once (2 * List.length (c :: s) + 2) (skip_ws (c :: s)) with
    | Some (v, rest) =>
      match skip_ws rest with
      | [] => Some v
      | _ => None
      end
    | None => None
    end.
Proof. intros H. unfold json_loads. bits c. Qed.

(** [json.loads(json.dumps(v)) == v] *)
Lemma json_loads_dumps v :
  wf_json v = true -> json_loads (json_dumps v) = Some v.
Proof.
  intros Hwf. pose proof (size_le_length v Hwf) as Hsz.
  assert (Hws : skip_ws (json_dumps v) = json_dumps v ++ []).
  { pose proof (skip_ws_dumps v [] Hwf) as H.
    rewrite app_nil_r in H |- *. exact H. }
  assert (Hl : json_loads (json_dumps v)
               = match scan_once (2 * List.length (json_dumps v) + 2)
                                 (skip_ws (json_dumps v)) with
                 | Some (v, rest) =>
                   match skip_ws rest with
                   | [] => Some v
                   | _ => None
                   end
                 | None => None
                 end).
  { destruct (dumps_start v Hwf) as (c & s & E & Hc). rewrite E.
    apply json_loads_start. unfold value_start in Hc. nbool.
    apply N.eqb_neq. lia. }
  rewrite Hl, Hws, (scan_once_dumps v Hwf); [reflexivity|lia|reflexivity].
Qed.

(** ** The text of a value is printable ASCII *)

Lemma printable_ascii c : printable c = true -> is_ascii c = true.
Proof. unfold printable, is_ascii. intros H. nbool. apply N.ltb_lt. lia. Qed.

Lemma forallb_impl (A : Type) (f g : A -> bool) l :
  (forall a, f a = true -> g a = true) ->
  forallb f l = true -> forallb g l = true.
Proof.
  intros H. induction l as [|a l IH]; [reflexivity|]. cbn.
  rewrite !andb_true_iff. intros [Ha Hl]. split; [now apply H|now apply IH].
Qed.

Lemma is_digit_printable c : is_digit c = true -> printable c = true.
Proof.
  unfold is_digit, printable. intros H. nbool.
  rewrite (leb_true 32 c), (leb_true c 126) by lia. reflexivity.
Qed.

Lemma span_digits_printable s :
  forallb printable (fst (span_digits s)) = true.
Proof.
  induction s as [|c s IH]; [reflexivity|]. cbn [span_digits].
  destruct (is_digit c) eqn:Ed; [|reflexivity].
  destruct (span_digits s) as [ds r]. cbn [fst forallb] in *.
  now rewrite (is_digit_printable _ Ed), IH.
Qed.

Lemma match_integer_printable s i r :
  match_integer s = Some (i, r) -> forallb printable i = true.
Proof.
  intros H. destruct s as [|c s]; [discriminate H|].
  destruct (N.eq_dec c 45) as [->|Hc].
  - rewrite match_integer_minus in H.
    destruct s as [|d s]; [discriminate H|].
    destruct (d =? 48); [injection H as <- <-; reflexivity|].
    destruct (is_digit d) eqn:Ed; [|discriminate H].
    pose proof (span_digits_printable s) as Hs.
    destruct (span_digits s) as [ds r']. injection H as <- <-.
    cbn [forallb fst] in *. now rewrite (is_digit_printable _ Ed), Hs.
  - rewrite (match_integer_other _ _ Hc) in H.
    destruct (c =? 48); [injection H as <- <-; reflexivity|].
    destruct (is_digit c) eqn:Ed; [|discriminate H].
    pose proof (span_digits_printable s) as Hs.
    destruct (span_digits s) as [ds r']. injection H as <- <-.
    cbn [forallb fst] in *. now rewrite (is_digit_printable _ Ed), Hs.
Qed.

Lemma match_frac_printable s f r :
  match_frac s = (f, r) -> forallb printable f = true.
Proof.
  intros H. destruct s as [|c s]; [injection H as <- <-; reflexivity|].
  rewrite match_frac_cons in H.
  destruct (c =? 46); [|injection H as <- <-; reflexivity].
  pose proof (span_digits_printable s) as Hs.
  destruct (span_digits s) as [[|d ds] r']; injection H as <- <-;
    [reflexivity|]. cbn [fst forallb] in Hs. cbn [forallb]. now rewrite Hs.
Qed.

Lemma exp_sign_printable r : forallb printable (fst (exp_sign r)) = true.
Proof.
  destruct r as [|c r]; [reflexivity|]. rewrite exp_sign_cons.
  destruct (c =? 43); [reflexivity|]. destruct (c =? 45); reflexivity.
Qed.

Lemma match_exp_printable s e r :
  match_exp s = (e, r) -> forallb printable e = true.
Proof.
  intros H. destruct s as [|c s]; [injection H as <- <-; reflexivity|].
  rewrite match_exp_cons in H.
  destruct ((c =? 101) || (c =? 69)) eqn:Ec;
    [|injection H as <- <-; reflexivity].
  pose proof (exp_sign_printable s) as Hsign.
  destruct (exp_sign s) as [sign r1]. cbn [fst] in Hsign.
  pose proof (span_digits_printable r1) as Hs.
  destruct (span_digits r1) as [[|d ds] r']; injection H as <- <-;
    [reflexivity|]. cbn [fst] in Hs.
  cbn [forallb]. rewrite forallb_app, Hsign, Hs.
  apply orb_true_iff in Ec as [Ec|Ec]; apply N.eqb_eq in Ec; subst;
    reflexivity.
Qed.

Lemma number_literal_printable text :
  number_literal text = true -> forallb printable text = true.
Proof.
  unfold number_literal. intros H.
  destruct (match_number text) as [[t [|x r]]|] eqn:E; [|discriminate H|].
  - apply str_eqb_eq in H. subst t. unfold match_number in E.
    destruct (match_integer text) as [[i r0]|] eqn:Ei; [|discriminate E].
    destruct (match_frac r0) as [f r1] eqn:Ef.
    destruct (match_exp r1) as [e r2] eqn:Ee.
    injection E as E _. rewrite <- E at 1. rewrite !forallb_app.
    now rewrite (match_integer_printable _ _ _ Ei),
                (match_frac_printable _ _ _ Ef),
                (match_exp_printable _ _ _ Ee).
  - apply orb_true_iff in H as [H|H]; [apply orb_true_iff in H as [H|H]|];
      apply str_eqb_eq in H; subst text; reflexivity.
Qed.

Lemma hexdigit_printable d : d < 16 -> printable (hexdigit d) = true.
Proof.
  intros H. unfold hexdigit, printable.
  destruct (d <? 10) eqn:E; nbool;
    [rewrite (leb_true 32 (48 + d)), (leb_true (48 + d) 126) by lia
    |rewrite (leb_true 32 (87 + d)), (leb_true (87 + d) 126) by lia];
    reflexivity.
Qed.

Lemma u_escape_printable n : forallb printable (u_escape n) = true.
Proof.
  unfold u_escape. cbn [forallb].
  rewrite !hexdigit_printable by (apply N.mod_lt; lia). reflexivity.
Qed.

Lemma escape_char_printable c : forallb printable (escape_char c) = true.
Proof.
  unfold escape_char.
  repeat match goal with
         | |- context [if ?b then _ else _] => destruct b eqn:?
         end; try reflexivity.
  - cbn [forallb]. now rewrite andb_true_r.
  - apply u_escape_printable.
  - now rewrite forallb_app, !u_escape_printable.
Qed.

Lemma escape_body_printable s : forallb printable (escape_body s) = true.
Proof.
  unfold escape_body. induction s as [|c s IH]; [reflexivity|].
  cbn [flat_map]. now rewrite forallb_app, escape_char_printable, IH.
Qed.

Lemma elements_printable xs : forall x,
  Forall (fun v => wf_json v = true -> forallb printable (json_dumps v) = true)
         (x :: xs) ->
  forallb wf_json (x :: xs) = true ->
  forallb printable (elements x xs) = true.
Proof.
  induction xs as [|y xs IH]; intros x HF Hwf;
    inversion HF as [|? ? Px HF']; subst;
    cbn [forallb] in Hwf; apply andb_true_iff in Hwf as [Hx Hwf];
    cbn [elements]; rewrite forallb_app, (Px Hx); [reflexivity|].
  cbn [forallb andb]. change (printable 44) with true.
  change (printable 32) with true. cbn [andb]. now apply IH.
Qed.

Lemma members_printable kvs : forall k v,
  Forall (fun kv => wf_json (snd kv) = true ->
                    forallb printable (json_dumps (snd kv)) = true)
         ((k, v) :: kvs) ->
  forallb (fun kv => valid_str (fst kv) && wf_json (snd kv)) ((k, v) :: kvs)
  = true ->
  forallb printable (members k v kvs) = true.
Proof.
  induction kvs as [|[k' v'] kvs IH]; intros k v HF Hwf;
    inversion HF as [|? ? Pv HF']; subst; cbn [snd] in Pv;
    cbn [forallb fst snd] in Hwf; apply andb_true_iff in Hwf as [Hkv Hwf];
    apply andb_true_iff in Hkv as [Hk Hv];
    cbn [members]; rewrite forallb_app, escape_body_printable;
    cbn [forallb andb];
    change (printable 34) with true; change (printable 58) with true;
    change (printable 32) with true; cbn [andb];
    rewrite forallb_app, (Pv Hv); [reflexivity|].
  cbn [forallb andb]. change (printable 44) with true.
  change (printable 32) with true. change (printable 34) with true.
  cbn [andb]. now apply IH.
Qed.

Lemma json_dumps_printable v :
  wf_json v = true -> forallb printable (json_dumps v) = true.
Proof.
  induction v as [|b|text|str|xs IH|kvs IH] using json_ind'; intros Hwf.
  - reflexivity.
  - destruct b; reflexivity.
  - now apply number_literal_printable.
  - cbn [json_dumps]. unfold encode_basestring_ascii. cbn [forallb].
    rewrite forallb_app, escape_body_printable. reflexivity.
  - destruct xs as [|x xs]; [reflexivity|].
    rewrite dumps_array. cbn [forallb]. rewrite forallb_app.
    cbn [wf_json] in Hwf. rewrite (elements_printable xs x IH Hwf).
    reflexivity.
  - destruct kvs as [|[k v] kvs]; [reflexivity|].
    rewrite dumps_object. cbn [forallb]. rewrite forallb_app.
    cbn [wf_json] in Hwf. apply andb_true_iff in Hwf as [Hwf _].
    rewrite (members_printable kvs k v IH Hwf). reflexivity.
Qed.

Lemma json_dumps_ascii v :
  wf_json v = true -> forallb is_ascii (json_dumps v) = true.
Proof.
  intros H. apply (forallb_impl _ printable); [apply printable_ascii|].
  now apply json_dumps_printable.
Qed.

(** [base64.b64encode(json.dumps(d).encode("utf-8"))] is decoded to [d]. *)
Lemma decode_body_dumps d :
  wf_json (JObject d) = true ->
  decode_body (b64encode (json_dumps (JObject d))) = Some d.
Proof.
  intros Hwf. pose proof (json_dumps_ascii _ Hwf) as Ha.
  unfold decode_body.
  now rewrite (b64decode_b64encode _ Ha), (utf8_decode_ascii _ Ha),
              (json_loads_dumps _ Hwf).
Qed.

End JsonFacts.

(* ================================================================== *)
(** * Facts about the items on the wire *)
(* ================================================================== *)

Module WireFacts.
Import Py Token Aux PyFacts Engine EngineFacts Errors Adapter.
Import JsonShape Wire JsonFacts.
Local Open Scope N_scope.

(** ** The digits of an [int] *)

Lemma span_digits_all ds :
  forallb is_digit ds = true -> span_digits ds = (ds, []).
Proof.
  induction ds as [|d ds IH]; [reflexivity|]. cbn [forallb span_digits].
  intros H. apply andb_true_iff in H as [Hd H]. now rewrite Hd, (IH H).
Qed.

Lemma decimal_shape fuel : forall n,
  (N.to_nat n < fuel)%nat ->
  exists d ds,
    decimal fuel n = d :: ds /\ is_digit d = true
    /\ forallb is_digit ds = true /\ (d = 48 -> n = 0 /\ ds = []).
Proof.
  induction fuel as [|fuel IH]; intros n Hn; [lia|].
  cbn [decimal]. destruct (n <? 10) eqn:E; nbool.
  - exists (48 + n), []. repeat split; try lia.
    unfold is_digit. now rewrite (leb_true 48 (48 + n)), (leb_true (48 + n) 57) by lia.
  - destruct (IH (n / 10)) as (d & ds & Hd & H1 & H2 & H3); [lia|].
    exists d, (ds ++ [48 + n mod 10]). rewrite Hd. split; [reflexivity|].
    split; [exact H1|]. split.
    + rewrite forallb_app, H2. cbn [forallb]. unfold is_digit.
      now rewrite (leb_true 48 (48 + n mod 10)),
                  (leb_true (48 + n mod 10) 57) by lia.
    + intros H48. destruct (H3 H48) as [H0 _]. lia.
Qed.

Lemma number_literal_digits d ds :
  is_digit d = true -> forallb is_digit ds = true -> (d = 48 -> ds = []) ->
  number_literal (d :: ds) = true.
Proof.
  intros Hd Hds H48. unfold number_literal, match_number.
  assert (Hne : d <> 45) by (unfold is_digit in Hd; nbool; lia).
  rewrite (match_integer_other _ _ Hne).
  destruct (d =? 48) eqn:E.
  - apply N.eqb_eq in E. rewrite (H48 E). subst d. reflexivity.
  - rewrite Hd, (span_digits_all _ Hds). cbn [match_frac match_exp].
    rewrite !app_nil_r. apply str_eqb_refl'.
Qed.

Lemma number_literal_int_repr n : number_literal (int_repr n) = true.
Proof.
  unfold int_repr.
  destruct (decimal_shape (S n) (N.of_nat n)) as (d & ds & -> & H1 & H2 & H3);
    [lia|].
  apply number_literal_digits; try assumption. intros H. now apply H3.
Qed.

(** ** The dict of an item is a JSON value *)

Lemma valid_str_value ty : valid_str (value ty) = true.
Proof. destruct ty; reflexivity. Qed.

Lemma wf_to_dict e :
  wf_error e = true -> wf_json (JObject (to_dict e)) = true.
Proof.
  unfold wf_error. intros H. apply andb_true_iff in H as [Hm Hd].
  change (wf_json (JObject (to_dict e)))
    with ((valid_str (lit "message") && valid_str (message e)
           && (valid_str (lit "error_type") && valid_str (value (error_type e))
               && (valid_str (lit "details") && wf_json (JObject (details e))
                   && true)))
          && distinct_keys (to_dict e)).
  rewrite Hm, Hd, valid_str_value. reflexivity.
Qed.

Section Items.

Variable float_repr : N -> pystr.

Lemma wf_item_json item :
  wf_item float_repr item = true -> wf_json (item_json float_repr item) = true.
Proof.
  destruct item as [chunk|[rid [tok|]|c t|e|e]|]; cbn [wf_item]; intros H.
  - change (wf_json (item_json float_repr (Chunk chunk)))
      with (wf_json chunk && true && true).
    now rewrite H.
  - apply andb_true_iff in H as [Hr Ht].
    change (wf_json (item_json float_repr (Special (StreamStart rid (Some tok)))))
      with (valid_str rid && (valid_str tok && true) && true && true && true).
    now rewrite Hr, Ht.
  - apply andb_true_iff in H as [Hr _].
    change (wf_json (item_json float_repr (Special (StreamStart rid None))))
      with (valid_str rid && true && true && true && true).
    now rewrite Hr.
  - change (wf_json (item_json float_repr (Special (StreamEnd c t))))
      with (number_literal (int_repr c)
            && (number_literal (float_repr t) && true) && true && true && true).
    now rewrite number_literal_int_repr, H.
  - pose proof (wf_to_dict e H) as Hd.
    change (wf_json (item_json float_repr (Special (StreamError e))))
      with (wf_json (JObject (to_dict e)) && true && true && true && true).
    now rewrite Hd.
  - pose proof (wf_to_dict e H) as Hd.
    change (wf_json (item_json float_repr (Special (StreamFatalError e))))
      with (wf_json (JObject (to_dict e)) && true && true && true && true).
    now rewrite Hd.
  - reflexivity.
Qed.

Lemma ends_replay_item item :
  ends_replay (item_json float_repr item) = Some (is_terminal item).
Proof. destruct item as [chunk|[rid [tok|]|c t|e|e]|]; reflexivity. Qed.

End Items.

(** ** What is stored is read back *)

Lemma read_back_entry float_repr e :
  entry_ok float_repr e = true -> read_back float_repr e.
Proof.
  destruct e as [item|]; [|reflexivity]. cbn [entry_ok read_back].
  intros Hwf.
  assert (Hw : wf_json (JObject [(lit "item", item_json float_repr item)])
               = true).
  { change (wf_json (JObject [(lit "item", item_json float_repr item)]))
      with (wf_json (item_json float_repr item) && true && true).
    now rewrite (wf_item_json _ _ Hwf). }
  pose proof (json_dumps_ascii _ Hw) as Ha.
  exists (json_dumps (JObject [(lit "item", item_json float_repr item)])).
  split.
  - unfold _write_to_redis. now rewrite (utf8_encode_ascii _ Ha).
  - unfold process_message.
    change (field _ (lit "end")) with (@None pybytes).
    change (field [(lit "data", ?d)] (lit "data")) with (Some d).
    cbv beta iota.
    rewrite dumps_object at 1. cbv beta iota.
    rewrite (utf8_decode_ascii _ Ha), (json_loads_dumps _ Hw).
    change (dict_get [(lit "item", ?v)] (lit "item")) with (Some v).
    cbv beta iota. now rewrite ends_replay_item.
Qed.

Lemma read_back_entries float_repr stream :
  forallb (entry_ok float_repr) stream = true ->
  Forall (read_back float_repr) stream.
Proof.
  induction stream as [|e stream IH]; [constructor|]. cbn [forallb].
  intros H. apply andb_true_iff in H as [He H].
  constructor; [now apply read_back_entry|exact (IH H)].
Qed.

(** ** Every entry a run stores is the JSON of an item *)

Lemma write_ok_run_stream float_repr p ops :
  forallb wf_op ops = true ->
  forallb (write_ok float_repr) (run_stream p ops) = true.
Proof.
  induction ops as [|op ops IH]; [reflexivity|]. cbn [forallb].
  intros H. apply andb_true_iff in H as [Hop H]. specialize (IH H).
  destruct op, p; cbn [run_stream helper DefaultStreamHelper RedisStreamHelper
                       except_branch app forallb write_ok wf_item wf_op] in *;
    try exact IH; try (rewrite Hop; exact IH); try reflexivity.
  unfold wf_error, runner_error. cbn [message details]. now rewrite Hop.
Qed.

Lemma stored_inv_start float_repr p env sid ops :
  forallb wf_op ops = true ->
  number_literal (float_repr (elapsed_ms env)) = true ->
  stored_inv float_repr (start_stream p env sid ops).
Proof.
  intros Hops Ht. split; [reflexivity|]. split; [|exact Ht].
  now apply write_ok_run_stream.
Qed.

Lemma stored_inv_step float_repr c st :
  choice_ok c = true ->
  stored_inv float_repr st -> stored_inv float_repr (step c st).
Proof.
  intros Hc (Hs & Ht & Hn). destruct c as [io|]; cbn [step].
  - cbn [choice_ok] in Hc. destruct io; [|discriminate Hc].
    unfold task_step. destruct (task st) as [|[item|b|x| |] k] eqn:Et;
      [split; [exact Hs|split; [now rewrite Et|exact Hn]]|..];
      cbn [forallb write_ok] in Ht.
    + apply andb_true_iff in Ht as [Hi Hk].
      split; [|split; [exact Hk|exact Hn]].
      cbn [io_ok redis_stream]. rewrite forallb_app, Hs. cbn. now rewrite Hi.
    + split; [|split; [exact Ht|exact Hn]].
      cbn [redis_stream]. rewrite forallb_app, Hs. reflexivity.
    + split; [exact Hs|split; [exact Ht|exact Hn]].
    + split; [exact Hs|split; [exact Ht|exact Hn]].
    + split; [exact Hs|split; [|exact Hn]].
      unfold set_task. cbn [task]. unfold after_return.
      destruct (provider st); cbn [forallb write_ok wf_item];
        [reflexivity|now rewrite Hn].
  - unfold drain_step. destruct (draining st); [|now repeat split].
    destruct (queue st) as [|[item|] q]; [now repeat split|..].
    + split; [exact Hs|split; [exact Ht|exact Hn]].
    + split; [exact Hs|split; [|exact Hn]]. cbn [task].
      destruct (provider st), (task st); try exact Ht; reflexivity.
Qed.

Lemma stored_inv_exec float_repr sched : forall st,
  all_io_ok sched = true ->
  stored_inv float_repr st -> stored_inv float_repr (exec sched st).
Proof.
  induction sched as [|c sched IH]; intros st Hok H; [exact H|].
  unfold all_io_ok in Hok. cbn [forallb] in Hok.
  apply andb_true_iff in Hok as [Hc Hok].
  rewrite exec_cons. apply IH; [exact Hok|]. now apply stored_inv_step.
Qed.

Lemma all_io_ok_firstn n sched :
  all_io_ok sched = true -> all_io_ok (firstn n sched) = true.
Proof.
  unfold all_io_ok. revert n.
  induction sched as [|c sched IH]; intros [|n] H; try reflexivity.
  cbn [firstn forallb] in *. apply andb_true_iff in H as [Hc H].
  now rewrite Hc, (IH n H).
Qed.

(** When the Redis calls succeed, the stream of a run whose runner sends
    JSON holds, at every moment, only entries that are read back as the
    items that were written. *)
Lemma stream_read_back float_repr p env sid ops sched :
  forallb wf_op ops = true ->
  number_literal (float_repr (elapsed_ms env)) = true ->
  all_io_ok sched = true ->
  Forall (read_back float_repr)
         (redis_stream (exec sched (start_stream p env sid ops))).
Proof.
  intros Hops Ht Hok. apply read_back_entries.
  apply (stored_inv_exec float_repr sched _ Hok).
  now apply stored_inv_start.
Qed.

End WireFacts.

(* ================================================================== *)
(** * The engine: the claims *)
(* ================================================================== *)

Module EngineClaims.
Import Py Token Aux PyFacts Engine EngineAux ResumeFacts EngineFacts Scenarios.
Import JsonShape Wire WireFacts.
Local Open Scope nat_scope.

(** ** Counting chunks *)

(** Once the task is done and the loop has ended, nothing changes. *)
Lemma exec_idle sched : forall st,
  task st = [] -> draining st = false -> exec sched st = st.
Proof.
  induction sched as [|c sched IH]; intros st Ht Hd; [reflexivity|].
  rewrite exec_cons.
  assert (Hs : step c st = st).
  { destruct c as [io|]; cbn [step].
    - unfold task_step. now rewrite Ht.
    - unfold drain_step. now rewrite Hd. }
  rewrite Hs. now apply IH.
Qed.

(** Once the task is done, the consumer reads the queue up to [None]. *)
Lemma exec_drain_only sched : forall st,
  task st = [] -> draining st = true ->
  finished (exec sched st) = true ->
  live (exec sched st) = live st ++ until_none (queue st).
Proof.
  induction sched as [|c sched IH]; intros st Ht Hd Hfin.
  - cbn in Hfin. unfold finished in Hfin. rewrite Ht, Hd in Hfin.
    discriminate.
  - rewrite exec_cons in Hfin |- *.
    destruct c as [io|]; cbn [step] in *.
    + unfold task_step in *. rewrite Ht in *. now apply IH.
    + unfold drain_step in *. rewrite Hd in *.
      destruct (queue st) as [|[item|] q] eqn:Eq.
      * rewrite <- Eq in *. rewrite IH; auto.
      * rewrite IH in *; auto. cbn. now rewrite <- app_assoc.
      * rewrite exec_idle; cbn; [now rewrite app_nil_r| |reflexivity].
        rewrite Ht. now destruct (provider st).
Qed.

(** Scenario S1 on the Redis provider: the consumer cannot run between the
    put of the chunk and the return of the runner. *)
Lemma S1_redis_total_chunks env sid sched :
  let st0 := start_stream RedisRiverProvider env sid S1_runner in
  asyncio_schedule sched st0 = true ->
  all_io_ok sched = true ->
  finished (exec sched st0) = true ->
  live (exec sched st0)
  = [ start_chunk RedisRiverProvider sid (uuid4 env);
      Chunk (JNumber (lit "10"));
      Special (StreamEnd 0 (elapsed_ms env)) ].
Proof.
  cbv zeta. induction sched as [|c sched IH]; intros Hsched Hok Hfin.
  - discriminate Hfin.
  - destruct c as [io|].
    + (* the write of the chunk completes; the put and the return follow *)
      cbn [all_io_ok forallb choice_ok] in Hok.
      apply andb_true_iff in Hok. destruct Hok as [Hio Hok].
      destruct io; [|discriminate].
      rewrite exec_cons in Hfin |- *.
      cbn [asyncio_schedule andb] in Hsched.
      match type of Hsched with
      | asyncio_schedule _ ?s = true =>
        let s' := eval cbn in s in change s with s' in Hsched, Hfin |- *
      end.
      do 2 (destruct sched as [|[?|] sched];
            [ discriminate Hfin | | discriminate Hsched ];
            cbn [all_io_ok forallb choice_ok] in Hok;
            apply andb_true_iff in Hok; destruct Hok as [_ Hok];
            rewrite exec_cons in Hfin |- *;
            cbn [asyncio_schedule andb] in Hsched;
            match type of Hsched with
            | asyncio_schedule _ ?s = true =>
              let s' := eval cbn in s in
              change s with s' in Hsched, Hfin |- *
            end).
      rewrite exec_no_return; [reflexivity|exact Hok|reflexivity|reflexivity|].
      exact Hfin.
    + (* the queue is empty: the consumer keeps waiting *)
      apply IH; [|exact Hok|exact Hfin].
      cbn [asyncio_schedule] in Hsched.
      apply andb_true_iff in Hsched. apply Hsched.
Qed.

(** C1, on the code: in scenario S1 the runner emits one chunk, does not
    suspend on its own and returns.  On the default provider, under every
    schedule that asyncio allows, and on the Redis provider, under every
    such schedule whose Redis calls succeed, the finished run shows
    [total_chunks = 0]: the count is taken by the consumer loop, which
    cannot have run between the put of the chunk and the moment [stream_end]
    is built. *)
Theorem C1_total_chunks_misses_queued_chunks
        (env : RunEnv) (sid : pystr) (sched sched' : list Choice) :
  let st0 := start_stream DefaultRiverProvider env sid S1_runner in
  let st0' := start_stream RedisRiverProvider env sid S1_runner in
  asyncio_schedule sched st0 = true ->
  finished (exec sched st0) = true ->
  asyncio_schedule sched' st0' = true ->
  all_io_ok sched' = true ->
  finished (exec sched' st0') = true ->
  live (exec sched st0)
  = [ Special (StreamStart (uuid4 env) None);
      Chunk (JNumber (lit "10"));
      Special (StreamEnd 0 (elapsed_ms env)) ]
  /\ live (exec sched' st0')
     = [ start_chunk RedisRiverProvider sid (uuid4 env);
         Chunk (JNumber (lit "10"));
         Special (StreamEnd 0 (elapsed_ms env)) ]
  /\ redis_stream (exec sched' st0')
     = [ EData (Chunk (JNumber (lit "10")));
         EData (Special (StreamEnd 0 (elapsed_ms env))); EEnd ].
Proof.
  intros st0 st0' Hsched Hfin Hsched' Hok' Hfin'.
  assert (Hlive' := S1_redis_total_chunks env sid sched' Hsched' Hok' Hfin').
  split; [|split; [exact Hlive'|]].
  - subst st0.
    (* the four instructions of the task run without interruption *)
    do 4 (destruct sched as [|[?|] sched];
          [ discriminate Hfin | | discriminate Hsched ];
          rewrite exec_cons in Hfin |- *;
          cbn [asyncio_schedule andb] in Hsched;
          match type of Hsched with
          | asyncio_schedule _ ?s = true =>
            let s' := eval cbn in s in
            change s with s' in Hsched, Hfin |- *
          end).
    rewrite exec_drain_only; [reflexivity|reflexivity|reflexivity|exact Hfin].
  - destruct (finished_run env sid S1_runner sched' Hok' Hfin')
      as (c & seen & q & Hs & Hq & Hl). fold st0' in Hs, Hl.
    assert (Hseen : seen = until_none (puts_of c (elapsed_ms env) S1_runner)).
    { rewrite Hq. symmetry. apply until_none_map_Some. }
    fold st0' in Hlive'. rewrite Hl, Hseen in Hlive'.
    cbn in Hlive'. injection Hlive' as Hc. rewrite Hs, Hc. reflexivity.
Qed.

Lemma C1_total_chunks_misses_queued_chunks_witness :
  asyncio_schedule S1_default_schedule
    (start_stream DefaultRiverProvider example_env example_storage_id
                  S1_runner) = true
  /\ finished (exec S1_default_schedule
                    (start_stream DefaultRiverProvider example_env
                                  example_storage_id S1_runner)) = true
  /\ asyncio_schedule S1_redis_schedule
       (start_stream RedisRiverProvider example_env example_storage_id
                     S1_runner) = true
  /\ all_io_ok S1_redis_schedule = true
  /\ finished (exec S1_redis_schedule
                    (start_stream RedisRiverProvider example_env
                                  example_storage_id S1_runner)) = true
  /\ live (exec S1_default_schedule
                (start_stream DefaultRiverProvider example_env
                              example_storage_id S1_runner))
     = [ Special (StreamStart (uuid4 example_env) None);
         Chunk (JNumber (lit "10"));
         Special (StreamEnd 0 (elapsed_ms example_env)) ]
  /\ live (exec S1_redis_schedule
                (start_stream RedisRiverProvider example_env
                              example_storage_id S1_runner))
     = [ start_chunk RedisRiverProvider example_storage_id
                     (uuid4 example_env);
         Chunk (JNumber (lit "10"));
         Special (StreamEnd 0 (elapsed_ms example_env)) ]
  /\ redis_stream (exec S1_redis_schedule
                        (start_stream RedisRiverProvider example_env
                                      example_storage_id S1_runner))
     = [ EData (Chunk (JNumber (lit "10")));
         EData (Special (StreamEnd 0 (elapsed_ms example_env))); EEnd ].
Proof.
  split; [vm_compute; reflexivity|]. split; [vm_compute; reflexivity|].
  split; [vm_compute; reflexivity|]. split; [vm_compute; reflexivity|].
  split; [vm_compute; reflexivity|].
  apply (C1_total_chunks_misses_queued_chunks
           example_env example_storage_id
           S1_default_schedule S1_redis_schedule);
    vm_compute; reflexivity.
Defined.

(** ** Written to Redis before put on the queue *)

(** C3: at every point of every run on the Redis provider, whatever the
    interleaving and whichever Redis calls fail, (1) the items put on the
    queue are the items handed to [_write_to_redis], in the same order,
    except for at most one item that is written and not yet put; (2) what
    the live subscriber has received after [stream_start] is a prefix of
    what was put; (3) the stream holds exactly the items whose write
    succeeded.  So an item is offered to the log before it is published,
    and the subscriber never sees an item that was not offered. *)
Theorem C3_written_before_published
        (env : RunEnv) (sid : pystr) (ops : list RunnerOp)
        (sched : list Choice) :
  let st := exec sched (start_stream RedisRiverProvider env sid ops) in
  (exists pending,
      map fst (offered st) = some_items (published st) ++ pending
      /\ List.length pending <= 1)
  /\ (exists later, some_items (published st) = tl (live st) ++ later)
  /\ data_items (redis_stream st) = written (offered st).
Proof.
  intros st.
  destruct (write_inv_exec env sid ops sched) as (_ & Hw & H). fold st in Hw, H.
  destruct (queue_inv_exec RedisRiverProvider env sid ops sched)
    as (seen & Hl & Hp). fold st in Hl, Hp.
  split; [|split; [|exact Hw]].
  - destruct H as [[_ Ho] | (item & k & _ & _ & Ho)].
    + exists []. rewrite app_nil_r. split; [exact Ho|cbn; lia].
    + exists [item]. split; [exact Ho|cbn; lia].
  - rewrite Hl, Hp. cbn [tl]. rewrite some_items_app, some_items_map_Some.
    eexists. reflexivity.
Qed.

(** ** Resume *)






(** ** The fatal-error scenario *)

Lemma some_prefix2 (seen : list CallerStreamItem) rest a b tail :
  map Some seen ++ rest = Some a :: Some b :: None :: tail ->
  exists r, [a; b] = seen ++ r.
Proof.
  intros H. destruct seen as [|x [|y [|z seen]]]; cbn in H.
  - eexists. reflexivity.
  - inversion H; subst. eexists. reflexivity.
  - inversion H; subst. exists []. reflexivity.
  - inversion H.
Qed.

Lemma firstn_firstn_app (A : Type) k (a b : list A) :
  exists k', firstn k a = firstn k' (a ++ b).
Proof.
  exists (Nat.min k (List.length a)).
  rewrite <- (firstn_all a) at 1. rewrite firstn_firstn.
  rewrite firstn_app.
  replace (Nat.min k (List.length a) - List.length a) with 0 by lia.
  cbn. now rewrite app_nil_r.
Qed.

(** C4, counterexample: on a complete run of scenario S5 the stream holds
    six entries; it does not start with [stream_start], and the chunk
    [after-fatal], a [stream_end] and a second end marker follow the first
    end marker. *)
Lemma C4_counterexample :
  finished S5_final = true
  /\ redis_stream S5_final
     = [ EData before_fatal; EData the_fatal; EEnd;
         EData after_fatal; EData (Special (StreamEnd 1 12%N)); EEnd ]
  /\ existsb holds_stream_start (redis_stream S5_final) = false
  /\ List.length (redis_stream S5_final) = 6.
Proof. conj_compute. Qed.

(** C4, amended: in scenario S5 on the Redis provider, when the Redis calls
    succeed, at every point of the run the live subscriber has received a
    prefix of [stream_start, chunk("before-fatal"), stream_fatal_error], and
    a resumer that reads the stream while it grows receives a prefix of
    [chunk("before-fatal"), stream_fatal_error]: nobody observes
    ["after-fatal"] or anything after the fatal error.  When the run is
    over the live subscriber has received exactly these three items, the
    stream begins with
    [chunk("before-fatal"), stream_fatal_error, end marker]
    (no [stream_start] is stored), and a resumer receives exactly the two
    items and returns. *)
Theorem C4_fatal_error_scenario
        (env : RunEnv) (sid : pystr) (sched : list Choice)
        (stream_at : nat -> list Entry) :
  let st := exec sched (start_stream RedisRiverProvider env sid S5_runner) in
  let first := start_chunk RedisRiverProvider sid (uuid4 env) in
  all_io_ok sched = true ->
  (forall n, exists k, stream_at n = firstn k (redis_stream st)) ->
  (exists rest, [first; before_fatal; the_fatal] = live st ++ rest)
  /\ (exists rest,
        [before_fatal; the_fatal] = yielded (resume_stream stream_at) ++ rest)
  /\ (if finished st then
        live st = [first; before_fatal; the_fatal]
        /\ firstn 3 (redis_stream st)
           = [EData before_fatal; EData the_fatal; EEnd]
        /\ yielded (resume_stream (fun _ => redis_stream st))
           = [before_fatal; the_fatal]
        /\ ending (resume_stream (fun _ => redis_stream st)) = Returned
      else True).
Proof.
  intros st first Hok Hsnap.
  destruct (final_exec sched
              (start_stream RedisRiverProvider env sid S5_runner) Hok eq_refl)
    as (c0 & Hc0).
  destruct (Hc0 0) as [Hs Hq]. fold st in Hs, Hq.
  destruct (queue_inv_exec RedisRiverProvider env sid S5_runner sched)
    as (seen & Hl & Hp). fold st in Hl, Hp.
  split; [|split].
  - unfold final_published in Hq. rewrite Hp, <- !app_assoc in Hq.
    cbn in Hq. destruct (some_prefix2 _ _ _ _ _ Hq) as [r Hr].
    exists r. rewrite Hl. cbn. now rewrite <- Hr.
  - unfold final_stream in Hs. cbn in Hs.
    match type of Hs with
    | _ = ?F =>
      change [before_fatal; the_fatal] with (replay F);
      apply resume_stream_prefix; rewrite <- Hs
    end.
    intros n. destruct (Hsnap n) as [k ->]. apply firstn_firstn_app.
  - destruct (finished st) eqn:Hfin; [|exact I].
    destruct (finished_run env sid S5_runner sched Hok Hfin)
      as (c & seen' & q & Hs' & Hq' & Hl'). fold st in Hs', Hl'.
    assert (Hseen : seen' = [before_fatal; the_fatal]).
    { rewrite <- (until_none_map_Some seen' q), <- Hq'. reflexivity. }
    rewrite Hl', Hseen, Hs'. split; [reflexivity|]. split; [reflexivity|].
    assert (Hne : stream_of c (elapsed_ms env) S5_runner <> [])
      by discriminate.
    pose proof (resume_stream_static _ Hne) as H. cbv zeta in H.
    rewrite first_terminal_firstn in H.
    change (first_terminal (stream_of c (elapsed_ms env) S5_runner))
      with (Some 1) in H.
    change (1 <? 10 * max_attempts) with true in H.
    cbv beta iota in H. destruct H as [H1 H2].
    split; [rewrite H1; reflexivity|exact H2].
Qed.

Lemma C4_fatal_error_scenario_witness :
  all_io_ok S5_schedule = true
  /\ (forall n : nat, exists k,
         (fun _ : nat => redis_stream S5_final) n
         = firstn k (redis_stream S5_final))
  /\ (exists rest,
        [ start_chunk RedisRiverProvider example_storage_id
                      (uuid4 example_env);
          before_fatal; the_fatal ] = live S5_final ++ rest)
  /\ (exists rest,
        [before_fatal; the_fatal]
        = yielded (resume_stream (fun _ => redis_stream S5_final)) ++ rest)
  /\ (if finished S5_final then
        live S5_final
        = [ start_chunk RedisRiverProvider example_storage_id
                        (uuid4 example_env);
            before_fatal; the_fatal ]
        /\ firstn 3 (redis_stream S5_final)
           = [EData before_fatal; EData the_fatal; EEnd]
        /\ yielded (resume_stream (fun _ => redis_stream S5_final))
           = [before_fatal; the_fatal]
        /\ ending (resume_stream (fun _ => redis_stream S5_final)) = Returned
      else True).
Proof.
  unfold S5_final.
  split; [vm_compute; reflexivity|].
  split; [intros n; eexists; symmetry; apply firstn_all|].
  apply (C4_fatal_error_scenario example_env example_storage_id S5_schedule
           (fun _ => redis_stream
                       (exec S5_schedule
                          (start_stream RedisRiverProvider example_env
                             example_storage_id S5_runner)))).
  - vm_compute; reflexivity.
  - intros n; eexists; symmetry; apply firstn_all.
Defined.

(** ** The safety limit of the read loop *)

(** C9, counterexample: a completed stream of 10000 chunks followed by
    [stream_end] and the end marker is terminated, yet the reader gives up
    after 1000 reads of 10 entries with a provider error, one entry short
    of [stream_end]. *)
Lemma C9_counterexample :
  first_terminal long_stream = Some (10 * max_attempts)
  /\ ending (resume_stream (fun _ => long_stream))
     = Raised (RiverError PROVIDER)
  /\ attempts (resume_stream (fun _ => long_stream)) = max_attempts
  /\ List.length (yielded (resume_stream (fun _ => long_stream)))
     = 10 * max_attempts
  /\ List.length (replay long_stream) = 10 * max_attempts + 1.
Proof. conj_compute. Qed.

(** C9, amended: a resume of an existing stream runs its read loop at most
    1000 times, whatever the stream does meanwhile, and ends either by
    returning or, after exactly 1000 iterations, with a provider error.  On
    a stream that no longer changes it returns, having yielded every item up
    to the first terminal item or the end marker, exactly when that terminal
    entry is among the first 10000 entries (1000 reads of at most 10
    entries); otherwise, for an unterminated stream as for a longer one, it
    yields the items of the first 10000 entries and fails with the provider
    error. *)
Theorem C9_resume_is_bounded
        (stream_at : nat -> list Entry) (stream : list Entry) :
  stream_at 0 <> [] -> stream <> [] ->
  let r := resume_stream stream_at in
  let s := resume_stream (fun _ => stream) in
  attempts r <= max_attempts
  /\ (ending r = Returned
      \/ (ending r = Raised (RiverError PROVIDER)
          /\ attempts r = max_attempts))
  /\ match first_terminal (firstn (10 * max_attempts) stream) with
     | Some _ => yielded s = replay stream /\ ending s = Returned
     | None =>
       yielded s = data_items (firstn (10 * max_attempts) stream)
       /\ ending s = Raised (RiverError PROVIDER)
       /\ attempts s = max_attempts
     end.
Proof.
  intros Hex Hne r s. subst r s. split; [|split].
  - unfold resume_stream. destruct (stream_at 0); [contradiction|].
    destruct (resume_loop_bounded stream_at max_attempts 0 0) as [[_ H] _].
    exact H.
  - unfold resume_stream. destruct (stream_at 0); [contradiction|].
    destruct (resume_loop_bounded stream_at max_attempts 0 0) as [_ H].
    exact H.
  - apply resume_stream_static, Hne.
Qed.

Lemma C9_resume_is_bounded_witness :
  (fun _ : nat => [EData before_fatal; EEnd]) 0 <> []
  /\ [EData before_fatal; EEnd] <> []
  /\ attempts (resume_stream (fun _ => [EData before_fatal; EEnd]))
     <= max_attempts
  /\ (ending (resume_stream (fun _ => [EData before_fatal; EEnd])) = Returned
      \/ (ending (resume_stream (fun _ => [EData before_fatal; EEnd]))
          = Raised (RiverError PROVIDER)
          /\ attempts (resume_stream (fun _ => [EData before_fatal; EEnd]))
             = max_attempts))
  /\ match first_terminal
             (firstn (10 * max_attempts) [EData before_fatal; EEnd]) with
     | Some _ =>
       yielded (resume_stream (fun _ => [EData before_fatal; EEnd]))
       = replay [EData before_fatal; EEnd]
       /\ ending (resume_stream (fun _ => [EData before_fatal; EEnd]))
          = Returned
     | None =>
       yielded (resume_stream (fun _ => [EData before_fatal; EEnd]))
       = data_items (firstn (10 * max_attempts) [EData before_fatal; EEnd])
       /\ ending (resume_stream (fun _ => [EData before_fatal; EEnd]))
          = Raised (RiverError PROVIDER)
       /\ attempts (resume_stream (fun _ => [EData before_fatal; EEnd]))
          = max_attempts
     end.
Proof.
  split; [discriminate|]. split; [discriminate|].
  apply (C9_resume_is_bounded (fun _ => [EData before_fatal; EEnd])
                              [EData before_fatal; EEnd]);
    discriminate.
Defined.

End EngineClaims.

(* ================================================================== *)
(** * The caller facade and the adapter: the claims *)
(* ================================================================== *)

Module FacadeClaims.
Import Py Token Engine Facade EngineAux EngineFacts Scenarios.
Local Open Scope nat_scope.

(** A request whose input fails validation gets an [EventSourceResponse]:
    the handler has returned before the generator body runs. *)
Lemma post_handler_invalid_input router env key input stream rest :
  get_stream router key = Some stream ->
  input_model stream input = None ->
  post_handler router env
    (Some (JObject ((lit "router_stream_key", JString key)
                      :: (lit "input", JObject input) :: rest)))
  = EventSourceResponse
      {| items := []; gen_ending := Raised (RiverError VALIDATION);
         run := None |}.
Proof.
  intros Hs Hv. unfold post_handler.
  change (StartStreamRequest _) with (Some (key, input)). cbv beta iota.
  rewrite Hs. unfold call_start, StreamCaller_start. now rewrite Hv.
Qed.

(** C8, on the code: for the request of scenario S2 the validation fails,
    no item is produced and no provider run is started, but the handler
    answers with an event stream of status 200, not with a 400: the error is
    raised only when the response body is iterated. *)
Theorem C8_validation_error_is_answered_200 :
  int_value_model [(lit "value", JString (lit "not_an_int"))] = None
  /\ StreamCaller_start int_stream S2_env
       [(lit "value", JString (lit "not_an_int"))]
     = {| items := []; gen_ending := Raised (RiverError VALIDATION);
          run := None |}
  /\ post_handler S2_router S2_env (Some S2_body)
     = EventSourceResponse
         {| items := []; gen_ending := Raised (RiverError VALIDATION);
            run := None |}
  /\ status (post_handler S2_router S2_env (Some S2_body)) = 200.
Proof. conj_compute. Qed.

(** ** Abort *)

Lemma filter_firstn_none (A : Type) (f : A -> bool) l : forall n,
  existsb f l = false -> filter f (firstn n l) = [].
Proof.
  induction l as [|x l IH]; intros n H; [now rewrite firstn_nil|].
  destruct n as [|n]; [reflexivity|].
  cbn in H |- *. apply orb_false_iff in H. destruct H as [Hx Hl].
  rewrite Hx. now apply IH.
Qed.

Lemma caller_loop_abort aborted items : forall n m,
  n < List.length items ->
  aborted (m + n) = true ->
  (forall k, k < n -> aborted (m + k) = false) ->
  caller_loop aborted m items = firstn n items ++ [Aborted].
Proof.
  induction items as [|x items IH]; intros n m Hn Ha Hb; [cbn in Hn; lia|].
  destruct n as [|n].
  - cbn. rewrite Nat.add_0_r in Ha. now rewrite Ha.
  - cbn [caller_loop firstn app].
    rewrite <- (Nat.add_0_r m) at 1. rewrite (Hb 0) by lia.
    f_equal. apply IH.
    + cbn in Hn. lia.
    + now rewrite Nat.add_succ_comm.
    + intros k Hk. rewrite Nat.add_succ_comm. apply Hb. lia.
Qed.

(** C10: take a call of [StreamCaller.start] whose input is valid, and
    let the abort signal be first seen set when the item at position [n] of
    the provider reaches the caller.  Then the caller yields the [n] items
    before it, then one [aborted] item, and stops: the item in flight and
    everything after it are dropped, and [aborted] occurs exactly once, as
    the last item. *)
Theorem C10_abort_ends_the_live_sequence
        (stream : RiverStream) (env : CallEnv)
        (input_data validated_input : pydict) (n : nat) :
  let provider_items :=
    live (exec (schedule env)
               (start_stream (stream_provider stream) (run_env env)
                             (stream_storage_id stream)
                             (runner stream validated_input))) in
  let yielded := items (StreamCaller_start stream env input_data) in
  input_model stream input_data = Some validated_input ->
  n < List.length provider_items ->
  aborted_at env n = true ->
  (forall k, k < n -> aborted_at env k = false) ->
  yielded = firstn n provider_items ++ [Aborted]
  /\ List.length yielded = n + 1
  /\ filter is_aborted yielded = [Aborted].
Proof.
  intros provider_items yielded Hv Hn Ha Hb.
  assert (H : yielded = firstn n provider_items ++ [Aborted]).
  { subst yielded. unfold StreamCaller_start. rewrite Hv. cbn [items].
    apply caller_loop_abort; auto. }
  rewrite H. split; [reflexivity|]. split.
  - rewrite length_app, firstn_length_le by lia. reflexivity.
  - rewrite filter_app.
    rewrite (filter_firstn_none _ is_aborted provider_items n);
      [reflexivity|apply live_never_aborted].
Qed.

Lemma C10_abort_ends_the_live_sequence_witness :
  input_model echo_stream [] = Some []
  /\ 1 < List.length
           (live (exec (schedule S1_abort_env)
                       (start_stream (stream_provider echo_stream)
                                     (run_env S1_abort_env)
                                     (stream_storage_id echo_stream)
                                     (runner echo_stream []))))
  /\ aborted_at S1_abort_env 1 = true
  /\ (forall k, k < 1 -> aborted_at S1_abort_env k = false)
  /\ items (StreamCaller_start echo_stream S1_abort_env [])
     = firstn 1 (live (exec (schedule S1_abort_env)
                            (start_stream (stream_provider echo_stream)
                                          (run_env S1_abort_env)
                                          (stream_storage_id echo_stream)
                                          (runner echo_stream []))))
       ++ [Aborted]
  /\ List.length (items (StreamCaller_start echo_stream S1_abort_env []))
     = 1 + 1
  /\ filter is_aborted (items (StreamCaller_start echo_stream S1_abort_env []))
     = [Aborted].
Proof.
  assert (Hk : forall k, k < 1 -> aborted_at S1_abort_env k = false).
  { intros k Hk. assert (k = 0) by lia. subst k. reflexivity. }
  split; [reflexivity|]. split; [vm_compute; lia|].
  split; [reflexivity|]. split; [exact Hk|].
  apply (C10_abort_ends_the_live_sequence echo_stream S1_abort_env [] [] 1);
    [reflexivity | vm_compute; lia | reflexivity | exact Hk].
Defined.

End FacadeClaims.

(* ================================================================== *)
(** * The engine: what every run delivers *)
(* ================================================================== *)

Module EngineExtras.
Import Py Token Aux PyFacts Engine EngineAux ResumeFacts EngineFacts.
Import Scenarios Protocol Runs.
Import JsonShape Wire WireFacts.
Local Open Scope nat_scope.

(** ** Schedules whose end markers are written *)

Lemma markers_invariant (P : State -> Prop) :
  (forall c st, marker_step_ok c st = true -> P st -> P (step c st)) ->
  forall sched st, end_markers_ok sched st = true -> P st -> P (exec sched st).
Proof.
  intros Hstep. induction sched as [|c sched IH]; intros st Hok H; [exact H|].
  cbn [end_markers_ok] in Hok. apply andb_true_iff in Hok as [Hc Hrest].
  rewrite exec_cons. apply IH; [exact Hrest|]. apply Hstep; assumption.
Qed.

Lemma all_io_ok_markers sched : forall st,
  all_io_ok sched = true -> end_markers_ok sched st = true.
Proof.
  induction sched as [|c sched IH]; intros st Hok; [reflexivity|].
  cbn in Hok. apply andb_true_iff in Hok as [Hc Hrest].
  cbn [end_markers_ok]. rewrite (IH _ Hrest), andb_true_r.
  destruct c as [io|]; [|reflexivity].
  unfold marker_step_ok. destruct (task st) as [|[]]; try reflexivity.
  exact Hc.
Qed.

(** ** The live sequence follows the runner *)

Lemma future_puts_after_return p c c0 t :
  future_puts p c t (after_return p c0 t)
  = future_puts p c0 t (IReturn :: nil).
Proof. unfold future_puts. rewrite expand_after_return. reflexivity. Qed.

Lemma future_puts_return p c t k :
  future_puts p c t (IReturn :: k) = future_puts p c t (IReturn :: nil).
Proof. reflexivity. Qed.

Lemma live_inv_step p t first ops c st :
  marker_step_ok c st = true ->
  live_inv p t first ops st -> live_inv p t first ops (step c st).
Proof.
  intros Hm (Hp & Ht & seen & Hl & Hq). destruct c as [io|]; cbn [step].
  - unfold task_step. unfold marker_step_ok in Hm.
    destruct (task st) as [|[item|b|x| |] k] eqn:Et.
    + repeat split; try assumption. exists seen. rewrite Et. now split.
    + repeat split; try assumption. exists seen. split; [exact Hl|].
      intros c. destruct (Hq c) as [c' Hc']. exists c'. exact Hc'.
    + destruct io; [|discriminate Hm].
      repeat split; try assumption. exists seen. split; [exact Hl|].
      intros c. destruct (Hq c) as [c' Hc']. exists c'. exact Hc'.
    + repeat split; try assumption. exists seen. split; [exact Hl|].
      intros c. destruct (Hq c) as [c' Hc']. exists c'. cbn.
      destruct (draining st); [|exact Hc'].
      rewrite Hc'. unfold future_puts. cbn. rewrite <- !app_assoc.
      reflexivity.
    + repeat split; try assumption. exists seen. split; [exact Hl|].
      intros c. destruct (Hq c) as [c' Hc']. exists c'. exact Hc'.
    + repeat split; try assumption. exists seen. split; [exact Hl|].
      intros c. destruct (Hq (chunk_count st)) as [c' Hc']. exists c'.
      unfold set_task. cbn [draining queue task live].
      destruct (draining st); [|exact Hc'].
      rewrite Hp, Ht, future_puts_after_return.
      rewrite future_puts_return in Hc'. exact Hc'.
  - unfold drain_step. destruct (draining st) eqn:Ed.
    + destruct (queue st) as [|[item|] q] eqn:Eq.
      * repeat split; try assumption. exists seen. split; [exact Hl|].
        intros c. destruct (Hq c) as [c' Hc']. exists c'.
        rewrite Ed, Eq. exact Hc'.
      * repeat split; try assumption. exists (seen ++ [item]). cbn.
        split; [rewrite Hl; reflexivity|].
        intros c. destruct (Hq c) as [c' Hc']. exists c'.
        rewrite Hc', map_app, <- app_assoc. reflexivity.
      * repeat split; try assumption. exists seen. cbn.
        split; [exact Hl|].
        intros c. destruct (Hq 0) as [c' Hc']. exists c'.
        eexists. rewrite Hc'. cbn. reflexivity.
    + repeat split; try assumption. exists seen. split; [exact Hl|].
      intros c. destruct (Hq c) as [c' Hc']. exists c'. rewrite Ed.
      exact Hc'.
Qed.

Lemma live_inv_start p env sid ops :
  live_inv p (elapsed_ms env) (start_chunk p sid (uuid4 env)) ops
           (start_stream p env sid ops).
Proof.
  repeat split. exists []. split; [reflexivity|].
  intros c. exists c. reflexivity.
Qed.

Lemma live_inv_exec p env sid ops sched :
  end_markers_ok sched (start_stream p env sid ops) = true ->
  live_inv p (elapsed_ms env) (start_chunk p sid (uuid4 env)) ops
           (exec sched (start_stream p env sid ops)).
Proof.
  intros Hok.
  apply (markers_invariant
           (live_inv p (elapsed_ms env) (start_chunk p sid (uuid4 env)) ops));
    [|exact Hok|apply live_inv_start].
  intros c st. apply live_inv_step.
Qed.

Lemma until_none_future p c t ops :
  until_none (future_puts p c t (run_stream p ops)) = expected c t ops.
Proof.
  unfold future_puts.
  induction ops as [|op ops IH]; [destruct p; reflexivity|].
  destruct op, p; cbn; try rewrite IH; try reflexivity; exact IH.
Qed.

Lemma until_none_some_app l xs :
  until_none (map Some l ++ xs) = l ++ until_none xs.
Proof. induction l as [|a l IH]; cbn; [reflexivity|]. now rewrite IH. Qed.


Lemma well_ended_expected c t ops : well_ended (expected c t ops) = true.
Proof.
  induction ops as [|op ops IH]; [reflexivity|].
  assert (Hne : expected c t ops <> []).
  { destruct (expected c t ops); [discriminate IH|discriminate]. }
  destruct op; cbn [expected]; try exact IH; try reflexivity;
    destruct (expected c t ops) eqn:E; try contradiction; cbn;
    cbn in IH; exact IH.
Qed.





(** ** Counting chunks *)

Lemma end_count_le_mono n m item :
  n <= m -> end_count_le n item = true -> end_count_le m item = true.
Proof.
  intros Hle. destruct item as [|[]|]; cbn; try reflexivity.
  rewrite !Nat.leb_le. lia.
Qed.

Lemma forallb_mono (A : Type) (f g : A -> bool) l :
  (forall a, f a = true -> g a = true) ->
  forallb f l = true -> forallb g l = true.
Proof.
  intros H. induction l as [|a l IH]; [reflexivity|]. cbn.
  rewrite !andb_true_iff. intros [Ha Hl]. split; [now apply H|now apply IH].
Qed.

Lemma put_count_le_mono n m x :
  n <= m -> put_count_le n x = true -> put_count_le m x = true.
Proof. destruct x; [apply end_count_le_mono|reflexivity]. Qed.

Lemma instr_count_le_mono n m i :
  n <= m -> instr_count_le n i = true -> instr_count_le m i = true.
Proof.
  destruct i; try reflexivity;
    [apply end_count_le_mono|apply put_count_le_mono].
Qed.

Lemma chunks_app a b : chunks (a ++ b) = chunks a + chunks b.
Proof. unfold chunks. now rewrite filter_app, length_app. Qed.

Lemma count_le_except n p msg :
  forallb (instr_count_le n) (except_branch p msg) = true.
Proof. destruct p; reflexivity. Qed.

Lemma count_le_after_return n p t :
  forallb (instr_count_le n) (after_return p n t) = true.
Proof. destruct p; cbn; rewrite Nat.leb_refl; reflexivity. Qed.

Lemma count_le_run_stream n p ops :
  forallb (instr_count_le n) (run_stream p ops) = true.
Proof.
  induction ops as [|op ops IH]; [reflexivity|].
  destruct op, p; cbn; try exact IH; reflexivity.
Qed.

Lemma count_inv_step c st : count_inv st -> count_inv (step c st).
Proof.
  intros (Hc & Hl & Hq & Ht). destruct c as [io|]; cbn [step].
  - unfold task_step.
    destruct (task st) as [|i k] eqn:Et;
      [unfold count_inv; rewrite Et; repeat split; assumption|].
    cbn [forallb] in Ht. apply andb_true_iff in Ht as [Hi Ht].
    destruct i as [item|b|x| |].
    + repeat split; assumption.
    + destruct io.
      * repeat split; assumption.
      * repeat split; try assumption. cbn [task set_task].
        destruct b; [reflexivity|apply count_le_except].
    + repeat split; try assumption.
      cbn [queue chunk_count]. rewrite forallb_app, Hq. cbn [forallb].
      cbn [instr_count_le] in Hi. now rewrite Hi.
    + repeat split; assumption.
    + repeat split; try assumption. cbn [task set_task].
      apply count_le_after_return.
  - unfold drain_step. destruct (draining st); [|repeat split; assumption].
    destruct (queue st) as [|[item|] q] eqn:Eq;
      [unfold count_inv; rewrite Eq; repeat split; assumption| |].
    + cbn [forallb] in Hq. apply andb_true_iff in Hq as [Hi Hq].
      cbn [put_count_le] in Hi.
      set (n := if is_chunk item then S (chunk_count st) else chunk_count st).
      assert (Hn : chunk_count st <= n)
        by (unfold n; destruct (is_chunk item); lia).
      repeat split; cbn [chunk_count live queue task]; fold n.
      * rewrite chunks_app, <- Hc. unfold n, chunks. cbn.
        destruct (is_chunk item); cbn; lia.
      * rewrite forallb_app. cbn [forallb].
        rewrite (end_count_le_mono _ _ _ Hn Hi), andb_true_r.
        revert Hl. apply forallb_mono. intros a. now apply end_count_le_mono.
      * revert Hq. apply forallb_mono. intros a. now apply put_count_le_mono.
      * revert Ht. apply forallb_mono. intros a. now apply instr_count_le_mono.
    + cbn [forallb] in Hq. apply andb_true_iff in Hq as [_ Hq].
      repeat split; cbn [chunk_count live queue task]; try assumption.
      destruct (provider st); [|assumption].
      destruct (task st); [assumption|reflexivity].
Qed.

Lemma count_inv_exec p env sid ops sched :
  count_inv (exec sched (start_stream p env sid ops)).
Proof.
  apply exec_invariant; [apply count_inv_step|].
  repeat split; cbn.
  - destruct p; reflexivity.
  - destruct p; reflexivity.
  - apply count_le_run_stream.
Qed.

Lemma start_chunk_not_chunk p sid rid :
  is_chunk (start_chunk p sid rid) = false.
Proof. destruct p; reflexivity. Qed.

Lemma chunks_start p sid rid l : chunks (start_chunk p sid rid :: l) = chunks l.
Proof. unfold chunks. cbn. now rewrite start_chunk_not_chunk. Qed.

(** X3: at every moment of every run, [chunk_count] is the number of chunks
    that [start_stream] has yielded; every [stream_end] that was yielded
    carries a [total_chunks] that is at most the number of chunks yielded;
    and while the loop runs, the chunks put on the queue so far are the
    chunks counted plus the chunks that still wait in the queue. *)
Theorem X3_chunk_count_is_the_number_of_chunks_yielded
        (p : Provider) (env : RunEnv) (sid : pystr) (ops : list RunnerOp)
        (sched : list Choice) :
  let st := exec sched (start_stream p env sid ops) in
  chunk_count st = chunks (live st)
  /\ forallb (end_count_le (chunks (live st))) (live st) = true
  /\ (if draining st
      then chunks (some_items (published st))
           = chunk_count st + chunks (some_items (queue st))
      else True).
Proof.
  intros st.
  destruct (count_inv_exec p env sid ops sched) as (Hc & Hl & _ & _).
  fold st in Hc, Hl. split; [exact Hc|]. split; [now rewrite <- Hc|].
  destruct (queue_inv_exec p env sid ops sched) as (seen & Hlive & Hpub).
  fold st in Hlive, Hpub.
  destruct (draining st); [|exact I].
  rewrite Hpub, Hc, Hlive, chunks_start. cbn [app].
  now rewrite some_items_app, some_items_map_Some, chunks_app.
Qed.

(** ** The value of [total_chunks] *)

Lemma expected_nonempty c t ops : expected c t ops <> [].
Proof.
  pose proof (well_ended_expected c t ops) as H.
  destruct (expected c t ops); [discriminate H|discriminate].
Qed.

Lemma last_cons_nonempty (A : Type) (a d : A) l :
  l <> [] -> last (a :: l) d = last l d.
Proof. destruct l; [contradiction|reflexivity]. Qed.

Lemma last_expected c t ops :
  last (expected c t ops) Aborted = Special (StreamEnd c t)
  \/ is_stream_end (last (expected c t ops) Aborted) = false.
Proof.
  induction ops as [|op ops IH]; [left; reflexivity|].
  pose proof (expected_nonempty c t ops) as Hne.
  destruct op; cbn [expected]; try exact IH;
    try (right; reflexivity);
    rewrite (last_cons_nonempty _ _ _ _ Hne); exact IH.
Qed.

Lemma expected_ends_with c t ops l c0 t0 :
  expected c t ops = l ++ [Special (StreamEnd c0 t0)] -> c = c0.
Proof.
  intros H. pose proof (last_expected c t ops) as Hl.
  rewrite H, last_last in Hl. destruct Hl as [Hl|Hl]; [|discriminate Hl].
  now injection Hl.
Qed.

Lemma chunks_expected c t ops : chunks (expected c t ops) = appended ops.
Proof.
  induction ops as [|op ops IH]; [reflexivity|].
  destruct op; cbn [expected appended]; try exact IH; try reflexivity.
  unfold chunks in *. cbn. now rewrite IH.
Qed.

Lemma not_return_after_return p c t :
  forallb not_return (after_return p c t) = true.
Proof. destruct p; reflexivity. Qed.

Lemma puts_after_return p c t :
  flat_map put_of (after_return p c t)
  = [Some (Special (StreamEnd c t)); None].
Proof. destruct p; reflexivity. Qed.

Lemma until_none_items l item :
  until_none (map Some l ++ [Some item; None]) = l ++ [item].
Proof. rewrite until_none_some_app. reflexivity. Qed.

(** X4: the value of [total_chunks], in a run whose Redis calls succeed.
    When the runner returns while the loop of [start_stream] runs and the
    queue holds the items [pending] (no completion signal), [chunk_count]
    is the number of chunks the runner appended minus the chunks among
    [pending], and the finished run delivers [stream_end] with that value:
    the count is right exactly when no chunk waits in the queue at the
    moment of the return. *)
Theorem X4_total_chunks_is_appended_minus_pending
        (p : Provider) (env : RunEnv) (sid : pystr) (ops : list RunnerOp)
        (s1 s2 : list Choice) (io : IoResult) (k : list Instr)
        (pending : list CallerStreamItem) :
  let st0 := start_stream p env sid ops in
  let st1 := exec s1 st0 in
  let st := exec (s1 ++ RunTask io :: s2) st0 in
  all_io_ok (s1 ++ RunTask io :: s2) = true ->
  task st1 = IReturn :: k ->
  draining st1 = true ->
  queue st1 = map Some pending ->
  finished st = true ->
  chunk_count st1 = appended ops - chunks pending
  /\ live st
     = start_chunk p sid (uuid4 env)
       :: expected (appended ops - chunks pending) (elapsed_ms env) ops.
Proof.
  intros st0 st1 st Hok Htask Hdr Hqueue Hfin.
  unfold all_io_ok in Hok. rewrite forallb_app in Hok.
  apply andb_true_iff in Hok as [Hok1 Hok2]. cbn in Hok2.
  apply andb_true_iff in Hok2 as [_ Hok2].
  destruct (live_inv_exec p env sid ops s1
              (all_io_ok_markers s1 st0 Hok1))
    as (Hp & Ht & seen & Hl & Hq).
  fold st0 st1 in Hp, Ht, Hl, Hq.
  destruct (Hq (chunk_count st1)) as [c' Hc'].
  rewrite Hdr, Htask, Hqueue, future_puts_return in Hc'.
  assert (Hexp : expected c' (elapsed_ms env) ops
                 = (seen ++ pending)
                   ++ [Special (StreamEnd (chunk_count st1) (elapsed_ms env))]).
  { rewrite <- until_none_future with (p := p), Hc'.
    unfold future_puts. cbn [expand]. rewrite puts_after_return.
    rewrite app_assoc, <- map_app. apply until_none_items. }
  pose proof (expected_ends_with _ _ _ _ _ _ Hexp) as Hcc. subst c'.
  destruct (count_inv_exec p env sid ops s1) as (Hc & _).
  fold st0 st1 in Hc.
  assert (Hcount : chunk_count st1 = appended ops - chunks pending).
  { rewrite <- (chunks_expected (chunk_count st1) (elapsed_ms env) ops), Hexp.
    rewrite !chunks_app, Hc, Hl, chunks_start. unfold chunks at 4. cbn. lia. }
  split; [exact Hcount|].
  unfold st. rewrite exec_app, exec_cons. fold st0 st1.
  assert (Hstep : step (RunTask io) st1
                  = set_task st1 (after_return p (chunk_count st1)
                                               (elapsed_ms env))).
  { cbn [step]. unfold task_step. rewrite Htask, Hp, Ht. reflexivity. }
  rewrite Hstep.
  rewrite exec_no_return.
  - cbn [live queue task set_task].
    rewrite Hl, Hqueue, puts_after_return, until_none_items. cbn [app].
    rewrite <- Hcount, Hexp, <- app_assoc. reflexivity.
  - exact Hok2.
  - apply not_return_after_return.
  - exact Hdr.
  - unfold st in Hfin. rewrite exec_app, exec_cons in Hfin.
    fold st0 st1 in Hfin. rewrite Hstep in Hfin. exact Hfin.
Qed.

Lemma X4_total_chunks_is_appended_minus_pending_witness :
  all_io_ok (S3_until_return ++ RunTask IoOk :: S3_after_return) = true
  /\ task (exec S3_until_return
                (start_stream RedisRiverProvider example_env
                              example_storage_id S3_runner)) = IReturn :: []
  /\ draining (exec S3_until_return
                    (start_stream RedisRiverProvider example_env
                                  example_storage_id S3_runner)) = true
  /\ queue (exec S3_until_return
                 (start_stream RedisRiverProvider example_env
                               example_storage_id S3_runner)) = map Some []
  /\ finished (exec (S3_until_return ++ RunTask IoOk :: S3_after_return)
                    (start_stream RedisRiverProvider example_env
                                  example_storage_id S3_runner)) = true
  /\ chunk_count (exec S3_until_return
                       (start_stream RedisRiverProvider example_env
                                     example_storage_id S3_runner))
     = appended S3_runner - chunks []
  /\ live (exec (S3_until_return ++ RunTask IoOk :: S3_after_return)
                (start_stream RedisRiverProvider example_env
                              example_storage_id S3_runner))
     = start_chunk RedisRiverProvider example_storage_id (uuid4 example_env)
       :: expected (appended S3_runner - chunks []) (elapsed_ms example_env)
                   S3_runner.
Proof.
  split; [vm_compute; reflexivity|]. split; [vm_compute; reflexivity|].
  split; [vm_compute; reflexivity|]. split; [vm_compute; reflexivity|].
  split; [vm_compute; reflexivity|].
  apply (X4_total_chunks_is_appended_minus_pending
           RedisRiverProvider example_env example_storage_id S3_runner
           S3_until_return S3_after_return IoOk [] []);
    vm_compute; reflexivity.
Defined.

(** ** A runner that raises *)





(** ** The Redis stream of a finished run *)





(** ** Resuming while the run goes on *)

Lemma redis_stream_step c st :
  exists l, redis_stream (step c st) = redis_stream st ++ l.
Proof.
  destruct c as [io|]; cbn [step].
  - unfold task_step. destruct (task st) as [|[item|b|x| |] k];
      try (exists []; cbn; now rewrite app_nil_r).
    + destruct io; [eexists; reflexivity|exists []; cbn; now rewrite app_nil_r].
    + destruct io; [eexists; reflexivity|exists []; cbn; now rewrite app_nil_r].
  - unfold drain_step. destruct (draining st);
      [|exists []; now rewrite app_nil_r].
    destruct (queue st) as [|[item|] q];
      exists []; cbn; now rewrite app_nil_r.
Qed.

Lemma redis_stream_grows sched : forall st,
  exists l, redis_stream (exec sched st) = redis_stream st ++ l.
Proof.
  induction sched as [|c sched IH]; intros st;
    [exists []; cbn; now rewrite app_nil_r|].
  rewrite exec_cons. destruct (IH (step c st)) as [l Hl].
  destruct (redis_stream_step c st) as [l0 Hl0].
  exists (l0 ++ l). rewrite Hl, Hl0, app_assoc. reflexivity.
Qed.

Lemma redis_stream_snapshot sched st m :
  exists k,
    redis_stream (exec (firstn m sched) st)
    = firstn k (redis_stream (exec sched st)).
Proof.
  destruct (redis_stream_grows (skipn m sched) (exec (firstn m sched) st))
    as [l Hl].
  rewrite <- exec_app, firstn_skipn in Hl.
  exists (List.length (redis_stream (exec (firstn m sched) st))).
  rewrite Hl, firstn_app, Nat.sub_diag, firstn_all. cbn.
  now rewrite app_nil_r.
Qed.

(** X7: a client that resumes while the run goes on, whenever its reads
    are served, is given a prefix of what the live subscriber of the run
    receives after [stream_start]: it sees no item the subscriber does not
    see, and none out of order.  This holds when the Redis calls of the
    run succeed and its runner sends payloads that [json] writes and reads
    back unchanged: every entry the reads find is then read back as the
    item that was written. *)
Theorem X7_resume_during_the_run_yields_a_prefix
        (float_repr : N -> pystr) (env : RunEnv) (sid : pystr)
        (ops : list RunnerOp) (sched : list Choice) (read_at : nat -> nat) :
  let st0 := start_stream RedisRiverProvider env sid ops in
  let stream_at := fun n => redis_stream (exec (firstn (read_at n) sched) st0) in
  forallb wf_op ops = true ->
  number_literal (float_repr (elapsed_ms env)) = true ->
  all_io_ok sched = true -> finished (exec sched st0) = true ->
  (forall n, Forall (read_back float_repr) (stream_at n))
  /\ exists rest,
      tl (live (exec sched st0)) = yielded (resume_stream stream_at) ++ rest.
Proof.
  intros st0 stream_at Hops Htime Hok Hfin. split.
  { intros n. apply stream_read_back; try assumption.
    now apply all_io_ok_firstn. }
  destruct (finished_run env sid ops sched Hok Hfin)
    as (c & seen & q & Hs & Hq & Hl). fold st0 in Hs, Hl.
  assert (Hreplay : replay (redis_stream (exec sched st0)) = seen).
  { rewrite Hs, replay_stream_of, Hq. apply until_none_map_Some. }
  rewrite Hl. cbn [tl]. rewrite <- Hreplay.
  apply resume_stream_prefix.
  intros n. apply redis_stream_snapshot.
Qed.

Lemma X7_resume_during_the_run_yields_a_prefix_witness :
  forallb wf_op S3_runner = true
  /\ number_literal (example_float_repr (elapsed_ms example_env)) = true
  /\ all_io_ok S3_schedule = true
  /\ finished (exec S3_schedule
                  (start_stream RedisRiverProvider example_env
                                example_storage_id S3_runner)) = true
  /\ (forall n,
        Forall (read_back example_float_repr)
               (redis_stream
                  (exec (firstn (S3_read_at n) S3_schedule)
                        (start_stream RedisRiverProvider example_env
                                      example_storage_id S3_runner))))
  /\ exists rest,
      tl (live (exec S3_schedule
                  (start_stream RedisRiverProvider example_env
                                example_storage_id S3_runner)))
      = yielded (resume_stream
                   (fun n =>
                      redis_stream
                        (exec (firstn (S3_read_at n) S3_schedule)
                              (start_stream RedisRiverProvider example_env
                                            example_storage_id S3_runner))))
        ++ rest.
Proof.
  split; [vm_compute; reflexivity|]. split; [vm_compute; reflexivity|].
  split; [vm_compute; reflexivity|]. split; [vm_compute; reflexivity|].
  apply (X7_resume_during_the_run_yields_a_prefix
           example_float_repr example_env example_storage_id S3_runner
           S3_schedule S3_read_at);
    vm_compute; reflexivity.
Defined.

End EngineExtras.

(* ================================================================== *)
(** * Resuming through the adapter: what the handlers answer *)
(* ================================================================== *)

Module AdapterExtras.
Import Py Token Aux PyFacts Engine EngineAux ResumeFacts EngineFacts.
Import Facade Scenarios Protocol Runs Adapter AdapterRuns.
Import JsonShape Wire WireFacts.
Local Open Scope nat_scope.



Lemma b64encode_dumps_object kvs :
  exists c rest, b64encode (json_dumps (JObject kvs)) = c :: rest.
Proof.
  cbn [json_dumps].
  destruct (join (lit ", ")
              (map (fun kv => encode_basestring_ascii (fst kv) ++ lit ": "
                              ++ json_dumps (snd kv)) kvs) ++ [125])%N
    as [|b [|c l]]; cbn [b64encode]; eexists; eexists; reflexivity.
Qed.

Lemma dict_get_router_stream_key t :
  dict_get (token_dict t) (lit "router_stream_key")
  = Some (JString (router_stream_key t)).
Proof. reflexivity. Qed.

(** What [get_handler] does with the encoding of a token whose fields are
    strings. *)
Lemma get_handler_encoded format_value router redis_at key_prefix t :
  valid_token t = true ->
  get_handler format_value router redis_at key_prefix
              (@Some pystr (b64encode (json_dumps (JObject (token_dict t)))))
  = match get_stream router (router_stream_key t) with
    | None => GetHTTPException 404
    | Some stream =>
      GetEventSource
        (resume_on format_value stream redis_at key_prefix
                   (b64encode (json_dumps (JObject (token_dict t)))))
    end.
Proof.
  intros Hv.
  destruct (b64encode_dumps_object (token_dict t)) as (c & rest & He).
  unfold get_handler. rewrite He at 1.
  unfold decode_resumption_token. rewrite (decode_body_encoded _ Hv).
  rewrite dict_get_router_stream_key. reflexivity.
Qed.

(** X8: the resumption token that [RedisRiverProvider.start_stream] sends
    in [stream_start] carries the empty string as [router_stream_key], and
    no code fills it in.  Sent back as it was received, it makes
    [get_handler] answer 404, unless the router has a stream whose name is
    the empty string. *)
Theorem X8_token_of_stream_start_is_answered_404
        (format_value : json -> pystr) (router : RiverRouter)
        (redis_at : nat -> pystr -> list Entry)
        (key_prefix : pystr) (env : RunEnv) (sid : pystr) :
  valid_str sid = true -> valid_str (uuid4 env) = true ->
  get_stream router [] = None ->
  exists resume_key,
    start_chunk RedisRiverProvider sid (uuid4 env)
    = Special (StreamStart (uuid4 env) (Some resume_key))
    /\ decode_resumption_token resume_key
       = Ok (token_dict (start_token sid (uuid4 env)))
    /\ get_handler format_value router redis_at key_prefix (Some resume_key)
       = GetHTTPException 404.
Proof.
  intros Hs Hr Hnone.
  assert (Hv : valid_token (start_token sid (uuid4 env)) = true).
  { unfold valid_token, start_token.
    cbn [Token.provider_id Token.router_stream_key Token.stream_storage_id
         Token.stream_run_id].
    rewrite Hs, Hr. reflexivity. }
  exists (b64encode
            (json_dumps (JObject (token_dict (start_token sid (uuid4 env)))))).
  split; [|split].
  - unfold start_chunk. now rewrite encode_resumption_token_eq.
  - unfold decode_resumption_token. now rewrite (decode_body_encoded _ Hv).
  - rewrite (get_handler_encoded format_value router redis_at key_prefix _ Hv).
    cbn [router_stream_key start_token]. now rewrite Hnone.
Qed.

Lemma X8_token_of_stream_start_is_answered_404_witness :
  valid_str example_storage_id = true
  /\ valid_str (uuid4 example_env) = true
  /\ get_stream example_router [] = None
  /\ exists resume_key,
    start_chunk RedisRiverProvider example_storage_id (uuid4 example_env)
    = Special (StreamStart (uuid4 example_env) (Some resume_key))
    /\ decode_resumption_token resume_key
       = Ok (token_dict (start_token example_storage_id (uuid4 example_env)))
    /\ get_handler example_format example_router S3_redis example_key_prefix
                   (Some resume_key)
       = GetHTTPException 404.
Proof.
  split; [vm_compute; reflexivity|]. split; [vm_compute; reflexivity|].
  split; [vm_compute; reflexivity|].
  apply (X8_token_of_stream_start_is_answered_404
           example_format example_router S3_redis example_key_prefix example_env
           example_storage_id); vm_compute; reflexivity.
Defined.




(** X10: resuming a stream of the default provider.  [get_handler] answers
    200 to every well-formed token that names such a stream, and the body
    fails at its first iteration with [TypeError]: the [RiverError] of type
    [PROVIDER] that [DefaultRiverProvider.resume_stream] is written to raise
    is never raised, because the method has no [yield] and its body does not
    run under [async for]. *)
Theorem X10_resume_on_the_default_provider
        (format_value : json -> pystr) (router : RiverRouter)
        (redis_at : nat -> pystr -> list Entry)
        (key_prefix : pystr) (stream : RiverStream) (t : ResumptionToken) :
  valid_token t = true ->
  get_stream router (router_stream_key t) = Some stream ->
  stream_provider stream = DefaultRiverProvider ->
  exists resume_key,
    encode_resumption_token (token_dict t) = Some resume_key
    /\ get_handler format_value router redis_at key_prefix (Some resume_key)
       = GetEventSource {| body_items := [];
                           body_ending := BodyRaised TypeError |}
    /\ get_status (get_handler format_value router redis_at key_prefix
                               (Some resume_key))
       = 200.
Proof.
  intros Hv Hget Hprov.
  exists (b64encode (json_dumps (JObject (token_dict t)))).
  split; [apply encode_resumption_token_eq|].
  rewrite (get_handler_encoded format_value router redis_at key_prefix _ Hv).
  rewrite Hget.
  unfold resume_on, resume_decode. rewrite (decode_body_encoded _ Hv), Hprov.
  split; reflexivity.
Qed.

Lemma X10_resume_on_the_default_provider_witness :
  valid_token (named_token (lit "echo") example_storage_id
                           (uuid4 example_env)) = true
  /\ get_stream example_router
       (router_stream_key (named_token (lit "echo") example_storage_id
                                       (uuid4 example_env)))
     = Some echo_stream
  /\ stream_provider echo_stream = DefaultRiverProvider
  /\ exists resume_key,
    encode_resumption_token
      (token_dict (named_token (lit "echo") example_storage_id
                               (uuid4 example_env))) = Some resume_key
    /\ get_handler example_format example_router no_redis example_key_prefix
                   (Some resume_key)
       = GetEventSource {| body_items := [];
                           body_ending := BodyRaised TypeError |}
    /\ get_status (get_handler example_format example_router no_redis
                               example_key_prefix
                               (Some resume_key))
       = 200.
Proof.
  split; [vm_compute; reflexivity|]. split; [vm_compute; reflexivity|].
  split; [vm_compute; reflexivity|].
  apply (X10_resume_on_the_default_provider
           example_format example_router no_redis example_key_prefix echo_stream
           (named_token (lit "echo") example_storage_id (uuid4 example_env)));
    vm_compute; reflexivity.
Defined.

(** X11: [post_handler] never answers 404.  For a name that no stream is
    registered under it raises [HTTPException(404)] inside its [try] block,
    where [except Exception] catches it and answers 500. *)
Theorem X11_post_handler_answers_500_to_an_unknown_stream
        (router : RiverRouter) (env : CallEnv) (b input : pydict)
        (key : pystr) :
  StartStreamRequest b = Some (key, input) ->
  get_stream router key = None ->
  post_handler router env (Some (JObject b)) = HTTPException 500
  /\ forall body, status (post_handler router env body) <> 404.
Proof.
  intros Hreq Hget. split.
  - unfold post_handler. now rewrite Hreq, Hget.
  - intros body. unfold post_handler.
    destruct body as [[| | | | |kvs]|]; try discriminate.
    destruct (StartStreamRequest kvs) as [[k i]|]; [|discriminate].
    destruct (get_stream router k); discriminate.
Qed.

Lemma X11_post_handler_answers_500_to_an_unknown_stream_witness :
  StartStreamRequest
    [(lit "router_stream_key", JString (lit "nonexistent"));
     (lit "input", JObject [(lit "prompt", JString (lit "test"))])]
  = Some (lit "nonexistent", [(lit "prompt", JString (lit "test"))])
  /\ get_stream example_router (lit "nonexistent") = None
  /\ post_handler example_router S2_env
       (Some (JObject
                [(lit "router_stream_key", JString (lit "nonexistent"));
                 (lit "input",
                  JObject [(lit "prompt", JString (lit "test"))])]))
     = HTTPException 500
  /\ forall body, status (post_handler example_router S2_env body) <> 404.
Proof.
  split; [vm_compute; reflexivity|]. split; [vm_compute; reflexivity|].
  apply (X11_post_handler_answers_500_to_an_unknown_stream
           example_router S2_env
           [(lit "router_stream_key", JString (lit "nonexistent"));
            (lit "input", JObject [(lit "prompt", JString (lit "test"))])]
           [(lit "prompt", JString (lit "test"))] (lit "nonexistent"));
    vm_compute; reflexivity.
Defined.

(** ** Tokens are not canonical *)

Lemma a2b_base64_skip c rest quad_pos leftchar pads :
  b64_significant c = false ->
  a2b_base64 (c :: rest) quad_pos leftchar pads
  = a2b_base64 rest quad_pos leftchar pads.
Proof.
  unfold b64_significant. intros H. cbn [a2b_base64].
  destruct (b64val c); [discriminate H|]. now rewrite H.
Qed.

Lemma a2b_base64_insert c s2 : forall s1 quad_pos leftchar pads,
  b64_significant c = false ->
  a2b_base64 (s1 ++ c :: s2) quad_pos leftchar pads
  = a2b_base64 (s1 ++ s2) quad_pos leftchar pads.
Proof.
  induction s1 as [|x s1 IH]; intros quad_pos leftchar pads H.
  - apply a2b_base64_skip, H.
  - cbn [app a2b_base64].
    repeat match goal with
           | |- context [if ?b then _ else _] => destruct b
           | |- context [match b64val ?x with _ => _ end] =>
             destruct (b64val x)
           end;
      try reflexivity; rewrite IH by exact H; reflexivity.
Qed.

(** X12: decoding ignores every ASCII character that is neither in the
    base-64 alphabet nor the padding character, wherever it stands: a
    string with such a character inserted decodes to the same token, or is
    refused like the string without it.  The encoding of a token is
    therefore not the only string that decodes to it. *)
Theorem X12_decoding_ignores_characters_outside_the_alphabet
        (s1 s2 : pystr) (c : N) :
  is_ascii c = true -> b64_significant c = false ->
  decode_resumption_token (s1 ++ c :: s2) = decode_resumption_token (s1 ++ s2)
  /\ resume_decode (s1 ++ c :: s2) = resume_decode (s1 ++ s2).
Proof.
  intros Ha Hc.
  assert (H : decode_body (s1 ++ c :: s2) = decode_body (s1 ++ s2)).
  { unfold decode_body, b64decode, ascii_encode.
    rewrite !forallb_app. cbn [forallb]. rewrite Ha. cbn [andb].
    destruct (forallb is_ascii s1 && forallb is_ascii s2); [|reflexivity].
    now rewrite a2b_base64_insert. }
  unfold decode_resumption_token, resume_decode. now rewrite H.
Qed.

Lemma X12_decoding_ignores_characters_outside_the_alphabet_witness :
  is_ascii 45 = true /\ b64_significant 45 = false
  /\ decode_resumption_token (lit "e3" ++ 45%N :: lit "0=")
     = decode_resumption_token (lit "e3" ++ lit "0=")
  /\ resume_decode (lit "e3" ++ 45%N :: lit "0=")
     = resume_decode (lit "e3" ++ lit "0=").
Proof.
  split; [vm_compute; reflexivity|]. split; [vm_compute; reflexivity|].
  apply (X12_decoding_ignores_characters_outside_the_alphabet
           (lit "e3") (lit "0=") 45%N); vm_compute; reflexivity.
Defined.

(** X13: a resume key that holds a character outside ASCII is refused
    before any decoding: [decode_resumption_token] raises [ValueError],
    [StreamCaller.resume] raises the [RiverError] of type
    [INVALID_RESUMPTION_TOKEN], and [get_handler] answers 400. *)
Theorem X13_non_ascii_resume_key_is_refused
        (format_value : json -> pystr) (router : RiverRouter)
        (redis_at : nat -> pystr -> list Entry)
        (key_prefix : pystr) (stream : RiverStream) (s : pystr) :
  forallb is_ascii s = false ->
  decode_resumption_token s = Raise ValueError
  /\ resume_decode s = Raise (RiverError INVALID_RESUMPTION_TOKEN)
  /\ resume_on format_value stream redis_at key_prefix s
     = {| body_items := [];
          body_ending := BodyRaised (Exn (RiverError INVALID_RESUMPTION_TOKEN)) |}
  /\ get_handler format_value router redis_at key_prefix (Some s)
     = GetHTTPException 400.
Proof.
  intros H.
  assert (Hd : decode_body s = None).
  { unfold decode_body, b64decode, ascii_encode. now rewrite H. }
  unfold resume_on, get_handler, decode_resumption_token, resume_decode.
  rewrite Hd. repeat split. destruct s; reflexivity.
Qed.

Lemma X13_non_ascii_resume_key_is_refused_witness :
  forallb is_ascii (lit "e30" ++ [233%N]) = false
  /\ decode_resumption_token (lit "e30" ++ [233%N]) = Raise ValueError
  /\ resume_decode (lit "e30" ++ [233%N])
     = Raise (RiverError INVALID_RESUMPTION_TOKEN)
  /\ resume_on example_format orders_stream no_redis example_key_prefix
                (lit "e30" ++ [233%N])
     = {| body_items := [];
          body_ending := BodyRaised (Exn (RiverError INVALID_RESUMPTION_TOKEN)) |}
  /\ get_handler example_format example_router no_redis example_key_prefix
                 (Some (lit "e30" ++ [233%N]))
     = GetHTTPException 400.
Proof.
  split; [vm_compute; reflexivity|].
  apply (X13_non_ascii_resume_key_is_refused
           example_format example_router no_redis example_key_prefix
           orders_stream
           (lit "e30" ++ [233%N])); vm_compute; reflexivity.
Defined.

(** ** The key of a run in Redis *)

Lemma split_at_last_colon : forall s1 s2 r1 r2 : pystr,
  existsb (N.eqb 58) r1 = false -> existsb (N.eqb 58) r2 = false ->
  s1 ++ 58%N :: r1 = s2 ++ 58%N :: r2 -> s1 = s2 /\ r1 = r2.
Proof.
  induction s1 as [|a s1 IH]; intros [|b s2] r1 r2 H1 H2 H; cbn in H.
  - injection H as H. now split.
  - injection H as Hb H. rewrite H, existsb_app in H1. cbn in H1.
    rewrite orb_true_r in H1. discriminate H1.
  - injection H as Ha H. rewrite <- H, existsb_app in H2. cbn in H2.
    rewrite orb_true_r in H2. discriminate H2.
  - injection H as Hab H. destruct (IH s2 r1 r2 H1 H2 H) as [-> ->].
    now subst.
Qed.

(** X14: runs do not share a Redis stream.  For one key prefix and run
    identifiers without a colon (a [uuid4] has none), [_make_stream_key]
    gives equal keys only to equal pairs of storage identifier and run
    identifier, even when storage identifiers contain colons. *)
Theorem X14_stream_keys_of_distinct_runs_differ
        (key_prefix sid1 rid1 sid2 rid2 : pystr) :
  existsb (N.eqb 58) rid1 = false -> existsb (N.eqb 58) rid2 = false ->
  _make_stream_key key_prefix sid1 rid1 = _make_stream_key key_prefix sid2 rid2 ->
  sid1 = sid2 /\ rid1 = rid2.
Proof.
  intros H1 H2 H. unfold _make_stream_key in H.
  apply app_inv_head in H. now apply split_at_last_colon.
Qed.

Lemma X14_stream_keys_of_distinct_runs_differ_witness :
  existsb (N.eqb 58) (uuid4 example_env) = false
  /\ existsb (N.eqb 58) (uuid4 example_env) = false
  /\ _make_stream_key example_key_prefix (lit "a:b") (uuid4 example_env)
     = _make_stream_key example_key_prefix (lit "a:b") (uuid4 example_env)
  /\ lit "a:b" = lit "a:b" /\ uuid4 example_env = uuid4 example_env.
Proof.
  split; [vm_compute; reflexivity|]. split; [vm_compute; reflexivity|].
  split; [reflexivity|].
  apply (X14_stream_keys_of_distinct_runs_differ
           example_key_prefix (lit "a:b") (uuid4 example_env)
           (lit "a:b") (uuid4 example_env)); vm_compute; reflexivity.
Defined.

End AdapterExtras.

(* ================================================================== *)
(** * Errors and the abort signal: round trip and callbacks *)
(* ================================================================== *)

Module ErrorExtras.
Import Py Token Engine Errors Signal.
Local Open Scope nat_scope.

Lemma RiverErrorType_call_value ty :
  RiverErrorType_call (JString (value ty)) = Some ty.
Proof. destruct ty; reflexivity. Qed.

(** X15: [RiverError.from_dict(error.to_dict())] rebuilds the error: the
    same message, the same type and the same details; [RiverErrorType(v)]
    maps the value of every member back to the member; and a dict without
    [details] gives an error with empty details. *)
Theorem X15_from_dict_inverts_to_dict
        (number_is_zero : pystr -> bool) (e : ErrorDict) :
  from_dict number_is_zero (to_dict e)
  = Ok {| obj_message := JString (message e);
          obj_error_type := error_type e;
          obj_details := JObject (details e) |}
  /\ RiverErrorType_call (JString (value (error_type e))) = Some (error_type e)
  /\ from_dict number_is_zero
       [ (lit "message", JString (message e));
         (lit "error_type", JString (value (error_type e))) ]
     = Ok {| obj_message := JString (message e);
             obj_error_type := error_type e;
             obj_details := JObject [] |}.
Proof.
  split; [|split].
  - unfold from_dict, to_dict.
    change (dict_get _ (lit "message")) with (Some (JString (message e))).
    change (dict_get _ (lit "error_type"))
      with (Some (JString (value (error_type e)))).
    change (dict_get _ (lit "details")) with (Some (JObject (details e))).
    cbv beta iota. rewrite RiverErrorType_call_value. unfold RiverError_init.
    destruct (details e); reflexivity.
  - apply RiverErrorType_call_value.
  - unfold from_dict.
    change (dict_get _ (lit "message")) with (Some (JString (message e))).
    change (dict_get _ (lit "error_type"))
      with (Some (JString (value (error_type e)))).
    change (dict_get _ (lit "details")) with (@None json).
    cbv beta iota. rewrite RiverErrorType_call_value. reflexivity.
Qed.

Lemma run_app ops1 ops2 s called :
  run (ops1 ++ ops2) s called
  = run ops2 (fst (run ops1 s called)) (snd (run ops1 s called)).
Proof.
  revert s called. induction ops1 as [|op ops1 IH]; intros s called;
    [reflexivity|].
  destruct op; cbn [app run abort]; apply IH.
Qed.

Lemma run_without_abort ops : forall s called,
  existsb is_abort ops = false ->
  snd (run ops s called) = called
  /\ aborted (fst (run ops s called)) = aborted s
  /\ _callbacks (fst (run ops s called)) = _callbacks s ++ registered ops.
Proof.
  induction ops as [|op ops IH]; intros s called H.
  - cbn. now rewrite app_nil_r.
  - destruct op; [discriminate H|]. cbn in H. cbn [run registered].
    destruct (IH (on_abort s callback) called H) as (H1 & H2 & H3).
    repeat split; [exact H1|exact H2|].
    rewrite H3. cbn. now rewrite <- app_assoc.
Qed.

(** X16: [on_abort] never calls the callback it registers, even on a signal
    that is already aborted: a callback registered after the last call of
    [abort] is never called.  Registering it changes neither the calls made
    nor the flag. *)
Theorem X16_callback_registered_after_abort_is_never_called
        (pre post : list SignalOp) (callback : nat) :
  existsb is_abort post = false ->
  snd (run (pre ++ OnAbort callback :: post) new [])
  = snd (run pre new [])
  /\ aborted (fst (run (pre ++ OnAbort callback :: post) new []))
     = existsb is_abort pre.
Proof.
  intros H. rewrite run_app.
  assert (H' : existsb is_abort (OnAbort callback :: post) = false)
    by exact H.
  destruct (run_without_abort (OnAbort callback :: post)
              (fst (run pre new [])) (snd (run pre new [])) H')
    as (H1 & H2 & _).
  split; [exact H1|]. rewrite H2.
  assert (Hgen : forall s called,
             aborted (fst (run pre s called))
             = aborted s || existsb is_abort pre).
  { clear. induction pre as [|op pre IH]; intros s called.
    - cbn. now rewrite orb_false_r.
    - destruct op; cbn [run abort existsb is_abort]; rewrite IH; cbn.
      + now rewrite orb_true_r.
      + reflexivity. }
  rewrite Hgen. reflexivity.
Qed.

Lemma X16_callback_registered_after_abort_is_never_called_witness :
  existsb is_abort [OnAbort 3] = false
  /\ snd (run ([OnAbort 1; Abort] ++ OnAbort 2 :: [OnAbort 3]) new [])
     = snd (run [OnAbort 1; Abort] new [])
  /\ aborted (fst (run ([OnAbort 1; Abort] ++ OnAbort 2 :: [OnAbort 3])
                        new []))
     = existsb is_abort [OnAbort 1; Abort].
Proof.
  split; [reflexivity|].
  apply (X16_callback_registered_after_abort_is_never_called
           [OnAbort 1; Abort] [OnAbort 3] 2); reflexivity.
Defined.

End ErrorExtras.

(* ================================================================== *)
(** * Starting through the adapter *)
(* ================================================================== *)

Module FacadeExtras.
Import Py Token Engine EngineAux EngineFacts Facade Scenarios Protocol.
Import EngineExtras Adapter AdapterRuns.
Local Open Scope nat_scope.




End FacadeExtras.

(* ================================================================== *)
(** * Items on the wire: what is written is what is read *)
(* ================================================================== *)

Module WireExtras.
Import Py Token Aux PyFacts Engine Facade Errors Adapter AdapterRuns.
Import Scenarios JsonShape Wire JsonFacts WireFacts.
Local Open Scope N_scope.

(** X18: an item that [_write_to_redis] stores is read back by
    [resume_stream] as the same item.  The entry holds
    [json.dumps({"item": item})]; the loop of [resume_stream] decodes the
    data field, yields the dict of the item, and returns after it exactly
    when the item is a [stream_end] or a [stream_fatal_error]; on the end
    marker it returns without yielding. *)
Theorem X18_what_is_written_to_redis_is_read_back
        (float_repr : N -> pystr) (item : CallerStreamItem) :
  wf_item float_repr item = true ->
  exists data,
    _write_to_redis float_repr item = Some [(lit "data", data)]
    /\ process_message [(lit "data", data)]
       = SYield (item_json float_repr item) (is_terminal item)
    /\ process_message end_marker = SReturn.
Proof.
  intros Hwf.
  assert (Hw : wf_json (JObject [(lit "item", item_json float_repr item)])
               = true).
  { change (wf_json (JObject [(lit "item", item_json float_repr item)]))
      with (wf_json (item_json float_repr item) && true && true).
    now rewrite (wf_item_json _ _ Hwf). }
  pose proof (json_dumps_ascii _ Hw) as Ha.
  exists (json_dumps (JObject [(lit "item", item_json float_repr item)])).
  split; [|split; [|reflexivity]].
  - unfold _write_to_redis. now rewrite (utf8_encode_ascii _ Ha).
  - unfold process_message.
    change (field _ (lit "end")) with (@None pybytes).
    change (field [(lit "data", ?d)] (lit "data")) with (Some d).
    cbv beta iota.
    rewrite dumps_object at 1. cbv beta iota.
    rewrite (utf8_decode_ascii _ Ha), (json_loads_dumps _ Hw).
    change (dict_get [(lit "item", ?v)] (lit "item")) with (Some v).
    cbv beta iota. now rewrite ends_replay_item.
Qed.

Lemma X18_what_is_written_to_redis_is_read_back_witness :
  wf_item (fun t => int_repr (N.to_nat t) ++ lit ".0")
          (Special (StreamEnd 2 12)) = true
  /\ exists data,
    _write_to_redis (fun t => int_repr (N.to_nat t) ++ lit ".0")
                    (Special (StreamEnd 2 12))
    = Some [(lit "data", data)]
    /\ process_message [(lit "data", data)]
       = SYield (item_json (fun t => int_repr (N.to_nat t) ++ lit ".0")
                           (Special (StreamEnd 2 12)))
                (is_terminal (Special (StreamEnd 2 12)))
    /\ process_message end_marker = SReturn.
Proof.
  split; [vm_compute; reflexivity|].
  apply (X18_what_is_written_to_redis_is_read_back
           (fun t => int_repr (N.to_nat t) ++ lit ".0")
           (Special (StreamEnd 2 12))).
  vm_compute; reflexivity.
Defined.

(** ** Tokens that are any JSON *)

(** X19: decoding accepts the base-64 of the JSON text of any dict and
    returns that dict as it is, whatever its keys: fields beyond the four
    of a token are kept, and missing ones go unnoticed.  The JSON text of
    anything that is no dict (a list, a string, a number, a boolean,
    [null]) is refused. *)
Theorem X19_any_json_object_is_a_token (v : json) :
  wf_json v = true ->
  decode_resumption_token (b64encode (json_dumps v))
  = match v with
    | JObject d => Ok d
    | _ => Raise ValueError
    end
  /\ resume_decode (b64encode (json_dumps v))
     = match v with
       | JObject d => Ok d
       | _ => Raise (RiverError INVALID_RESUMPTION_TOKEN)
       end.
Proof.
  intros Hwf. pose proof (json_dumps_ascii _ Hwf) as Ha.
  assert (H : decode_body (b64encode (json_dumps v))
              = match v with JObject d => Some d | _ => None end).
  { unfold decode_body.
    rewrite (b64decode_b64encode _ Ha), (utf8_decode_ascii _ Ha),
            (json_loads_dumps _ Hwf).
    destruct v; reflexivity. }
  unfold decode_resumption_token, resume_decode. rewrite H.
  destruct v; split; reflexivity.
Qed.

Lemma X19_any_json_object_is_a_token_witness :
  wf_json (JObject [(lit "stream_run_id", JNumber (lit "7"));
                    (lit "extra", JArray [JNull; JBool true])]) = true
  /\ decode_resumption_token
       (b64encode
          (json_dumps (JObject [(lit "stream_run_id", JNumber (lit "7"));
                                (lit "extra", JArray [JNull; JBool true])])))
     = Ok [(lit "stream_run_id", JNumber (lit "7"));
           (lit "extra", JArray [JNull; JBool true])]
  /\ resume_decode
       (b64encode
          (json_dumps (JObject [(lit "stream_run_id", JNumber (lit "7"));
                                (lit "extra", JArray [JNull; JBool true])])))
     = Ok [(lit "stream_run_id", JNumber (lit "7"));
           (lit "extra", JArray [JNull; JBool true])].
Proof.
  split; [vm_compute; reflexivity|].
  apply (X19_any_json_object_is_a_token
           (JObject [(lit "stream_run_id", JNumber (lit "7"));
                     (lit "extra", JArray [JNull; JBool true])])).
  vm_compute; reflexivity.
Defined.

(** X20: a resume key that decodes to a dict without [router_stream_key]
    is answered 500 by [get_handler], not 400: the [KeyError] of
    [token["router_stream_key"]] is no [ValueError] and reaches
    [except Exception]. *)
Theorem X20_token_without_router_stream_key_is_answered_500
        (format_value : json -> pystr) (router : RiverRouter)
        (redis_at : nat -> pystr -> list Entry)
        (key_prefix : pystr) (d : pydict) :
  wf_json (JObject d) = true ->
  dict_get d (lit "router_stream_key") = None ->
  decode_resumption_token (b64encode (json_dumps (JObject d))) = Ok d
  /\ get_handler format_value router redis_at key_prefix
                 (@Some pystr (b64encode (json_dumps (JObject d))))
     = GetHTTPException 500.
Proof.
  intros Hwf Hkey.
  assert (Hd : decode_resumption_token (b64encode (json_dumps (JObject d)))
               = Ok d).
  { unfold decode_resumption_token. now rewrite (decode_body_dumps _ Hwf). }
  split; [exact Hd|].
  unfold get_handler. rewrite Hd, Hkey.
  destruct d as [|[k v] d]; [reflexivity|].
  rewrite dumps_object.
  destruct (b64encode (123 :: 34 :: members k v d ++ [125])) eqn:E;
    [|reflexivity].
  destruct (members k v d ++ [125]) as [|x [|y l]]; discriminate E.
Qed.

Lemma X20_token_without_router_stream_key_is_answered_500_witness :
  wf_json (JObject []) = true
  /\ dict_get [] (lit "router_stream_key") = None
  /\ decode_resumption_token (b64encode (json_dumps (JObject []))) = Ok []
  /\ get_handler example_format example_router no_redis example_key_prefix
                 (@Some pystr (b64encode (json_dumps (JObject []))))
     = GetHTTPException 500.
Proof.
  split; [reflexivity|]. split; [reflexivity|].
  apply (X20_token_without_router_stream_key_is_answered_500
           example_format example_router no_redis example_key_prefix []);
    reflexivity.
Defined.

End WireExtras.

(* ================================================================== *)
(** * The client: the loop over the texts of a response *)
(* ================================================================== *)

Module ClientExtras.
Import Py Token Aux PyFacts Engine Errors JsonShape Wire Client JsonFacts.
Import WireFacts.
Local Open Scope N_scope.

(** ** Splitting at the first blank line *)

Lemma split_message_cons x y b :
  split_message (x :: y :: b)
  = if (x =? 10) && (y =? 10) then Some ([], b)
    else match split_message (y :: b) with
         | Some (m, r) => Some (x :: m, r)
         | None => None
         end.
Proof. reflexivity. Qed.

Lemma split_message_other c s :
  c <> 10 ->
  split_message (c :: s)
  = match split_message s with
    | Some (m, r) => Some (c :: m, r)
    | None => None
    end.
Proof.
  intros Hc. destruct s as [|d s]; [reflexivity|].
  rewrite split_message_cons.
  now replace (c =? 10) with false by (symmetry; apply N.eqb_neq; exact Hc).
Qed.

Lemma split_message_app b c : forall m r,
  split_message b = Some (m, r) -> split_message (b ++ c) = Some (m, r ++ c).
Proof.
  induction b as [|x b IH]; intros m r H; [discriminate H|].
  destruct b as [|y b]; [discriminate H|].
  change ((x :: y :: b) ++ c) with (x :: y :: (b ++ c)).
  rewrite split_message_cons in H. rewrite split_message_cons.
  destruct ((x =? 10) && (y =? 10)).
  - injection H as <- <-. reflexivity.
  - destruct (split_message (y :: b)) as [[m' r']|] eqn:E; [|discriminate H].
    injection H as <- <-.
    change (y :: b ++ c) with ((y :: b) ++ c).
    now rewrite (IH _ _ eq_refl).
Qed.

Lemma split_message_length b : forall m r,
  split_message b = Some (m, r) ->
  (List.length m + List.length r + 2 = List.length b)%nat.
Proof.
  induction b as [|x b IH]; intros m r H; [discriminate H|].
  destruct b as [|y b]; [discriminate H|].
  rewrite split_message_cons in H.
  destruct ((x =? 10) && (y =? 10)).
  - injection H as <- <-. cbn [List.length]. lia.
  - destruct (split_message (y :: b)) as [[m' r']|] eqn:E; [|discriminate H].
    injection H as <- <-. specialize (IH _ _ eq_refl).
    cbn [List.length] in *. lia.
Qed.

Lemma no_blank_line_cons c d r :
  no_blank_line (c :: d :: r)
  = negb ((c =? 10) && (d =? 10)) && no_blank_line (d :: r).
Proof. reflexivity. Qed.

Lemma no_blank_line_split text :
  no_blank_line text = true -> split_message text = None.
Proof.
  induction text as [|c text IH]; [reflexivity|].
  destruct text as [|d text]; [reflexivity|].
  rewrite no_blank_line_cons, split_message_cons. intros H.
  apply andb_true_iff in H as [H1 H2]. apply negb_true_iff in H1.
  now rewrite H1, (IH H2).
Qed.

Lemma no_blank_line_prefix a b :
  no_blank_line (a ++ b) = true -> no_blank_line a = true.
Proof.
  induction a as [|c a IH]; [reflexivity|].
  destruct a as [|d a]; [reflexivity|].
  change ((c :: d :: a) ++ b) with (c :: d :: (a ++ b)).
  rewrite !no_blank_line_cons. intros H.
  apply andb_true_iff in H as [H1 H2]. rewrite H1. apply IH. exact H2.
Qed.

(** ** The loop over the buffer *)

Lemma drain_nil fuel : drain fuel [] = ([], [], Exhausted).
Proof. destruct fuel; reflexivity. Qed.

Lemma drain_fuel f1 : forall f2 b,
  (List.length b <= f1)%nat -> (List.length b <= f2)%nat ->
  drain f1 b = drain f2 b.
Proof.
  induction f1 as [|f1 IH]; intros f2 b H1 H2.
  - destruct b; [|cbn in H1; lia]. now rewrite !drain_nil.
  - destruct f2 as [|f2].
    + destruct b; [|cbn in H2; lia]. now rewrite !drain_nil.
    + cbn [drain]. destruct (split_message b) as [[m r]|] eqn:E; [|reflexivity].
      pose proof (split_message_length _ _ _ E) as Hl.
      rewrite (IH f2 r) by lia. reflexivity.
Qed.

Lemma drain_all_eq b :
  drain_all b
  = match split_message b with
    | None => ([], b, Exhausted)
    | Some (m, r) =>
      match handle_message m with
      | HFail => ([], r, Failed)
      | HBreak => ([], r, Broke)
      | HNothing => drain_all r
      | HCall callback =>
        let '(calls, b', status) := drain_all r in
        (callback :: calls, b', status)
      end
    end.
Proof.
  unfold drain_all. destruct b as [|c b]; [reflexivity|].
  cbn [List.length drain].
  destruct (split_message (c :: b)) as [[m r]|] eqn:E; [|reflexivity].
  pose proof (split_message_length _ _ _ E) as Hl. cbn [List.length] in Hl.
  rewrite (drain_fuel (List.length b) (List.length r) r) by lia. reflexivity.
Qed.

Lemma drain_all_no_message b :
  split_message b = None -> drain_all b = ([], b, Exhausted).
Proof. intros H. now rewrite drain_all_eq, H. Qed.

(** A buffer that the loop left because it holds no more message holds no
    blank line. *)
Lemma drain_all_exhausted n : forall b calls b',
  (List.length b <= n)%nat ->
  drain_all b = (calls, b', Exhausted) -> split_message b' = None.
Proof.
  induction n as [|n IH]; intros b calls b' Hn H; rewrite drain_all_eq in H.
  - destruct b; [|cbn in Hn; lia]. cbn in H. now injection H as <- <-.
  - destruct (split_message b) as [[m r]|] eqn:E.
    + pose proof (split_message_length _ _ _ E) as Hl.
      destruct (handle_message m); try discriminate H.
      * destruct (drain_all r) as [[calls' b''] st] eqn:Er.
        injection H as <- <- ->. apply (IH r calls' b''); [lia|exact Er].
      * apply (IH r calls b'); [lia|exact H].
    + now injection H as <- <-.
Qed.

(** More text behind a buffer: the loop goes on where it stopped. *)
Lemma drain_all_app n : forall x y,
  (List.length x <= n)%nat ->
  drain_all (x ++ y)
  = match drain_all x with
    | (calls, b, Exhausted) =>
      let '(calls', b', status) := drain_all (b ++ y) in
      (calls ++ calls', b', status)
    | (calls, b, status) => (calls, b ++ y, status)
    end.
Proof.
  induction n as [|n IH]; intros x y Hn.
  - destruct x; [|cbn in Hn; lia].
    change (drain_all []) with (@nil Callback, @nil N, Exhausted).
    cbn [app]. now destruct (drain_all y) as [[calls b] st].
  - rewrite (drain_all_eq x).
    destruct (split_message x) as [[m r]|] eqn:E.
    + pose proof (split_message_length _ _ _ E) as Hl.
      rewrite (drain_all_eq (x ++ y)), (split_message_app _ y _ _ E).
      destruct (handle_message m); try reflexivity.
      * rewrite (IH r y) by lia.
        destruct (drain_all r) as [[calls b] [| |]]; try reflexivity.
        now destruct (drain_all (b ++ y)) as [[calls' b'] st'].
      * apply IH. lia.
    + cbn [app]. now destruct (drain_all (x ++ y)) as [[calls b] st].
Qed.

(** ** The loop over the texts *)

Lemma receive_one x n aborted buffer :
  aborted n = false ->
  receive [x] n aborted buffer
  = let '(calls, b, status) := drain_all (buffer ++ x) in
    match status with
    | Failed => calls ++ [OnError Unknown]
    | _ => calls ++ [OnComplete]
    end.
Proof. intros H. cbn [receive]. now rewrite H. Qed.

Lemma receive_index chunks aborted : forall n m buffer,
  (forall k, aborted k = false) ->
  receive chunks n aborted buffer = receive chunks m aborted buffer.
Proof.
  induction chunks as [|chunk rest IH]; intros n m buffer H; [reflexivity|].
  cbn [receive]. rewrite !H.
  destruct (drain_all (buffer ++ chunk)) as [[calls b] st].
  destruct st; try reflexivity; f_equal; apply IH; exact H.
Qed.

(** With no abort and no [aborted] item, the texts of a response are
    handled like their concatenation, received at once. *)
Lemma receive_concat aborted :
  (forall k, aborted k = false) ->
  forall chunks n buffer,
  split_message buffer = None ->
  broke (drain_all (buffer ++ List.concat chunks)) = false ->
  receive chunks n aborted buffer
  = receive [List.concat chunks] n aborted buffer.
Proof.
  intros Hab. induction chunks as [|chunk rest IH]; intros n buffer Hb Hbr.
  - rewrite (receive_one _ _ _ _ (Hab n)). cbn [List.concat].
    rewrite app_nil_r, (drain_all_no_message _ Hb). reflexivity.
  - rewrite (receive_one _ _ _ _ (Hab n)). cbn [receive List.concat].
    rewrite (Hab n). rewrite app_assoc.
    cbn [List.concat] in Hbr. rewrite app_assoc in Hbr.
    rewrite (drain_all_app _ (buffer ++ chunk) (List.concat rest)
                           (Nat.le_refl _)) in Hbr.
    rewrite (drain_all_app _ (buffer ++ chunk) (List.concat rest)
                           (Nat.le_refl _)).
    destruct (drain_all (buffer ++ chunk)) as [[calls b] st] eqn:E.
    destruct st; cbv beta iota zeta in Hbr |- *.
    + pose proof (drain_all_exhausted _ _ _ _ (Nat.le_refl _) E) as Hb'.
      destruct (drain_all (b ++ List.concat rest)) as [[calls' b'] st'] eqn:E'.
      cbv beta iota zeta in Hbr |- *.
      rewrite (IH (S n) b Hb'); [|now rewrite E'].
      rewrite (receive_one _ _ _ _ (Hab (S n))), E'.
      destruct st'; now rewrite <- app_assoc.
    + discriminate Hbr.
    + reflexivity.
Qed.

Lemma receive_no_blank_line aborted : forall chunks n buffer,
  no_blank_line (buffer ++ List.concat chunks) = true ->
  receive chunks n aborted buffer = [OnComplete].
Proof.
  induction chunks as [|chunk rest IH]; intros n buffer H; [reflexivity|].
  cbn [receive List.concat] in *. destruct (aborted n); [reflexivity|].
  rewrite app_assoc in H.
  rewrite (drain_all_no_message (buffer ++ chunk))
    by (apply no_blank_line_split; exact (no_blank_line_prefix _ _ H)).
  cbn [app]. apply IH. exact H.
Qed.

(** ** The events of items *)

Lemma strip_prefix_app w s : strip_prefix w (w ++ s) = Some s.
Proof.
  induction w as [|x w IH]; [now destruct s|].
  cbn [app strip_prefix]. now rewrite N.eqb_refl.
Qed.

Lemma printable_not_lf c : printable c = true -> c <> 10.
Proof. unfold printable. intros H. nbool. lia. Qed.

Lemma split_message_printable m rest :
  forallb printable m = true ->
  split_message (m ++ 10 :: 10 :: rest) = Some (m, rest).
Proof.
  induction m as [|c m IH]; [reflexivity|]. cbn [forallb app]. intros H.
  apply andb_true_iff in H as [Hc Hm].
  now rewrite (split_message_other _ _ (printable_not_lf _ Hc)), (IH Hm).
Qed.

Section Events.

Variable float_repr : N -> pystr.

Lemma handle_message_item item :
  wf_item float_repr item = true ->
  handle_message (lit "data: " ++ json_dumps (item_json float_repr item))
  = match item with
    | Chunk chunk => HCall (OnChunk chunk)
    | Special special => HCall (OnSpecial (special_json float_repr special))
    | Aborted => HBreak
    end.
Proof.
  intros Hwf. unfold handle_message.
  rewrite strip_prefix_app, (json_loads_dumps _ (wf_item_json _ _ Hwf)).
  destruct item; reflexivity.
Qed.

Lemma event_split item rest :
  wf_item float_repr item = true ->
  split_message (event (json_dumps (item_json float_repr item)) ++ rest)
  = Some (lit "data: " ++ json_dumps (item_json float_repr item), rest).
Proof.
  intros Hwf. unfold event.
  rewrite app_assoc, <- app_assoc.
  change ([10; 10] ++ rest) with (10 :: 10 :: rest).
  apply split_message_printable. rewrite forallb_app.
  now rewrite (json_dumps_printable _ (wf_item_json _ _ Hwf)).
Qed.

Lemma drain_all_sse items :
  forallb (payload float_repr) items = true ->
  drain_all (sse_text float_repr items)
  = (flat_map (dispatched float_repr) items, [], Exhausted).
Proof.
  induction items as [|item items IH]; [reflexivity|].
  cbn [forallb]. intros H. apply andb_true_iff in H as [Hp H].
  unfold payload in Hp. apply andb_true_iff in Hp as [Hwf Hna].
  change (sse_text float_repr (item :: items))
    with (event (json_dumps (item_json float_repr item))
          ++ sse_text float_repr items).
  rewrite drain_all_eq, (event_split _ _ Hwf), (handle_message_item _ Hwf).
  rewrite (IH H). destruct item; [reflexivity|reflexivity|discriminate Hna].
Qed.

End Events.

(** ** What a user of the client can rely on *)

(** X21: how the response is cut into texts does not matter.  When
    [abort()] is not called and the loop over the buffer is never left by
    the [break] of an [aborted] item, the client makes the same calls on
    its callbacks as if the whole body had arrived as one text: messages
    cut anywhere, also inside the blank line, are put together again. *)
Theorem X21_texts_are_handled_as_their_concatenation
        (chunks : list pystr) (aborted : nat -> bool) :
  (forall n, aborted n = false) ->
  broke (drain_all (List.concat chunks)) = false ->
  process_response chunks aborted
  = process_response [List.concat chunks] aborted.
Proof.
  intros Hab Hbr. unfold process_response.
  apply receive_concat; [exact Hab|reflexivity|exact Hbr].
Qed.

Lemma X21_texts_are_handled_as_their_concatenation_witness :
  (forall n : nat, (fun _ : nat => false) n = false)
  /\ broke (drain_all
              (List.concat
                 [ lit "data: {" ++ [34] ++ lit "type" ++ [34; 58; 32; 34]
                   ++ lit "chunk" ++ [34; 44; 32; 34] ++ lit "chu";
                   lit "nk" ++ [34; 58] ++ lit " [1, 2]}" ++ [10];
                   [10] ++ lit "data: 5" ++ [10; 10] ]))
     = false
  /\ process_response
       [ lit "data: {" ++ [34] ++ lit "type" ++ [34; 58; 32; 34]
         ++ lit "chunk" ++ [34; 44; 32; 34] ++ lit "chu";
         lit "nk" ++ [34; 58] ++ lit " [1, 2]}" ++ [10];
         [10] ++ lit "data: 5" ++ [10; 10] ]
       (fun _ => false)
     = process_response
         [ List.concat
             [ lit "data: {" ++ [34] ++ lit "type" ++ [34; 58; 32; 34]
               ++ lit "chunk" ++ [34; 44; 32; 34] ++ lit "chu";
               lit "nk" ++ [34; 58] ++ lit " [1, 2]}" ++ [10];
               [10] ++ lit "data: 5" ++ [10; 10] ] ]
         (fun _ => false).
Proof.
  split; [intros n; reflexivity|]. split; [vm_compute; reflexivity|].
  apply (X21_texts_are_handled_as_their_concatenation
           [ lit "data: {" ++ [34] ++ lit "type" ++ [34; 58; 32; 34]
             ++ lit "chunk" ++ [34; 44; 32; 34] ++ lit "chu";
             lit "nk" ++ [34; 58] ++ lit " [1, 2]}" ++ [10];
             [10] ++ lit "data: 5" ++ [10; 10] ]
           (fun _ => false));
    [intros n; reflexivity|vm_compute; reflexivity].
Defined.

Lemma drain_all_aborted float_repr after :
  drain_all (event (json_dumps (item_json float_repr Aborted)) ++ after)
  = ([], after, Broke).
Proof.
  rewrite drain_all_eq, (event_split float_repr Aborted after eq_refl).
  now rewrite (handle_message_item float_repr Aborted eq_refl).
Qed.

(** X22: an item of type [aborted] does not end the client.  Its [break]
    leaves the loop over the buffer only: the messages behind it in the
    text received so far stay in the buffer, and they are lost when no
    further text arrives, but handled when one does. *)
Theorem X22_aborted_item_leaves_only_the_inner_loop
        (float_repr : N -> pystr) (aborted : nat -> bool)
        (after more : pystr) (rest : list pystr) :
  (forall n, aborted n = false) ->
  process_response
    [event (json_dumps (item_json float_repr Aborted)) ++ after] aborted
  = [OnComplete]
  /\ process_response
       ((event (json_dumps (item_json float_repr Aborted)) ++ after)
          :: more :: rest) aborted
     = process_response ((after ++ more) :: rest) aborted.
Proof.
  intros Hab. unfold process_response. split.
  - cbn [receive app]. now rewrite (Hab O), drain_all_aborted.
  - cbn [receive app]. rewrite (Hab O), (Hab 1%nat), drain_all_aborted.
    cbn [app]. destruct (drain_all (after ++ more)) as [[calls b] st].
    destruct st; try reflexivity; f_equal; apply receive_index; exact Hab.
Qed.

Lemma X22_aborted_item_leaves_only_the_inner_loop_witness :
  (forall n : nat, (fun _ : nat => false) n = false)
  /\ process_response
       [event (json_dumps (item_json (fun _ => lit "0.0") Aborted))
        ++ event (json_dumps (item_json (fun _ => lit "0.0") (Chunk JNull)))]
       (fun _ => false)
     = [OnComplete]
  /\ process_response
       ((event (json_dumps (item_json (fun _ => lit "0.0") Aborted))
         ++ event (json_dumps (item_json (fun _ => lit "0.0") (Chunk JNull))))
          :: [] :: []) (fun _ => false)
     = process_response
         ((event (json_dumps (item_json (fun _ => lit "0.0") (Chunk JNull)))
           ++ []) :: []) (fun _ => false).
Proof.
  split; [intros n; reflexivity|].
  apply (X22_aborted_item_leaves_only_the_inner_loop
           (fun _ => lit "0.0") (fun _ => false)
           (event (json_dumps (item_json (fun _ => lit "0.0") (Chunk JNull))))
           [] []).
  intros n; reflexivity.
Defined.

(** X23: what the server serializes, the client hands over.  For items
    that are JSON and not [aborted], each sent as an event whose data is
    [json.dumps(item)] and that ends in a blank line, the client calls
    [on_chunk] with the chunk of every chunk item and [on_special] with
    the dict of every special item, in the order of the items, and then
    [on_complete]; no [on_error] is called, however the body is cut into
    texts. *)
Theorem X23_events_of_items_are_dispatched_in_order
        (float_repr : N -> pystr) (items : list CallerStreamItem)
        (chunks : list pystr) (aborted : nat -> bool) :
  (forall n, aborted n = false) ->
  forallb (payload float_repr) items = true ->
  List.concat chunks = sse_text float_repr items ->
  process_response chunks aborted
  = flat_map (dispatched float_repr) items ++ [OnComplete].
Proof.
  intros Hab Hp Hc. unfold process_response.
  pose proof (drain_all_sse float_repr items Hp) as Hd.
  rewrite (receive_concat aborted Hab chunks O [] eq_refl)
    by (cbn [app]; rewrite Hc, Hd; reflexivity).
  rewrite (receive_one _ _ _ _ (Hab O)). cbn [app].
  now rewrite Hc, Hd.
Qed.

Lemma X23_events_of_items_are_dispatched_in_order_witness :
  (forall n : nat, (fun _ : nat => false) n = false)
  /\ forallb (payload (fun t => int_repr (N.to_nat t) ++ lit ".0"))
             [ Special (StreamStart (lit "run-1") None);
               Chunk (JString (lit "hello"));
               Special (StreamEnd 1 12) ] = true
  /\ List.concat
       [ firstn 40 (sse_text (fun t => int_repr (N.to_nat t) ++ lit ".0")
                             [ Special (StreamStart (lit "run-1") None);
                               Chunk (JString (lit "hello"));
                               Special (StreamEnd 1 12) ]);
         skipn 40 (sse_text (fun t => int_repr (N.to_nat t) ++ lit ".0")
                            [ Special (StreamStart (lit "run-1") None);
                              Chunk (JString (lit "hello"));
                              Special (StreamEnd 1 12) ]) ]
     = sse_text (fun t => int_repr (N.to_nat t) ++ lit ".0")
                [ Special (StreamStart (lit "run-1") None);
                  Chunk (JString (lit "hello"));
                  Special (StreamEnd 1 12) ]
  /\ process_response
       [ firstn 40 (sse_text (fun t => int_repr (N.to_nat t) ++ lit ".0")
                             [ Special (StreamStart (lit "run-1") None);
                               Chunk (JString (lit "hello"));
                               Special (StreamEnd 1 12) ]);
         skipn 40 (sse_text (fun t => int_repr (N.to_nat t) ++ lit ".0")
                            [ Special (StreamStart (lit "run-1") None);
                              Chunk (JString (lit "hello"));
                              Special (StreamEnd 1 12) ]) ]
       (fun _ => false)
     = flat_map (dispatched (fun t => int_repr (N.to_nat t) ++ lit ".0"))
                [ Special (StreamStart (lit "run-1") None);
                  Chunk (JString (lit "hello"));
                  Special (StreamEnd 1 12) ]
       ++ [OnComplete].
Proof.
  split; [intros n; reflexivity|]. split; [vm_compute; reflexivity|].
  split; [vm_compute; reflexivity|].
  apply (X23_events_of_items_are_dispatched_in_order
           (fun t => int_repr (N.to_nat t) ++ lit ".0")
           [ Special (StreamStart (lit "run-1") None);
             Chunk (JString (lit "hello"));
             Special (StreamEnd 1 12) ]);
    [intros n; reflexivity|vm_compute; reflexivity|vm_compute; reflexivity].
Defined.

(** X24: the client finds a message only in front of two line feeds in a
    row.  A body without them, such as events that end in CR LF CR LF,
    makes it call [on_complete] and nothing else, whatever the body holds,
    however it is cut into texts and whenever [abort()] is called. *)
Theorem X24_body_without_blank_line_calls_only_on_complete
        (chunks : list pystr) (aborted : nat -> bool) :
  no_blank_line (List.concat chunks) = true ->
  process_response chunks aborted = [OnComplete].
Proof.
  intros H. unfold process_response. apply receive_no_blank_line. exact H.
Qed.

Lemma X24_body_without_blank_line_calls_only_on_complete_witness :
  no_blank_line
    (List.concat
       [ lit "data: " ++ json_dumps (item_json (fun _ => lit "0.0")
                                               (Chunk (JString (lit "hello"))))
         ++ [13; 10; 13];
         [10] ++ lit "data: "
         ++ json_dumps (item_json (fun _ => lit "0.0") (Chunk JNull))
         ++ [13; 10; 13; 10] ]) = true
  /\ process_response
       [ lit "data: " ++ json_dumps (item_json (fun _ => lit "0.0")
                                               (Chunk (JString (lit "hello"))))
         ++ [13; 10; 13];
         [10] ++ lit "data: "
         ++ json_dumps (item_json (fun _ => lit "0.0") (Chunk JNull))
         ++ [13; 10; 13; 10] ]
       (fun _ => false)
     = [OnComplete].
Proof.
  split; [vm_compute; reflexivity|].
  apply (X24_body_without_blank_line_calls_only_on_complete
           [ lit "data: " ++ json_dumps (item_json (fun _ => lit "0.0")
                                                   (Chunk (JString (lit "hello"))))
             ++ [13; 10; 13];
             [10] ++ lit "data: "
             ++ json_dumps (item_json (fun _ => lit "0.0") (Chunk JNull))
             ++ [13; 10; 13; 10] ]
           (fun _ => false)).
  vm_compute; reflexivity.
Defined.

End ClientExtras.
